(** * ShapesApp: frame resources, fence synchronisation, descriptor table,
      shape geometry and orbit camera

    Shallow embedding of [Assignment Files/Shapes/ShapesApp.cpp].

    The C++ class [ShapesApp] is a record of the members the properties
    below read or write; member functions are functions on that record.
    The GPU is the environment: it retires the [Signal] commands of the
    command queue in submission order, and the amount of progress it has
    made when [Update] queries the fence is an input of each frame. *)

From Stdlib Require Import ZArith Lia List Bool.
From Stdlib Require Import Floats.SpecFloat.
From stdpp Require Import gmap strings list fin_maps.

Local Open Scope Z_scope.

(** ** Machine integers

    [UINT] is 32-bit unsigned, [int] 32-bit two's complement, [UINT64]
    64-bit unsigned, [std::uint16_t] 16-bit unsigned.  Every conversion and
    every arithmetic result is reduced explicitly. *)

Definition UINT (x : Z) : Z := x mod 2 ^ 32.
Definition INT (x : Z) : Z := (x + 2 ^ 31) mod 2 ^ 32 - 2 ^ 31.
Definition UINT64 (x : Z) : Z := x mod 2 ^ 64.
Definition uint16_t (x : Z) : Z := x mod 2 ^ 16.

(** [(UINT)v.size()] *)
Definition size_UINT {A} (v : list A) : Z := UINT (Z.of_nat (length v)).

(** [v[i]] on a [std::vector]: outside the vector the access is undefined,
    which the model reports as [None]. *)
Definition vector_at {A} (v : list A) (i : Z) : option A :=
  if i <? 0 then None else v !! Z.to_nat i.

(** ** Single-precision floats

    [float] is IEEE binary32: 24 bits of precision, exponents below 128. *)

Definition float : Type := spec_float.
Definition fprec : Z := 24.
Definition femax : Z := 128.

Definition fadd (x y : float) : float := SFadd fprec femax x y.
Definition fsub (x y : float) : float := SFsub fprec femax x y.
Definition fmul (x y : float) : float := SFmul fprec femax x y.
Definition fdiv (x y : float) : float := SFdiv fprec femax x y.
Definition flt (x y : float) : bool := SFltb x y.
Definition fle (x y : float) : bool := SFleb x y.

(** [static_cast<float>(n)] for an [int] [n]: round to nearest even. *)
Definition float_of_int (n : Z) : float := binary_normalize fprec femax n 0 false.

(** Literals, as mantissa and exponent of the nearest binary32 value. *)
Definition f0 : float := S754_zero false.
Definition f1 : float := S754_finite false 8388608 (-23).        (* 1.0f *)
Definition f0_1 : float := S754_finite false 13421773 (-27).     (* 0.1f *)
Definition f0_2 : float := S754_finite false 13421773 (-26).     (* 0.2f *)
Definition f0_05 : float := S754_finite false 13421773 (-28).    (* 0.05f *)
Definition f0_25 : float := S754_finite false 8388608 (-25).     (* 0.25f *)
Definition f1_5 : float := S754_finite false 12582912 (-23).     (* 1.5f *)
Definition f5 : float := S754_finite false 10485760 (-21).       (* 5.0f *)
Definition f15 : float := S754_finite false 15728640 (-20).      (* 15.0f *)
Definition f150 : float := S754_finite false 9830400 (-16).      (* 150.0f *)
Definition f180 : float := S754_finite false 11796480 (-16).     (* 180.0f *)

(** [XM_PI = 3.141592654f] (DirectXMath). *)
Definition XM_PI : float := S754_finite false 13176795 (-22).

(** [XMConvertToRadians(fDegrees) = fDegrees * (XM_PI / 180.0f)] (DirectXMath). *)
Definition XMConvertToRadians (fDegrees : float) : float :=
  fmul fDegrees (fdiv XM_PI f180).

(** Modelled from the spec: [MathHelper::Pi] and [MathHelper::Clamp] live in
    [Common/MathHelper.h], which this development does not have.  The
    camera section says the elevation and the radius are "clamped" to an
    interval: a value below the interval becomes its lower end, a value
    above it the upper end, any other value is kept. *)
Definition MathHelper_Pi : float := S754_finite false 13176795 (-22).

Definition MathHelper_Clamp (x low high : float) : float :=
  if flt x low then low else if flt high x then high else x.

(** ** Matrices *)

Record XMFLOAT4X4 : Type := mkXMFLOAT4X4 {
  _11 : float; _12 : float; _13 : float; _14 : float;
  _21 : float; _22 : float; _23 : float; _24 : float;
  _31 : float; _32 : float; _33 : float; _34 : float;
  _41 : float; _42 : float; _43 : float; _44 : float
}.

Definition Identity4x4 : XMFLOAT4X4 :=
  mkXMFLOAT4X4 f1 f0 f0 f0
               f0 f1 f0 f0
               f0 f0 f1 f0
               f0 f0 f0 f1.

Definition XMMatrixTranspose (M : XMFLOAT4X4) : XMFLOAT4X4 :=
  mkXMFLOAT4X4 (_11 M) (_21 M) (_31 M) (_41 M)
               (_12 M) (_22 M) (_32 M) (_42 M)
               (_13 M) (_23 M) (_33 M) (_43 M)
               (_14 M) (_24 M) (_34 M) (_44 M).

(** [ObjectConstants] (FrameResource.h): the per-object uniform record. *)
Record ObjectConstants : Type := mkObjectConstants { oc_World : XMFLOAT4X4 }.

(** ** Errors of the device layer

    [ThrowIfFailed(hr)] throws a [DxException] when the [HRESULT] is
    negative; a thrown exception aborts start-up (see [WinMain]). *)

Inductive Result (A : Type) : Type :=
  | Ok (a : A)
  | DxException (hr : Z).
Arguments Ok {A} a.
Arguments DxException {A} hr.

Definition FAILED (hr : Z) : bool := hr <? 0.

Definition ThrowIfFailed {A} (hr : Z) (k : Result A) : Result A :=
  if FAILED hr then DxException hr else k.

(** The calls of [BuildShapeGeometry] that can fail.  Each field is the
    [HRESULT] the device answers for a buffer of the given byte size. *)
Record Device : Type := mkDevice {
  D3DCreateBlob : Z -> Z;
  CreateDefaultBuffer : Z -> Z
}.

(** ** Geometry *)

Record XMFLOAT3 : Type := mkXMFLOAT3 { fx : float; fy : float; fz : float }.

(** The colours [BuildShapeGeometry] paints with ([DirectX::Colors]);
    [ZeroColor] is the value-initialised [XMFLOAT4] of a fresh vertex. *)
Inductive XMFLOAT4_Color : Type :=
  | ZeroColor | Purple | Gray | LightBlue | SteelBlue | Yellow
  | Crimson | Pink | LightGreen | Orange | Silver.

Module GeometryGenerator.
(** [GeometryGenerator::Vertex]: only [Position] is read. *)
Record Vertex : Type := mkVertex { Position : XMFLOAT3 }.

Record MeshData : Type := mkMeshData {
  Vertices : list Vertex;
  Indices32 : list Z
}.

(** Modelled from the spec: [MeshData::GetIndices16] is declared in
    [Common/GeometryGenerator.h], which this development does not have.  The index arrays
    are concatenated at "the chosen index width", which [BuildShapeGeometry]
    fixes to 16 bits: every 32-bit index is narrowed to [std::uint16_t]. *)
Definition GetIndices16 (m : MeshData) : list Z := map uint16_t (Indices32 m).
End GeometryGenerator.

(** [Vertex] of the vertex buffer (FrameResource.h): position and colour,
    [sizeof(Vertex) = 12 + 16]. *)
Record Vertex : Type := mkVertex { Pos : XMFLOAT3; Color : XMFLOAT4_Color }.
Definition sizeof_Vertex : Z := 28.
Definition sizeof_uint16_t : Z := 2.

Definition Vertex_zero : Vertex :=
  mkVertex (mkXMFLOAT3 f0 f0 f0) ZeroColor.

Module SubmeshGeometry.
Record t : Type := mk {
  IndexCount : Z;           (* UINT *)
  StartIndexLocation : Z;   (* UINT *)
  BaseVertexLocation : Z    (* INT *)
}.
(** A default-constructed submesh, what [DrawArgs[name]] yields for a
    name that was never stored. *)
Definition zero : t := mk 0 0 0.
End SubmeshGeometry.

Inductive DXGI_FORMAT : Type := DXGI_FORMAT_R16_UINT | DXGI_FORMAT_R32_UINT.

Module MeshGeometry.
Record t : Type := mk {
  Name : string;
  VertexBufferCPU : list Vertex;
  IndexBufferCPU : list Z;
  VertexByteStride : Z;
  VertexBufferByteSize : Z;
  IndexFormat : DXGI_FORMAT;
  IndexBufferByteSize : Z;
  DrawArgs : gmap string SubmeshGeometry.t
}.
End MeshGeometry.

(** The ten meshes [BuildShapeGeometry] obtains from [GeometryGenerator]
    (whose mesh builders this development does not have): its inputs here. *)
Record Shapes : Type := mkShapes {
  box : GeometryGenerator.MeshData;
  grid : GeometryGenerator.MeshData;
  sphere : GeometryGenerator.MeshData;
  cylinder : GeometryGenerator.MeshData;
  pyramid : GeometryGenerator.MeshData;
  wedge : GeometryGenerator.MeshData;
  cone : GeometryGenerator.MeshData;
  halfCone : GeometryGenerator.MeshData;
  prism : GeometryGenerator.MeshData;
  diamond : GeometryGenerator.MeshData
}.

(** One of the ten copy loops
    [for (size_t i = 0; i < m.Vertices.size(); ++i, ++k) { vertices[k] = ... }]:
    [k] is a [UINT] and carries over from loop to loop. *)
Fixpoint PackVertices (color : XMFLOAT4_Color) (src : list GeometryGenerator.Vertex)
    (k : Z) (vertices : list Vertex) : Z * list Vertex :=
  match src with
  | [] => (k, vertices)
  | v :: rest =>
      PackVertices color rest (UINT (k + 1))
        (<[Z.to_nat k := mkVertex (GeometryGenerator.Position v) color]> vertices)
  end.

Definition nverts (m : GeometryGenerator.MeshData) : Z :=
  Z.of_nat (length (GeometryGenerator.Vertices m)).
Definition nidx (m : GeometryGenerator.MeshData) : Z :=
  Z.of_nat (length (GeometryGenerator.Indices32 m)).

(** The submesh table of [BuildShapeGeometry], in the order of the source. *)
Definition BuildSubmeshes (s : Shapes) : list (string * SubmeshGeometry.t) :=
  (* Cache the vertex offsets to each object in the concatenated vertex buffer. *)
  let boxVertexOffset := 0 in
  let gridVertexOffset := UINT (nverts (box s)) in
  let sphereVertexOffset := UINT (gridVertexOffset + UINT (nverts (grid s))) in
  let cylinderVertexOffset := UINT (sphereVertexOffset + UINT (nverts (sphere s))) in
  let pyramidVertexOffset := UINT (cylinderVertexOffset + UINT (nverts (cylinder s))) in
  let wedgeVertexOffset := UINT (pyramidVertexOffset + UINT (nverts (pyramid s))) in
  let coneVertexOffset := UINT (wedgeVertexOffset + UINT (nverts (wedge s))) in
  let halfConeVertexOffset := UINT (coneVertexOffset + UINT (nverts (cone s))) in
  let prismVertexOffset := UINT (halfConeVertexOffset + UINT (nverts (halfCone s))) in
  let diamondVertexOffset := UINT (prismVertexOffset + UINT (nverts (prism s))) in
  (* Cache the starting index for each object in the concatenated index buffer. *)
  let boxIndexOffset := 0 in
  let gridIndexOffset := UINT (nidx (box s)) in
  let sphereIndexOffset := UINT (gridIndexOffset + UINT (nidx (grid s))) in
  let cylinderIndexOffset := UINT (sphereIndexOffset + UINT (nidx (sphere s))) in
  let pyramidIndexOffset := UINT (cylinderIndexOffset + UINT (nidx (cylinder s))) in
  let wedgeIndexOffset := UINT (pyramidIndexOffset + UINT (nidx (pyramid s))) in
  let coneIndexOffset := UINT (wedgeIndexOffset + UINT (nidx (wedge s))) in
  let halfConeIndexOffset := UINT (coneIndexOffset + UINT (nidx (cone s))) in
  let prismIndexOffset := UINT (halfConeIndexOffset + UINT (nidx (halfCone s))) in
  let diamondIndexOffset := UINT (prismIndexOffset + UINT (nidx (prism s))) in
  let submesh m indexOffset vertexOffset :=
    SubmeshGeometry.mk (UINT (nidx m)) indexOffset (INT vertexOffset) in
  [ ("box"%string, submesh (box s) boxIndexOffset boxVertexOffset);
    ("grid"%string, submesh (grid s) gridIndexOffset gridVertexOffset);
    ("sphere"%string, submesh (sphere s) sphereIndexOffset sphereVertexOffset);
    ("cylinder"%string, submesh (cylinder s) cylinderIndexOffset cylinderVertexOffset);
    ("pyramid"%string, submesh (pyramid s) pyramidIndexOffset pyramidVertexOffset);
    ("wedge"%string, submesh (wedge s) wedgeIndexOffset wedgeVertexOffset);
    ("cone"%string, submesh (cone s) coneIndexOffset coneVertexOffset);
    ("halfCone"%string, submesh (halfCone s) halfConeIndexOffset halfConeVertexOffset);
    ("prism"%string, submesh (prism s) prismIndexOffset prismVertexOffset);
    ("diamond"%string, submesh (diamond s) diamondIndexOffset diamondVertexOffset) ].

(** The packed vertex buffer: [std::vector<Vertex> vertices(totalVertexCount)]
    filled by the ten loops. *)
Definition BuildVertices (s : Shapes) : list Vertex :=
  let totalVertexCount :=
    (length (GeometryGenerator.Vertices (box s)) +
     length (GeometryGenerator.Vertices (grid s)) +
     length (GeometryGenerator.Vertices (sphere s)) +
     length (GeometryGenerator.Vertices (cylinder s)) +
     length (GeometryGenerator.Vertices (pyramid s)) +
     length (GeometryGenerator.Vertices (wedge s)) +
     length (GeometryGenerator.Vertices (cone s)) +
     length (GeometryGenerator.Vertices (halfCone s)) +
     length (GeometryGenerator.Vertices (prism s)) +
     length (GeometryGenerator.Vertices (diamond s)))%nat in
  let vertices := replicate totalVertexCount Vertex_zero in
  let k := 0 in
  let '(k, vertices) := PackVertices Purple (GeometryGenerator.Vertices (box s)) k vertices in
  let '(k, vertices) := PackVertices Gray (GeometryGenerator.Vertices (grid s)) k vertices in
  let '(k, vertices) := PackVertices LightBlue (GeometryGenerator.Vertices (sphere s)) k vertices in
  let '(k, vertices) := PackVertices SteelBlue (GeometryGenerator.Vertices (cylinder s)) k vertices in
  let '(k, vertices) := PackVertices Yellow (GeometryGenerator.Vertices (pyramid s)) k vertices in
  let '(k, vertices) := PackVertices Crimson (GeometryGenerator.Vertices (wedge s)) k vertices in
  let '(k, vertices) := PackVertices Pink (GeometryGenerator.Vertices (cone s)) k vertices in
  let '(k, vertices) := PackVertices LightGreen (GeometryGenerator.Vertices (halfCone s)) k vertices in
  let '(k, vertices) := PackVertices Orange (GeometryGenerator.Vertices (prism s)) k vertices in
  let '(k, vertices) := PackVertices Silver (GeometryGenerator.Vertices (diamond s)) k vertices in
  vertices.

(** The index buffer: ten [indices.insert(indices.end(), ...)]. *)
Definition BuildIndices (s : Shapes) : list Z :=
  let indices := [] in
  let indices := indices ++ GeometryGenerator.GetIndices16 (box s) in
  let indices := indices ++ GeometryGenerator.GetIndices16 (grid s) in
  let indices := indices ++ GeometryGenerator.GetIndices16 (sphere s) in
  let indices := indices ++ GeometryGenerator.GetIndices16 (cylinder s) in
  let indices := indices ++ GeometryGenerator.GetIndices16 (pyramid s) in
  let indices := indices ++ GeometryGenerator.GetIndices16 (wedge s) in
  let indices := indices ++ GeometryGenerator.GetIndices16 (cone s) in
  let indices := indices ++ GeometryGenerator.GetIndices16 (halfCone s) in
  let indices := indices ++ GeometryGenerator.GetIndices16 (prism s) in
  let indices := indices ++ GeometryGenerator.GetIndices16 (diamond s) in
  indices.

(** [geo->DrawArgs["box"] = boxSubmesh; ...] *)
Definition StoreDrawArgs (subs : list (string * SubmeshGeometry.t))
    : gmap string SubmeshGeometry.t :=
  fold_left (fun args p => <[fst p := snd p]> args) subs ∅.

Definition BuildShapeGeometry (dev : Device) (s : Shapes) : Result MeshGeometry.t :=
  let submeshes := BuildSubmeshes s in
  let vertices := BuildVertices s in
  let indices := BuildIndices s in
  let vbByteSize := UINT (size_UINT vertices * sizeof_Vertex) in
  let ibByteSize := UINT (size_UINT indices * sizeof_uint16_t) in
  ThrowIfFailed (D3DCreateBlob dev vbByteSize) (
  ThrowIfFailed (D3DCreateBlob dev ibByteSize) (
  ThrowIfFailed (CreateDefaultBuffer dev vbByteSize) (
  ThrowIfFailed (CreateDefaultBuffer dev ibByteSize) (
  Ok (MeshGeometry.mk "shapeGeo" vertices indices
        sizeof_Vertex vbByteSize DXGI_FORMAT_R16_UINT ibByteSize
        (StoreDrawArgs submeshes)))))).

(** ** Render items *)

Definition gNumFrameResources : Z := 3.

Inductive D3D12_PRIMITIVE_TOPOLOGY : Type := D3D_PRIMITIVE_TOPOLOGY_TRIANGLELIST.

Module RenderItem.
Record t : Type := mk {
  World : XMFLOAT4X4;
  NumFramesDirty : Z;                    (* int *)
  ObjCBIndex : Z;                        (* UINT *)
  Geo : option string;                   (* MeshGeometry*, by name in mGeometries *)
  PrimitiveType : D3D12_PRIMITIVE_TOPOLOGY;
  IndexCount : Z;                        (* UINT *)
  StartIndexLocation : Z;                (* UINT *)
  BaseVertexLocation : Z                 (* int *)
}.

(** [RenderItem() = default] with the member initialisers of the struct. *)
Definition default : t :=
  mk Identity4x4 gNumFrameResources (UINT (-1)) None
     D3D_PRIMITIVE_TOPOLOGY_TRIANGLELIST 0 0 0.

Definition set_NumFramesDirty (n : Z) (e : t) : t :=
  mk (World e) n (ObjCBIndex e) (Geo e) (PrimitiveType e)
     (IndexCount e) (StartIndexLocation e) (BaseVertexLocation e).
End RenderItem.

(** The scene of [BuildRenderItems]: the render items in the order they are
    pushed, each with the name of the submesh it draws. *)
Definition scene : list (string * string) :=
  [ ("leftWallRitem", "box"); ("rightWallRitem", "box"); ("backWallRitem", "box");
    ("frontLWallRitem", "box"); ("frontRWallRitem", "box");
    ("cylinder1Ritem", "cylinder"); ("cylinder2Ritem", "cylinder");
    ("cylinder3Ritem", "cylinder"); ("cylinder4Ritem", "cylinder");
    ("coneRitem", "cone"); ("cone1Ritem", "cone"); ("cone2Ritem", "cone");
    ("cone3Ritem", "cone");
    ("gridRitem", "grid"); ("sphereRitem", "sphere");
    ("pyramidRitem", "pyramid"); ("pyramid1Ritem", "pyramid");
    ("wedgeRitem", "wedge"); ("wedge1Ritem", "wedge");
    ("halfConeRitem", "halfCone"); ("prismRitem", "prism");
    ("diamondRitem", "diamond") ]%string.

(** [geo->DrawArgs[name]]: [operator[]] of the map default-constructs a
    missing entry. *)
Definition DrawArgs_at (geo : MeshGeometry.t) (name : string) : SubmeshGeometry.t :=
  default SubmeshGeometry.zero (MeshGeometry.DrawArgs geo !! name).

(** One block of [BuildRenderItems]:
    [auto r = std::make_unique<RenderItem>(); XMStoreFloat4x4(&r->World, ...);
     r->ObjCBIndex = objIndex++; r->Geo = mGeometries["shapeGeo"].get(); ...;
     mAllRitems.push_back(std::move(r));]
    The world matrix is a product of DirectXMath scalings, translations and
    rotations; [worlds] supplies its value for the item of the given name
    ([gridRitem] takes the identity). *)
Definition PushRitem (worlds : string -> XMFLOAT4X4) (geo : MeshGeometry.t)
    (acc : list RenderItem.t * Z) (entry : string * string) : list RenderItem.t * Z :=
  let '(mAllRitems, objIndex) := acc in
  let '(ritem, shape) := entry in
  let args := DrawArgs_at geo shape in
  let r :=
    RenderItem.mk
      (if String.eqb ritem "gridRitem" then Identity4x4 else worlds ritem)
      (RenderItem.NumFramesDirty RenderItem.default)
      (UINT objIndex)
      (Some "shapeGeo"%string)
      D3D_PRIMITIVE_TOPOLOGY_TRIANGLELIST
      (SubmeshGeometry.IndexCount args)
      (SubmeshGeometry.StartIndexLocation args)
      (SubmeshGeometry.BaseVertexLocation args) in
  (mAllRitems ++ [r], INT (objIndex + 1)).

(** [BuildRenderItems]: fills [mAllRitems], then pushes a pointer to every
    item onto [mOpaqueRitems].  A [RenderItem*] is the position of the item
    in [mAllRitems].  Every block dereferences [mGeometries["shapeGeo"].get()],
    a null pointer when no such geometry was stored ([None]). *)
Definition BuildRenderItems (worlds : string -> XMFLOAT4X4)
    (mGeometries : gmap string MeshGeometry.t)
    : option (list RenderItem.t * list nat) :=
  geo ← mGeometries !! "shapeGeo"%string;
  let objIndex := 0 in
  let '(mAllRitems, _) := fold_left (PushRitem worlds geo) scene ([], objIndex) in
  (* All the render items are opaque. *)
  let mOpaqueRitems := seq 0 (length mAllRitems) in
  Some (mAllRitems, mOpaqueRitems).

(** ** Frame resources *)

(** Modelled from the spec: [UploadBuffer<T>] is declared in
    [Common/UploadBuffer.h], which this development does not have.  "Each buffer write is a direct memory copy into a
    persistently-mapped region at slot_base + index × aligned_stride": the
    mapped region is a map from element index to the element last copied
    there, and [CopyData] overwrites one entry. *)
Definition CopyData {T} (buffer : gmap Z T) (elementIndex : Z) (data : T) : gmap Z T :=
  <[elementIndex := data]> buffer.

Module FrameResource.
(** [FrameResource] (FrameResource.h): the per-object upload buffer and
    the fence value of the last frame drawn from this slot.  A fresh frame
    resource has [Fence = 0] and nothing copied.  The command allocator and
    the pass buffer, whose content is camera arithmetic, are left out; a
    pass write is recorded as an event. *)
Record t : Type := mk {
  ObjectCB : gmap Z ObjectConstants;
  Fence : Z                              (* UINT64 *)
}.
Definition fresh : t := mk ∅ 0.
Definition set_Fence (v : Z) (fr : t) : t := mk (ObjectCB fr) v.
Definition set_ObjectCB (cb : gmap Z ObjectConstants) (fr : t) : t := mk cb (Fence fr).
End FrameResource.

(** [BuildFrameResources]: [gNumFrameResources] push_backs. *)
Definition BuildFrameResources : list FrameResource.t :=
  replicate (Z.to_nat gNumFrameResources) FrameResource.fresh.

(** ** The GPU timeline

    [mFence] is an [ID3D12Fence]; [mCommandQueue->Signal(mFence, v)] appends
    to the queue an instruction that sets the fence to [v] once the GPU has
    processed everything submitted before it.  The model keeps the fence
    value and the signals not yet executed, oldest first. *)
Module Gpu.
Record t : Type := mk {
  completed : Z;          (* what mFence->GetCompletedValue() returns *)
  pending : list Z        (* values of the queued Signal instructions *)
}.

Definition Signal (v : Z) (g : t) : t := mk (completed g) (pending g ++ [v]).

(** The GPU executes the oldest queued signal. *)
Definition step (g : t) : t :=
  match pending g with
  | [] => g
  | v :: q => mk v q
  end.

(** [n] steps of progress. *)
Fixpoint run (n : nat) (g : t) : t :=
  match n with
  | O => g
  | S n' => run n' (step g)
  end.

(** [SetEventOnCompletion(target, ev); WaitForSingleObject(ev, INFINITE)]:
    the thread sleeps while the GPU goes on, and wakes up as soon as the
    fence has reached [target].  [None] is a wait that never returns: the
    queue has run dry below [target]. *)
Fixpoint wait_from (target c : Z) (q : list Z) : option t :=
  if target <=? c then Some (mk c q)
  else match q with
       | [] => None
       | v :: q' => wait_from target v q'
       end.

Definition WaitForSingleObject (target : Z) (g : t) : option t :=
  wait_from target (completed g) (pending g).
End Gpu.

(** ** The descriptor heap *)

(** A constant buffer view: which element of which frame resource's buffer
    the descriptor points at ([cbvDesc.BufferLocation]). *)
Inductive CBV : Type :=
  | ObjectCBV (frameIndex : Z) (i : Z)
  | PassCBV (frameIndex : Z).

Module DescriptorHeap.
Record t : Type := mk {
  NumDescriptors : Z;           (* UINT *)
  views : gmap Z CBV            (* descriptor written at each heap index *)
}.
(** [md3dDevice->CreateConstantBufferView(&cbvDesc, handle)] with [handle]
    at [heapIndex] descriptors from the heap start. *)
Definition CreateConstantBufferView (heapIndex : Z) (v : CBV) (h : t) : t :=
  mk (NumDescriptors h) (<[heapIndex := v]> (views h)).
End DescriptorHeap.

(** ** The application *)

(** What [Update] and [Draw] do to the frame resources, the descriptor
    tables and the command queue, in program order. *)
Inductive Event : Type :=
  | EvWait (fence : Z)
  | EvCopyObjectCB (frame : nat) (elementIndex : Z) (data : ObjectConstants)
  | EvCopyPassCB (frame : nat)
  | EvSetPassTable (passCbvIndex : Z)
  | EvSetObjectTable (cbvIndex : Z)
  | EvDrawIndexedInstanced (IndexCount StartIndexLocation BaseVertexLocation : Z)
  | EvExecuteCommandLists
  | EvPresent
  | EvSignal (value : Z).

Module ShapesApp.
(** The members of [ShapesApp] (and of its base [D3DApp]) that frame
    resources, fences and descriptors involve.  [mCurrFrameResource] is a
    pointer into [mFrameResources]: the position it points at, [None] for
    [nullptr]. *)
Record t : Type := mk {
  mFrameResources : list FrameResource.t;
  mCurrFrameResource : option nat;
  mCurrFrameResourceIndex : Z;                 (* int *)
  mCbvHeap : DescriptorHeap.t;
  mGeometries : gmap string MeshGeometry.t;
  mAllRitems : list RenderItem.t;
  mOpaqueRitems : list nat;
  mPassCbvOffset : Z;                          (* UINT *)
  mCurrentFence : Z;                           (* UINT64, D3DApp *)
  gpu : Gpu.t                                  (* mFence and mCommandQueue, D3DApp *)
}.

Definition set_mFrameResources v (a : t) : t :=
  mk v (mCurrFrameResource a) (mCurrFrameResourceIndex a) (mCbvHeap a) (mGeometries a)
     (mAllRitems a) (mOpaqueRitems a) (mPassCbvOffset a) (mCurrentFence a) (gpu a).
Definition set_mCurrFrameResource v (a : t) : t :=
  mk (mFrameResources a) v (mCurrFrameResourceIndex a) (mCbvHeap a) (mGeometries a)
     (mAllRitems a) (mOpaqueRitems a) (mPassCbvOffset a) (mCurrentFence a) (gpu a).
Definition set_mCurrFrameResourceIndex v (a : t) : t :=
  mk (mFrameResources a) (mCurrFrameResource a) v (mCbvHeap a) (mGeometries a)
     (mAllRitems a) (mOpaqueRitems a) (mPassCbvOffset a) (mCurrentFence a) (gpu a).
Definition set_mCbvHeap v (a : t) : t :=
  mk (mFrameResources a) (mCurrFrameResource a) (mCurrFrameResourceIndex a) v (mGeometries a)
     (mAllRitems a) (mOpaqueRitems a) (mPassCbvOffset a) (mCurrentFence a) (gpu a).
Definition set_mAllRitems v (a : t) : t :=
  mk (mFrameResources a) (mCurrFrameResource a) (mCurrFrameResourceIndex a) (mCbvHeap a)
     (mGeometries a) v (mOpaqueRitems a) (mPassCbvOffset a) (mCurrentFence a) (gpu a).
Definition set_mPassCbvOffset v (a : t) : t :=
  mk (mFrameResources a) (mCurrFrameResource a) (mCurrFrameResourceIndex a) (mCbvHeap a)
     (mGeometries a) (mAllRitems a) (mOpaqueRitems a) v (mCurrentFence a) (gpu a).
Definition set_mCurrentFence v (a : t) : t :=
  mk (mFrameResources a) (mCurrFrameResource a) (mCurrFrameResourceIndex a) (mCbvHeap a)
     (mGeometries a) (mAllRitems a) (mOpaqueRitems a) (mPassCbvOffset a) v (gpu a).
Definition set_gpu v (a : t) : t :=
  mk (mFrameResources a) (mCurrFrameResource a) (mCurrFrameResourceIndex a) (mCbvHeap a)
     (mGeometries a) (mAllRitems a) (mOpaqueRitems a) (mPassCbvOffset a) (mCurrentFence a) v.
End ShapesApp.
Import ShapesApp.

(** *** Descriptor heap construction *)

Definition BuildDescriptorHeaps (app : ShapesApp.t) : ShapesApp.t :=
  let objCount := size_UINT (mOpaqueRitems app) in
  (* Need a CBV descriptor for each object for each frame resource,
     +1 for the perPass CBV for each frame resource. *)
  let numDescriptors := UINT ((objCount + 1) * UINT gNumFrameResources) in
  (* Save an offset to the start of the pass CBVs. *)
  let app := set_mPassCbvOffset (UINT (objCount * UINT gNumFrameResources)) app in
  set_mCbvHeap (DescriptorHeap.mk numDescriptors ∅) app.

(** [int heapIndex = frameIndex * objCount + i;] with [int frameIndex] and
    [UINT objCount, i]: the arithmetic is unsigned, the result converted. *)
Definition objHeapIndex (objCount frameIndex i : Z) : Z :=
  INT (UINT (UINT (UINT frameIndex * objCount) + i)).

(** [int heapIndex = mPassCbvOffset + frameIndex;] *)
Definition passHeapIndex (mPassCbvOffset frameIndex : Z) : Z :=
  INT (UINT (mPassCbvOffset + UINT frameIndex)).

(** The inner loop [for (UINT i = 0; i < objCount; ++i)] for one frame. *)
Definition BuildObjectViews (objCount frameIndex : Z) (heap : DescriptorHeap.t)
    : DescriptorHeap.t :=
  fold_left (fun h i =>
      DescriptorHeap.CreateConstantBufferView
        (objHeapIndex objCount frameIndex i) (ObjectCBV frameIndex i) h)
    (seqZ 0 objCount) heap.

(** [BuildConstantBufferViews]: [mFrameResources[frameIndex]] must exist
    for every frame index the loops visit. *)
Definition BuildConstantBufferViews (app : ShapesApp.t) : option ShapesApp.t :=
  let objCount := size_UINT (mOpaqueRitems app) in
  (* Need a CBV descriptor for each object for each frame resource. *)
  heap ← fold_left (fun oh frameIndex =>
             h ← oh;
             _ ← vector_at (mFrameResources app) frameIndex;
             Some (BuildObjectViews objCount frameIndex h))
           (seqZ 0 gNumFrameResources) (Some (mCbvHeap app));
  (* Last three descriptors are the pass CBVs for each frame resource. *)
  heap ← fold_left (fun oh frameIndex =>
             h ← oh;
             _ ← vector_at (mFrameResources app) frameIndex;
             Some (DescriptorHeap.CreateConstantBufferView
                     (passHeapIndex (mPassCbvOffset app) frameIndex) (PassCBV frameIndex) h))
           (seqZ 0 gNumFrameResources) (Some heap);
  Some (set_mCbvHeap heap app).

(** *** Update *)

(** The loop of [UpdateObjectCBs] over [mAllRitems], writing into the object
    buffer [currObjectCB] of frame resource [frame]. *)
Fixpoint UpdateObjectCBs_loop (frame : nat) (ritems : list RenderItem.t)
    (currObjectCB : gmap Z ObjectConstants)
    : list RenderItem.t * gmap Z ObjectConstants * list Event :=
  match ritems with
  | [] => ([], currObjectCB, [])
  | e :: rest =>
      (* Only update the cbuffer data if the constants have changed. *)
      if 0 <? RenderItem.NumFramesDirty e then
        let world := RenderItem.World e in
        let objConstants := mkObjectConstants (XMMatrixTranspose world) in
        let currObjectCB := CopyData currObjectCB (RenderItem.ObjCBIndex e) objConstants in
        (* Next FrameResource need to be updated too. *)
        let e := RenderItem.set_NumFramesDirty (INT (RenderItem.NumFramesDirty e - 1)) e in
        let '(rest, cb, log) := UpdateObjectCBs_loop frame rest currObjectCB in
        (e :: rest, cb,
         EvCopyObjectCB frame (RenderItem.ObjCBIndex e) objConstants :: log)
      else
        let '(rest, cb, log) := UpdateObjectCBs_loop frame rest currObjectCB in
        (e :: rest, cb, log)
  end.

Definition UpdateObjectCBs (app : ShapesApp.t) : option (ShapesApp.t * list Event) :=
  frame ← mCurrFrameResource app;
  fr ← mFrameResources app !! frame;
  let '(ritems, cb, log) :=
    UpdateObjectCBs_loop frame (mAllRitems app) (FrameResource.ObjectCB fr) in
  let app := set_mAllRitems ritems app in
  let app := set_mFrameResources
               (<[frame := FrameResource.set_ObjectCB cb fr]> (mFrameResources app)) app in
  Some (app, log).

(** [UpdateMainPassCB]: the pass constants are camera and viewport
    arithmetic; the model records that they are copied into element 0 of the
    current frame resource's pass buffer. *)
Definition UpdateMainPassCB (app : ShapesApp.t) : option (ShapesApp.t * list Event) :=
  frame ← mCurrFrameResource app;
  _ ← mFrameResources app !! frame;
  Some (app, [EvCopyPassCB frame]).

(** [Update].  [progress] is the number of queued signals the GPU has
    executed since the CPU last looked, an input of the frame.
    [OnKeyboardInput] and [UpdateCamera] write the wireframe flag, the eye
    position and the view matrix only. *)
Definition Update (progress : nat) (app : ShapesApp.t) : option (ShapesApp.t * list Event) :=
  let app := set_gpu (Gpu.run progress (gpu app)) app in
  (* Cycle through the circular frame resource array. *)
  let app := set_mCurrFrameResourceIndex
               (Z.rem (INT (mCurrFrameResourceIndex app + 1)) gNumFrameResources) app in
  _ ← vector_at (mFrameResources app) (mCurrFrameResourceIndex app);
  let app := set_mCurrFrameResource (Some (Z.to_nat (mCurrFrameResourceIndex app))) app in
  (* Has the GPU finished processing the commands of the current frame resource?
     If not, wait until the GPU has completed commands up to this fence point. *)
  frame ← mCurrFrameResource app;
  fr ← mFrameResources app !! frame;
  '(app, waited) ←
     (if negb (FrameResource.Fence fr =? 0)
         && (Gpu.completed (gpu app) <? FrameResource.Fence fr)
      then
        g ← Gpu.WaitForSingleObject (FrameResource.Fence fr) (gpu app);
        Some (set_gpu g app, [EvWait (FrameResource.Fence fr)])
      else Some (app, []));
  '(app, copied) ← UpdateObjectCBs app;
  '(app, pass) ← UpdateMainPassCB app;
  Some (app, waited ++ copied ++ pass).

(** *** Draw *)

(** [UINT cbvIndex = mCurrFrameResourceIndex * (UINT)mOpaqueRitems.size() + ri->ObjCBIndex;] *)
Definition cbvIndex_of (app : ShapesApp.t) (ri : RenderItem.t) : Z :=
  UINT (UINT (UINT (mCurrFrameResourceIndex app) * size_UINT (mOpaqueRitems app))
        + RenderItem.ObjCBIndex ri).

(** [DrawRenderItems]: every [ritems[i]] is dereferenced. *)
Fixpoint DrawRenderItems (app : ShapesApp.t) (ritems : list nat) : option (list Event) :=
  match ritems with
  | [] => Some []
  | p :: rest =>
      ri ← mAllRitems app !! p;
      log ← DrawRenderItems app rest;
      Some (EvSetObjectTable (cbvIndex_of app ri)
            :: EvDrawIndexedInstanced (RenderItem.IndexCount ri)
                 (RenderItem.StartIndexLocation ri) (RenderItem.BaseVertexLocation ri)
            :: log)
  end.

(** [Draw]: records and submits the command list of the current frame
    resource, presents, then stamps the frame resource with a new fence
    value and queues the signal for it.  Pipeline state, viewport and
    barriers have no part in the properties below. *)
Definition Draw (app : ShapesApp.t) : option (ShapesApp.t * list Event) :=
  frame ← mCurrFrameResource app;
  fr ← mFrameResources app !! frame;
  let passCbvIndex := passHeapIndex (mPassCbvOffset app) (mCurrFrameResourceIndex app) in
  drawn ← DrawRenderItems app (mOpaqueRitems app);
  (* Advance the fence value to mark commands up to this fence point. *)
  let app := set_mCurrentFence (UINT64 (mCurrentFence app + 1)) app in
  let app := set_mFrameResources
               (<[frame := FrameResource.set_Fence (mCurrentFence app) fr]>
                  (mFrameResources app)) app in
  (* Add an instruction to the command queue to set a new fence point. *)
  let app := set_gpu (Gpu.Signal (mCurrentFence app) (gpu app)) app in
  Some (app,
        EvSetPassTable passCbvIndex :: drawn
        ++ [EvExecuteCommandLists; EvPresent; EvSignal (mCurrentFence app)]).

(** One turn of the message loop of [D3DApp::Run]: [Update] then [Draw]. *)
Definition Frame (progress : nat) (app : ShapesApp.t) : option (ShapesApp.t * list Event) :=
  '(app, l1) ← Update progress app;
  '(app, l2) ← Draw app;
  Some (app, l1 ++ l2).

(** Successive frames; the result lists, frame by frame, the frame resource
    index in force during the frame and the events of the frame. *)
Fixpoint Run (inputs : list nat) (app : ShapesApp.t)
    : option (ShapesApp.t * list (Z * list Event)) :=
  match inputs with
  | [] => Some (app, [])
  | progress :: rest =>
      '(app, log) ← Frame progress app;
      let slot := mCurrFrameResourceIndex app in
      '(app', tail) ← Run rest app;
      Some (app', (slot, log) :: tail)
  end.

(** *** Initialize *)

(** Modelled from the spec: [D3DApp::FlushCommandQueue] belongs to
    [Common/d3dApp.cpp], which this development does not have.  "flush():
    signal a fresh fence value and block until reached." *)
Definition FlushCommandQueue (app : ShapesApp.t) : option ShapesApp.t :=
  let app := set_mCurrentFence (UINT64 (mCurrentFence app + 1)) app in
  let app := set_gpu (Gpu.Signal (mCurrentFence app) (gpu app)) app in
  if Gpu.completed (gpu app) <? mCurrentFence app then
    g ← Gpu.WaitForSingleObject (mCurrentFence app) (gpu app);
    Some (set_gpu g app)
  else Some app.

(** The application object when [D3DApp::Initialize] has returned:
    [mCurrentFence] has some value [fence0] and the queue is drained up to
    it; the members of [ShapesApp] have their in-class initialisers. *)
Definition Constructed (fence0 : Z) : ShapesApp.t :=
  ShapesApp.mk [] None 0 (DescriptorHeap.mk 0 ∅) ∅ [] [] 0 fence0 (Gpu.mk fence0 []).

(** What can stop [Initialize]: an exception of the device layer, or a
    dereferenced null pointer. *)
Inductive InitResult : Type :=
  | Initialized (app : ShapesApp.t)
  | InitException (hr : Z)
  | InitCrash.

Definition Initialize (dev : Device) (shapes : Shapes) (worlds : string -> XMFLOAT4X4)
    (fence0 : Z) : InitResult :=
  let app := Constructed fence0 in
  (* BuildShapeGeometry *)
  match BuildShapeGeometry dev shapes with
  | DxException hr => InitException hr
  | Ok geo =>
      let mGeometries := <[MeshGeometry.Name geo := geo]> (mGeometries app) in
      (* BuildRenderItems *)
      match BuildRenderItems worlds mGeometries with
      | None => InitCrash
      | Some (ritems, opaque) =>
          let app :=
            ShapesApp.mk
              (* BuildFrameResources *)
              (mFrameResources app ++ BuildFrameResources)
              (mCurrFrameResource app) (mCurrFrameResourceIndex app) (mCbvHeap app)
              mGeometries ritems opaque
              (mPassCbvOffset app) (mCurrentFence app) (gpu app) in
          let app := BuildDescriptorHeaps app in
          match BuildConstantBufferViews app with
          | None => InitCrash
          | Some app =>
              (* Wait until initialization is complete. *)
              match FlushCommandQueue app with
              | None => InitCrash
              | Some app => Initialized app
              end
          end
      end
  end.

(** ** The orbit camera

    The camera members of [ShapesApp]; [Update] and [Draw] only read them. *)
Module Camera.
Record t : Type := mk {
  mTheta : float;
  mPhi : float;
  mRadius : float;
  mLastMousePos : Z * Z      (* POINT: two LONGs *)
}.
End Camera.

Definition MK_LBUTTON : Z := 1.
Definition MK_RBUTTON : Z := 2.

(** [float mTheta = 1.5f*XM_PI; float mPhi = 0.2f*XM_PI; float mRadius = 15.0f;]
    [mLastMousePos] is not initialised; [lastPos] is what it happens to hold. *)
Definition Camera_init (lastPos : Z * Z) : Camera.t :=
  Camera.mk (fmul f1_5 XM_PI) (fmul f0_2 XM_PI) f15 lastPos.

Definition OnMouseDown (btnState x y : Z) (c : Camera.t) : Camera.t :=
  Camera.mk (Camera.mTheta c) (Camera.mPhi c) (Camera.mRadius c) (x, y).

Definition OnMouseUp (btnState x y : Z) (c : Camera.t) : Camera.t := c.

Definition OnMouseMove (btnState x y : Z) (c : Camera.t) : Camera.t :=
  let '(lastx, lasty) := Camera.mLastMousePos c in
  let c :=
    if negb (Z.land btnState MK_LBUTTON =? 0) then
      (* Make each pixel correspond to a quarter of a degree. *)
      let dx := XMConvertToRadians (fmul f0_25 (float_of_int (INT (x - lastx)))) in
      let dy := XMConvertToRadians (fmul f0_25 (float_of_int (INT (y - lasty)))) in
      (* Update angles based on input to orbit camera around box. *)
      let mTheta := fadd (Camera.mTheta c) dx in
      let mPhi := fadd (Camera.mPhi c) dy in
      (* Restrict the angle mPhi. *)
      let mPhi := MathHelper_Clamp mPhi f0_1 (fsub MathHelper_Pi f0_1) in
      Camera.mk mTheta mPhi (Camera.mRadius c) (Camera.mLastMousePos c)
    else if negb (Z.land btnState MK_RBUTTON =? 0) then
      (* Make each pixel correspond to 0.2 unit in the scene. *)
      let dx := fmul f0_05 (float_of_int (INT (x - lastx))) in
      let dy := fmul f0_05 (float_of_int (INT (y - lasty))) in
      (* Update the camera radius based on input. *)
      let mRadius := fadd (Camera.mRadius c) (fsub dx dy) in
      (* Restrict the radius. *)
      let mRadius := MathHelper_Clamp mRadius f5 f150 in
      Camera.mk (Camera.mTheta c) (Camera.mPhi c) mRadius (Camera.mLastMousePos c)
    else c in
  Camera.mk (Camera.mTheta c) (Camera.mPhi c) (Camera.mRadius c) (x, y).

Inductive PointerEvent : Type :=
  | PointerDown (btnState x y : Z)
  | PointerUp (btnState x y : Z)
  | PointerMove (btnState x y : Z).

Definition pointer (ev : PointerEvent) (c : Camera.t) : Camera.t :=
  match ev with
  | PointerDown b x y => OnMouseDown b x y c
  | PointerUp b x y => OnMouseUp b x y c
  | PointerMove b x y => OnMouseMove b x y c
  end.

(** The camera after each event of a sequence, in order. *)
Fixpoint pointer_trace (evs : list PointerEvent) (c : Camera.t) : list Camera.t :=
  match evs with
  | [] => []
  | ev :: rest => pointer ev c :: pointer_trace rest (pointer ev c)
  end.

(** ** Notions used by the statements *)

(** Projections of an event log. *)
Definition waits (log : list Event) : list Z :=
  omap (fun ev => match ev with EvWait v => Some v | _ => None end) log.

Definition signals (log : list Event) : list Z :=
  omap (fun ev => match ev with EvSignal v => Some v | _ => None end) log.

(** The per-object uniform writes of a log: frame resource, element, data. *)
Definition object_writes (log : list Event) : list (nat * Z * ObjectConstants) :=
  omap (fun ev => match ev with
                  | EvCopyObjectCB f i d => Some (f, i, d)
                  | _ => None
                  end) log.

(** The writes of a log that go to element [i] of an object buffer. *)
Definition object_writes_at (i : Z) (log : list Event) : list (nat * ObjectConstants) :=
  omap (fun ev => match ev with
                  | EvCopyObjectCB f j d => if i =? j then Some (f, d) else None
                  | _ => None
                  end) log.

(** The object descriptor tables a log binds, in order. *)
Definition object_tables (log : list Event) : list Z :=
  omap (fun ev => match ev with EvSetObjectTable i => Some i | _ => None end) log.

(** The fence test at the head of [Update], as a function of the stamp of
    the frame resource and of the GPU: the GPU afterwards and the wait made. *)
Definition wait_if_needed (fence : Z) (g : Gpu.t) : option (Gpu.t * list Event) :=
  if negb (fence =? 0) && (Gpu.completed g <? fence)
  then g' ← Gpu.WaitForSingleObject fence g; Some (g', [EvWait fence])
  else Some (g, []).

(** What one pass of [UpdateObjectCBs] does to a render item. *)
Definition tick (e : RenderItem.t) : RenderItem.t :=
  if 0 <? RenderItem.NumFramesDirty e
  then RenderItem.set_NumFramesDirty (INT (RenderItem.NumFramesDirty e - 1)) e
  else e.

Definition uniform_of (e : RenderItem.t) : ObjectConstants :=
  mkObjectConstants (XMMatrixTranspose (RenderItem.World e)).

(** The copy one dirty render item causes. *)
Definition copy_event (frame : nat) (e : RenderItem.t) : Event :=
  EvCopyObjectCB frame (RenderItem.ObjCBIndex e) (uniform_of e).

(** The item at position [j] is the only one keyed to its element. *)
Definition sole_owner (ritems : list RenderItem.t) (j : nat) (e : RenderItem.t) : Prop :=
  ritems !! j = Some e /\
  forall j' e', ritems !! j' = Some e' -> j' <> j ->
                RenderItem.ObjCBIndex e' <> RenderItem.ObjCBIndex e.

(** The application after [Update] has moved to frame resource [f] (whose
    record was [fr]) and the fence test has left the GPU at [g]. *)
Definition Update_state (app : ShapesApp.t) (f : nat) (fr : FrameResource.t) (g : Gpu.t)
    : ShapesApp.t :=
  ShapesApp.mk
    (<[f := FrameResource.set_ObjectCB
              (UpdateObjectCBs_loop f (mAllRitems app) (FrameResource.ObjectCB fr)).1.2 fr]>
       (mFrameResources app))
    (Some f) (Z.of_nat f) (mCbvHeap app) (mGeometries app)
    (map tick (mAllRitems app)) (mOpaqueRitems app)
    (mPassCbvOffset app) (mCurrentFence app) g.

(** The application after [Draw] has stamped frame resource [f] (whose
    record was [fr]). *)
Definition Draw_state (app : ShapesApp.t) (f : nat) (fr : FrameResource.t) : ShapesApp.t :=
  ShapesApp.mk
    (<[f := FrameResource.set_Fence (mCurrentFence app + 1) fr]> (mFrameResources app))
    (Some f) (mCurrFrameResourceIndex app) (mCbvHeap app) (mGeometries app)
    (mAllRitems app) (mOpaqueRitems app) (mPassCbvOffset app)
    (mCurrentFence app + 1) (Gpu.Signal (mCurrentFence app + 1) (gpu app)).

(** The frame resource [Update] moves to. *)
Definition next_slot (app : ShapesApp.t) : nat :=
  Z.to_nat ((mCurrFrameResourceIndex app + 1) mod gNumFrameResources).

(** The application after a whole frame. *)
Definition Frame_state (app : ShapesApp.t) (fr : FrameResource.t) (g : Gpu.t) : ShapesApp.t :=
  let f := next_slot app in
  Draw_state (Update_state app f fr g) f
    (FrameResource.set_ObjectCB
       (UpdateObjectCBs_loop f (mAllRitems app) (FrameResource.ObjectCB fr)).1.2 fr).

(** The fence values a run has stamped its frames with, in order. *)
Definition stamps (tr : list (Z * list Event)) : list Z :=
  concat (map (fun p => signals (snd p)) tr).

(** The slot after slot [f] in the ring. *)
Definition succ_slot (f : nat) : nat :=
  Z.to_nat ((Z.of_nat f + 1) mod gNumFrameResources).

(** A small scene to evaluate the definitions on: every mesh is one
    triangle, every world matrix the identity, the device never fails and
    [D3DApp::Initialize] has left the fence counter at 0. *)
Definition sample_mesh : GeometryGenerator.MeshData :=
  GeometryGenerator.mkMeshData
    (replicate 3 (GeometryGenerator.mkVertex (mkXMFLOAT3 f0 f0 f0))) [0; 1; 2].

Definition sample_shapes : Shapes :=
  mkShapes sample_mesh sample_mesh sample_mesh sample_mesh sample_mesh
           sample_mesh sample_mesh sample_mesh sample_mesh sample_mesh.

Definition sample_device : Device := mkDevice (fun _ => 0) (fun _ => 0).

(** A mesh of 65537 vertices whose last index names the last vertex, and a
    shape set with it as the box. *)
Definition big_mesh : GeometryGenerator.MeshData :=
  GeometryGenerator.mkMeshData
    (replicate (Z.to_nat 65537) (GeometryGenerator.mkVertex (mkXMFLOAT3 f0 f0 f0)))
    [0; 1; 65536].

Definition big_shapes : Shapes :=
  mkShapes big_mesh sample_mesh sample_mesh sample_mesh sample_mesh
           sample_mesh sample_mesh sample_mesh sample_mesh sample_mesh.

(** [vbByteSize] and [ibByteSize] of [BuildShapeGeometry]. *)
Definition vbByteSize_of (s : Shapes) : Z :=
  UINT (size_UINT (BuildVertices s) * sizeof_Vertex).
Definition ibByteSize_of (s : Shapes) : Z :=
  UINT (size_UINT (BuildIndices s) * sizeof_uint16_t).

(** The [HRESULT]s of the four buffer creations of [BuildShapeGeometry], in
    the order of the calls. *)
Definition device_answers (dev : Device) (s : Shapes) : list Z :=
  [D3DCreateBlob dev (vbByteSize_of s); D3DCreateBlob dev (ibByteSize_of s);
   CreateDefaultBuffer dev (vbByteSize_of s); CreateDefaultBuffer dev (ibByteSize_of s)].

Definition sample_worlds : string -> XMFLOAT4X4 := fun _ => Identity4x4.

Definition sample_app : ShapesApp.t :=
  match Initialize sample_device sample_shapes sample_worlds 0 with
  | Initialized app => app
  | _ => Constructed 0
  end.

(** The sample application after three frames during which the GPU makes
    no progress, the [Update] and the [Draw] of its fourth frame, its first
    render item and its geometry. *)
Definition sample_run : ShapesApp.t * list (Z * list Event) :=
  match Run [0; 0; 0]%nat sample_app with
  | Some r => r
  | None => (sample_app, [])
  end.

Definition sample_update : ShapesApp.t * list Event :=
  match Update 0 (fst sample_run) with
  | Some r => r
  | None => (sample_app, [])
  end.

Definition sample_draw : ShapesApp.t * list Event :=
  match Draw (fst sample_update) with
  | Some r => r
  | None => (sample_app, [])
  end.

Definition sample_item : RenderItem.t :=
  match mAllRitems sample_app !! 0%nat with
  | Some e => e
  | None => RenderItem.default
  end.

Definition sample_geo : MeshGeometry.t :=
  match BuildShapeGeometry sample_device sample_shapes with
  | Ok geo => geo
  | DxException _ =>
      MeshGeometry.mk "shapeGeo" [] [] sizeof_Vertex 0 DXGI_FORMAT_R16_UINT 0 ∅
  end.

(** The queue of a GPU when [F] is the last value signalled: the fence is
    at most [F] and the signals still queued are the values after it, in
    order. *)
Definition in_order (F : Z) (g : Gpu.t) : Prop :=
  0 <= Gpu.completed g <= F /\
  Gpu.pending g = seqZ (Gpu.completed g + 1) (F - Gpu.completed g).

(** The state of the application between frames.  It holds when
    [Initialize] returns and after every [Update] and [Draw]
    ([Inv_Initialize], [Inv_Update], [Inv_Draw]). *)
Record Inv (app : ShapesApp.t) : Prop := mkInv {
  (* the ring has its three frame resources and the index is inside it *)
  inv_ring : length (mFrameResources app) = Z.to_nat gNumFrameResources;
  inv_index : 0 <= mCurrFrameResourceIndex app < gNumFrameResources;
  (* the pointer to the current frame resource, once set, agrees with the index *)
  inv_curr : forall f, mCurrFrameResource app = Some f ->
                       f = Z.to_nat (mCurrFrameResourceIndex app);
  (* the fence counter has not wrapped *)
  inv_fence : mCurrentFence app < 2 ^ 64;
  (* the queue holds exactly the signals the GPU has not executed yet *)
  inv_gpu : in_order (mCurrentFence app) (gpu app);
  (* every frame resource is stamped with 0 or with a value already signalled *)
  inv_stamps : Forall (fun fr => 0 <= FrameResource.Fence fr <= mCurrentFence app)
                      (mFrameResources app);
  (* the pointers of mOpaqueRitems point into mAllRitems *)
  inv_opaque : Forall (fun p => (p < length (mAllRitems app))%nat) (mOpaqueRitems app)
}.

(** Sub-ranges [(start, count)] laid end to end from [lo] up to [hi]. *)
Fixpoint tiles (ranges : list (Z * Z)) (lo hi : Z) : Prop :=
  match ranges with
  | [] => lo = hi
  | (start, count) :: rest => start = lo /\ 0 <= count /\ tiles rest (lo + count) hi
  end.

Definition submesh_range (sm : SubmeshGeometry.t) : Z * Z :=
  (SubmeshGeometry.StartIndexLocation sm, SubmeshGeometry.IndexCount sm).

(** The meshes in the order [BuildShapeGeometry] packs them, with the name
    of their submesh and the colour of their vertices. *)
Definition shape_list (s : Shapes)
    : list (string * GeometryGenerator.MeshData * XMFLOAT4_Color) :=
  [ ("box", box s, Purple); ("grid", grid s, Gray); ("sphere", sphere s, LightBlue);
    ("cylinder", cylinder s, SteelBlue); ("pyramid", pyramid s, Yellow);
    ("wedge", wedge s, Crimson); ("cone", cone s, Pink);
    ("halfCone", halfCone s, LightGreen); ("prism", prism s, Orange);
    ("diamond", diamond s, Silver) ]%string.

Definition paint (color : XMFLOAT4_Color) (v : GeometryGenerator.Vertex) : Vertex :=
  mkVertex (GeometryGenerator.Position v) color.

Definition total_vertices (s : Shapes) : Z :=
  nverts (box s) + nverts (grid s) + nverts (sphere s) + nverts (cylinder s)
  + nverts (pyramid s) + nverts (wedge s) + nverts (cone s) + nverts (halfCone s)
  + nverts (prism s) + nverts (diamond s).

Definition total_indices (s : Shapes) : Z :=
  nidx (box s) + nidx (grid s) + nidx (sphere s) + nidx (cylinder s)
  + nidx (pyramid s) + nidx (wedge s) + nidx (cone s) + nidx (halfCone s)
  + nidx (prism s) + nidx (diamond s).

(** The submesh table written as a recursion over the packed meshes, with
    exact arithmetic: vertex offset [vo] and index offset [io] so far. *)
Fixpoint layout (vo io : Z)
    (l : list (string * GeometryGenerator.MeshData * XMFLOAT4_Color))
    : list (string * SubmeshGeometry.t) :=
  match l with
  | [] => []
  | (name, m, _) :: rest =>
      (name, SubmeshGeometry.mk (nidx m) io vo)
      :: layout (vo + nverts m) (io + nidx m) rest
  end.

Definition packed_vertices
    (l : list (string * GeometryGenerator.MeshData * XMFLOAT4_Color)) : list Vertex :=
  concat (map (fun p => map (paint (snd p)) (GeometryGenerator.Vertices (snd (fst p)))) l).

Definition packed_indices
    (l : list (string * GeometryGenerator.MeshData * XMFLOAT4_Color)) : list Z :=
  concat (map (fun p => GeometryGenerator.GetIndices16 (snd (fst p))) l).

(** What a submesh promises about the buffers: its index range holds the
    indices of its mesh, its vertices start at [BaseVertexLocation], and
    every index of the range, added to [BaseVertexLocation], names a vertex
    of the vertex buffer. *)
Definition submesh_ok (vertices : list Vertex) (indices : list Z)
    (p : string * GeometryGenerator.MeshData * XMFLOAT4_Color)
    (sub : string * SubmeshGeometry.t) : Prop :=
  let m := snd (fst p) in
  let sm := snd sub in
  fst sub = fst (fst p) /\
  take (Z.to_nat (SubmeshGeometry.IndexCount sm))
       (drop (Z.to_nat (SubmeshGeometry.StartIndexLocation sm)) indices)
    = GeometryGenerator.GetIndices16 m /\
  take (length (GeometryGenerator.Vertices m))
       (drop (Z.to_nat (SubmeshGeometry.BaseVertexLocation sm)) vertices)
    = map (paint (snd p)) (GeometryGenerator.Vertices m) /\
  Forall (fun i => 0 <= SubmeshGeometry.BaseVertexLocation sm + i
                   < Z.of_nat (length vertices))
         (GeometryGenerator.GetIndices16 m).

(** A mesh whose indices all name one of its own vertices. *)
Definition mesh_wf (m : GeometryGenerator.MeshData) : Prop :=
  Forall (fun i => 0 <= i < nverts m) (GeometryGenerator.Indices32 m).

(** The camera is inside its limits: elevation in [0.1, Pi - 0.1], radius
    in [5, 150], by the comparisons of binary32. *)
Definition camera_in_bounds (c : Camera.t) : bool :=
  fle f0_1 (Camera.mPhi c) && fle (Camera.mPhi c) (fsub MathHelper_Pi f0_1)
  && fle f5 (Camera.mRadius c) && fle (Camera.mRadius c) f150.

(** The elevation is strictly between the poles 0 and Pi. *)
Definition elevation_off_poles (c : Camera.t) : bool :=
  flt f0 (Camera.mPhi c) && flt (Camera.mPhi c) MathHelper_Pi.

(** A float that is a number (not NaN, not an infinity). *)
Definition is_finite (x : float) : bool :=
  match x with
  | S754_zero _ | S754_finite _ _ _ => true
  | _ => false
  end.

Definition is_nan (x : float) : bool :=
  match x with S754_nan => true | _ => false end.

(** The exponent binary32 gives a number of magnitude [e]. *)
Definition fexp32 (e : Z) : Z := Z.max (e - 24) (-149).

(** A float that is a number, with a mantissa of at most 24 bits and a
    magnitude below [2 ^ B]. *)
Definition fnumber (B : Z) (x : float) : Prop :=
  match x with
  | S754_zero _ => True
  | S754_finite _ m e => Z.pos (digits2_pos m) <= 24 /\ Z.pos (digits2_pos m) + e <= B
  | _ => False
  end.

(** The camera between two pointer events: inside its limits, with
    elevation and radius numbers of the expected magnitude. *)
Definition camera_inv (c : Camera.t) : Prop :=
  camera_in_bounds c = true /\
  fnumber 2 (Camera.mPhi c) /\ fnumber 8 (Camera.mRadius c).

(** ** Further notions *)

(** The view a filled heap of [objCount] objects holds at index [k]: the
    object views frame by frame, then the pass views. *)
Definition view_at (objCount k : Z) : CBV :=
  if k <? gNumFrameResources * objCount
  then ObjectCBV (k / objCount) (k mod objCount)
  else PassCBV (k - gNumFrameResources * objCount).

(** The two commands [DrawRenderItems] records for one render item. *)
Definition draw_events (app : ShapesApp.t) (ri : RenderItem.t) : list Event :=
  [ EvSetObjectTable (cbvIndex_of app ri);
    EvDrawIndexedInstanced (RenderItem.IndexCount ri) (RenderItem.StartIndexLocation ri)
      (RenderItem.BaseVertexLocation ri) ].

(** The draw calls of a log: index count, start index, base vertex. *)
Definition draw_calls (log : list Event) : list (Z * Z * Z) :=
  omap (fun ev => match ev with
                  | EvDrawIndexedInstanced c s b => Some (c, s, b)
                  | _ => None
                  end) log.

(** The pass descriptor tables a log binds. *)
Definition pass_tables (log : list Event) : list Z :=
  omap (fun ev => match ev with EvSetPassTable i => Some i | _ => None end) log.

(** A render item without its dirty counter: what [Update] and [Draw]
    leave alone. *)
Definition static_of (e : RenderItem.t) : RenderItem.t :=
  RenderItem.set_NumFramesDirty 0 e.
(** The sample application after its first frame. *)
Definition sample_frame : ShapesApp.t * list Event :=
  match Frame 0 sample_app with
  | Some r => r
  | None => (sample_app, [])
  end.

(** Frames submitted to the GPU and not yet completed by it. *)
Definition frames_in_flight (app : ShapesApp.t) : Z :=
  mCurrentFence app - Gpu.completed (gpu app).

(** The ring paces the CPU: the frame resource [k] steps ahead in the ring
    was stamped at most [3 - k] frames ago, unless the GPU is already that
    close. *)
Definition Paced (app : ShapesApp.t) : Prop :=
  forall k fr, 1 <= k <= 3 ->
    mFrameResources app
      !! Z.to_nat ((mCurrFrameResourceIndex app + k) mod gNumFrameResources) = Some fr ->
    mCurrentFence app - (3 - k) <= Z.max (FrameResource.Fence fr) (Gpu.completed (gpu app)).

(** The world matrices have reached the frame resources of the last [j]
    frames: every render item has [3 - j] frames left to be copied, and the
    frame resources used by the last [j] frames hold the uniform of every
    render item. *)
Definition Warm (j : Z) (app : ShapesApp.t) : Prop :=
  Forall (fun e => RenderItem.NumFramesDirty e = gNumFrameResources - j) (mAllRitems app) /\
  forall i fr e, 0 <= i < j ->
    mFrameResources app
      !! Z.to_nat ((mCurrFrameResourceIndex app - i) mod gNumFrameResources) = Some fr ->
    e ∈ mAllRitems app ->
    FrameResource.ObjectCB fr !! RenderItem.ObjCBIndex e = Some (uniform_of e).



(** ** Keyboard

    [GetAsyncKeyState(vKey)] answers a [SHORT]: the most significant bit is
    set while the key is down, the least significant bit when the key was
    pressed since the last call.  [keys] is the answer for each virtual key
    code; the code of the key ['1'] is its character code 49. *)
Definition VK_1 : Z := 49.

(** [OnKeyboardInput]: the new value of [mIsWireframe].  The [SHORT] is
    promoted to [int] before [& 0x8000]. *)
Definition OnKeyboardInput (keys : Z -> Z) : bool :=
  if negb (Z.land (keys VK_1) 0x8000 =? 0) then true else false.

(** The pipeline state [Draw] resets the command list with:
    [mPSOs["opaque_wireframe"]] or [mPSOs["opaque"]]. *)
Definition Draw_pso (mIsWireframe : bool) : string :=
  if mIsWireframe then "opaque_wireframe"%string else "opaque"%string.


(** After [L] frames, the frame resource used [k] frames ago carries the
    fence value of that frame, and a frame resource not used yet carries 0. *)
Definition Stamped (L : Z) (app : ShapesApp.t) : Prop :=
  forall k, 0 <= k < gNumFrameResources ->
    exists fr,
      mFrameResources app
        !! Z.to_nat ((mCurrFrameResourceIndex app - k) mod gNumFrameResources) = Some fr /\
      FrameResource.Fence fr = if k <? L then mCurrentFence app - k else 0.


(** A keyboard on which every key is held down. *)
Definition keys_down : Z -> Z := fun _ => - 2 ^ 15.

(** * Proofs *)

(** ** Machine integers *)

Lemma UINT_small x : 0 <= x < 2 ^ 32 -> UINT x = x.
Proof. intros H. unfold UINT. apply Z.mod_small. exact H. Qed.

Lemma INT_small x : - 2 ^ 31 <= x < 2 ^ 31 -> INT x = x.
Proof. intros H. unfold INT. rewrite Z.mod_small; lia. Qed.

Lemma UINT64_small x : 0 <= x < 2 ^ 64 -> UINT64 x = x.
Proof. intros H. unfold UINT64. apply Z.mod_small. exact H. Qed.

Lemma UINT_range x : 0 <= UINT x < 2 ^ 32.
Proof. unfold UINT. apply Z.mod_pos_bound. lia. Qed.

Lemma uint16_t_range x : 0 <= uint16_t x < 2 ^ 16.
Proof. unfold uint16_t. apply Z.mod_pos_bound. lia. Qed.

Lemma uint16_t_le x : 0 <= x -> uint16_t x <= x.
Proof. intros H. unfold uint16_t. apply Z.mod_le; lia. Qed.

Lemma size_UINT_small {A} (v : list A) :
  Z.of_nat (length v) < 2 ^ 32 -> size_UINT v = Z.of_nat (length v).
Proof. intros H. unfold size_UINT. apply UINT_small. lia. Qed.

(** ** The GPU timeline *)

Section GpuTimeline.
(** [F] is the last value signalled. *)
Variable F : Z.

Lemma step_cases g :
  in_order F g ->
  (Gpu.completed g = F /\ Gpu.step g = g) \/
  (Gpu.completed g < F /\
   Gpu.step g = Gpu.mk (Gpu.completed g + 1)
                       (seqZ (Gpu.completed g + 1 + 1) (F - (Gpu.completed g + 1)))).
Proof.
  destruct g as [c q]. unfold in_order, Gpu.step; cbn. intros [Hc ->].
  destruct (decide (c = F)) as [He|Hne].
  - left. split; [exact He|]. rewrite seqZ_nil by lia. reflexivity.
  - right. split; [lia|]. rewrite seqZ_cons by lia. do 2 f_equal; lia.
Qed.

Lemma step_in_order g : in_order F g -> in_order F (Gpu.step g).
Proof.
  intros Hg. destruct (step_cases g Hg) as [[_ ->]|[Hlt ->]]; [exact Hg|].
  destruct Hg as [Hc _]. unfold in_order; cbn. split; [lia | reflexivity].
Qed.

Lemma step_monotone g : in_order F g -> Gpu.completed g <= Gpu.completed (Gpu.step g).
Proof.
  intros Hg. destruct (step_cases g Hg) as [[_ ->]|[Hlt ->]]; cbn; lia.
Qed.

Lemma run_in_order n g : in_order F g -> in_order F (Gpu.run n g).
Proof.
  revert g. induction n as [|n IH]; intros g Hg; cbn; [exact Hg|].
  apply IH, step_in_order, Hg.
Qed.

Lemma run_monotone n g : in_order F g -> Gpu.completed g <= Gpu.completed (Gpu.run n g).
Proof.
  revert g. induction n as [|n IH]; intros g Hg; cbn; [lia|].
  pose proof (step_monotone g Hg). pose proof (IH _ (step_in_order g Hg)). lia.
Qed.

(** A wait for a value that was signalled returns, with the fence at or
    beyond that value and the queue still in order. *)
Lemma wait_from_returns target q : forall c,
  0 <= c <= F -> q = seqZ (c + 1) (F - c) -> target <= F ->
  exists g, Gpu.wait_from target c q = Some g /\ in_order F g /\
            target <= Gpu.completed g /\ c <= Gpu.completed g.
Proof.
  induction q as [|v q IH]; intros c Hc Hq Ht; cbn.
  - destruct (Z.leb_spec target c) as [Hle|Hgt].
    + eexists; split; [reflexivity|]. unfold in_order; cbn. repeat split; try lia. exact Hq.
    + exfalso. rewrite seqZ_cons in Hq by lia. discriminate.
  - destruct (Z.leb_spec target c) as [Hle|Hgt].
    + eexists; split; [reflexivity|]. unfold in_order; cbn. repeat split; try lia. exact Hq.
    + rewrite seqZ_cons in Hq by lia. injection Hq as -> ->.
      destruct (IH (c + 1)) as (g & Hw & Hg & H1 & H2); [lia| f_equal; lia | lia |].
      exists g. repeat split; try apply Hg; try lia. exact Hw.
Qed.

Lemma WaitForSingleObject_returns target g :
  in_order F g -> target <= F ->
  exists g', Gpu.WaitForSingleObject target g = Some g' /\ in_order F g' /\
             target <= Gpu.completed g' /\ Gpu.completed g <= Gpu.completed g'.
Proof.
  intros [Hc Hp] Ht. unfold Gpu.WaitForSingleObject.
  apply wait_from_returns; assumption.
Qed.
End GpuTimeline.

Lemma Signal_in_order F g : in_order F g -> in_order (F + 1) (Gpu.Signal (F + 1) g).
Proof.
  intros [Hc Hp]. unfold in_order, Gpu.Signal; cbn. split; [lia|].
  rewrite Hp. replace (F + 1 - Gpu.completed g) with ((F - Gpu.completed g) + 1) by lia.
  rewrite seqZ_app by lia. f_equal.
  rewrite seqZ_cons, seqZ_nil by lia. f_equal. lia.
Qed.

(** ** The loop of [UpdateObjectCBs] *)

Lemma UpdateObjectCBs_loop_cons frame e rest cb :
  UpdateObjectCBs_loop frame (e :: rest) cb =
  let dirty := 0 <? RenderItem.NumFramesDirty e in
  let r := UpdateObjectCBs_loop frame rest
             (if dirty then CopyData cb (RenderItem.ObjCBIndex e) (uniform_of e) else cb) in
  (tick e :: r.1.1, r.1.2, (if dirty then [copy_event frame e] else []) ++ r.2).
Proof.
  cbn. unfold tick, copy_event, uniform_of.
  destruct (0 <? RenderItem.NumFramesDirty e); cbn;
    destruct (UpdateObjectCBs_loop frame rest _) as [[? ?] ?]; reflexivity.
Qed.

Lemma UpdateObjectCBs_loop_items frame ritems cb :
  (UpdateObjectCBs_loop frame ritems cb).1.1 = map tick ritems.
Proof.
  revert cb. induction ritems as [|e rest IH]; intros cb; [reflexivity|].
  rewrite UpdateObjectCBs_loop_cons. cbn. now rewrite IH.
Qed.

Lemma UpdateObjectCBs_loop_log frame ritems cb :
  (UpdateObjectCBs_loop frame ritems cb).2 =
  map (copy_event frame)
      (List.filter (fun e => 0 <? RenderItem.NumFramesDirty e) ritems).
Proof.
  revert cb. induction ritems as [|e rest IH]; intros cb; [reflexivity|].
  rewrite UpdateObjectCBs_loop_cons. cbn.
  destruct (0 <? RenderItem.NumFramesDirty e); cbn; now rewrite IH.
Qed.

(** An element no dirty item is keyed to keeps its content. *)
Lemma UpdateObjectCBs_loop_untouched frame ritems : forall cb k,
  Forall (fun e => 0 < RenderItem.NumFramesDirty e -> RenderItem.ObjCBIndex e <> k) ritems ->
  (UpdateObjectCBs_loop frame ritems cb).1.2 !! k = cb !! k.
Proof.
  induction ritems as [|e rest IH]; intros cb k Hall; [reflexivity|].
  rewrite UpdateObjectCBs_loop_cons. cbn.
  apply Forall_cons in Hall as [He Hrest].
  rewrite IH by exact Hrest.
  destruct (Z.ltb_spec 0 (RenderItem.NumFramesDirty e)) as [Hd|Hd]; [|reflexivity].
  unfold CopyData. apply lookup_insert_ne. auto.
Qed.

(** Nothing dirty: nothing copied, nothing changed. *)
Lemma UpdateObjectCBs_loop_clean frame ritems cb :
  Forall (fun e => RenderItem.NumFramesDirty e <= 0) ritems ->
  UpdateObjectCBs_loop frame ritems cb = (ritems, cb, []).
Proof.
  revert cb. induction ritems as [|e rest IH]; intros cb Hall; [reflexivity|].
  apply Forall_cons in Hall as [He Hrest].
  rewrite UpdateObjectCBs_loop_cons. cbn.
  destruct (Z.ltb_spec 0 (RenderItem.NumFramesDirty e)) as [Hd|Hd]; [lia|].
  rewrite (IH cb Hrest). cbn. unfold tick.
  destruct (Z.ltb_spec 0 (RenderItem.NumFramesDirty e)); [lia|reflexivity].
Qed.

Lemma tick_ObjCBIndex e : RenderItem.ObjCBIndex (tick e) = RenderItem.ObjCBIndex e.
Proof. unfold tick. destruct (0 <? _); reflexivity. Qed.

Lemma tick_uniform e : uniform_of (tick e) = uniform_of e.
Proof. unfold tick. destruct (0 <? _); reflexivity. Qed.

Lemma tick_dirty e :
  0 < RenderItem.NumFramesDirty e < 2 ^ 31 ->
  RenderItem.NumFramesDirty (tick e) = RenderItem.NumFramesDirty e - 1.
Proof.
  intros H. unfold tick. destruct (Z.ltb_spec 0 (RenderItem.NumFramesDirty e)); [|lia].
  cbn. apply INT_small. lia.
Qed.

Lemma tick_clean e : RenderItem.NumFramesDirty e <= 0 -> tick e = e.
Proof.
  intros H. unfold tick. destruct (Z.ltb_spec 0 (RenderItem.NumFramesDirty e)); [lia|reflexivity].
Qed.

Lemma sole_owner_head e rest e' :
  sole_owner (e :: rest) 0 e' ->
  e' = e /\ Forall (fun x => RenderItem.ObjCBIndex x <> RenderItem.ObjCBIndex e) rest.
Proof.
  intros [Hj Hu]. cbn in Hj. injection Hj as <-. split; [reflexivity|].
  apply Forall_lookup. intros i x Hx. apply (Hu (S i) x); [exact Hx | lia].
Qed.

Lemma sole_owner_tail x rest j e :
  sole_owner (x :: rest) (S j) e ->
  sole_owner rest j e /\ RenderItem.ObjCBIndex x <> RenderItem.ObjCBIndex e.
Proof.
  intros [Hj Hu]. cbn in Hj. split; [split; [exact Hj|]|].
  - intros j' e' He' Hne. apply (Hu (S j') e'); [exact He' | lia].
  - apply (Hu 0%nat x); [reflexivity | lia].
Qed.

Lemma sole_owner_tick ritems j e :
  sole_owner ritems j e -> sole_owner (map tick ritems) j (tick e).
Proof.
  intros [Hj Hu]. split.
  - rewrite list_lookup_fmap, Hj. reflexivity.
  - intros j' e' He' Hne. rewrite list_lookup_fmap in He'.
    destruct (ritems !! j') as [x|] eqn:Hx; [|discriminate]. injection He' as <-.
    rewrite !tick_ObjCBIndex. eapply Hu; eauto.
Qed.

(** A dirty item that owns its element ends the loop with its uniform there. *)
Lemma UpdateObjectCBs_loop_written frame ritems : forall cb j e,
  sole_owner ritems j e -> 0 < RenderItem.NumFramesDirty e ->
  (UpdateObjectCBs_loop frame ritems cb).1.2 !! RenderItem.ObjCBIndex e = Some (uniform_of e).
Proof.
  induction ritems as [|x rest IH]; intros cb j e Hown Hd.
  - destruct Hown as [Hj _]. discriminate.
  - rewrite UpdateObjectCBs_loop_cons. cbn. destruct j as [|j].
    + apply sole_owner_head in Hown as [-> Hrest].
      rewrite UpdateObjectCBs_loop_untouched.
      * destruct (Z.ltb_spec 0 (RenderItem.NumFramesDirty x)); [|lia].
        unfold CopyData. apply lookup_insert_eq.
      * eapply Forall_impl; [exact Hrest|]. cbn. auto.
    + apply sole_owner_tail in Hown as [Hown _]. eapply IH; eauto.
Qed.

Lemma object_writes_at_app k l1 l2 :
  object_writes_at k (l1 ++ l2) = object_writes_at k l1 ++ object_writes_at k l2.
Proof. unfold object_writes_at. apply omap_app. Qed.

Lemma object_writes_at_copy k frame e :
  object_writes_at k [copy_event frame e]
  = if k =? RenderItem.ObjCBIndex e then [(frame, uniform_of e)] else [].
Proof. cbn. destruct (k =? RenderItem.ObjCBIndex e); reflexivity. Qed.

Lemma UpdateObjectCBs_loop_writes_elsewhere frame ritems : forall cb k,
  Forall (fun x => RenderItem.ObjCBIndex x <> k) ritems ->
  object_writes_at k (UpdateObjectCBs_loop frame ritems cb).2 = [].
Proof.
  induction ritems as [|x rest IH]; intros cb k Hall; [reflexivity|].
  apply Forall_cons in Hall as [Hx Hrest].
  rewrite UpdateObjectCBs_loop_cons. cbn -[object_writes_at copy_event].
  rewrite object_writes_at_app, (IH _ _ Hrest), app_nil_r.
  destruct (0 <? RenderItem.NumFramesDirty x); [|reflexivity].
  rewrite object_writes_at_copy.
  destruct (Z.eqb_spec k (RenderItem.ObjCBIndex x)); [congruence|reflexivity].
Qed.

(** The copies a loop makes to the element of an item that owns it: one
    if the item is dirty, none otherwise. *)
Lemma UpdateObjectCBs_loop_writes_at frame ritems : forall cb j e,
  sole_owner ritems j e ->
  object_writes_at (RenderItem.ObjCBIndex e) (UpdateObjectCBs_loop frame ritems cb).2
  = if 0 <? RenderItem.NumFramesDirty e then [(frame, uniform_of e)] else [].
Proof.
  induction ritems as [|x rest IH]; intros cb j e Hown.
  - destruct Hown as [Hj _]. discriminate.
  - rewrite UpdateObjectCBs_loop_cons. cbn -[object_writes_at copy_event].
    rewrite object_writes_at_app. destruct j as [|j].
    + apply sole_owner_head in Hown as [-> Hrest].
      rewrite (UpdateObjectCBs_loop_writes_elsewhere _ _ _ _ Hrest), app_nil_r.
      destruct (0 <? RenderItem.NumFramesDirty x); [|reflexivity].
      rewrite object_writes_at_copy, Z.eqb_refl. reflexivity.
    + apply sole_owner_tail in Hown as [Hown Hx].
      rewrite (IH _ _ _ Hown).
      destruct (0 <? RenderItem.NumFramesDirty x); [|reflexivity].
      rewrite object_writes_at_copy.
      destruct (Z.eqb_spec (RenderItem.ObjCBIndex e) (RenderItem.ObjCBIndex x));
        [congruence|reflexivity].
Qed.

(** ** [Update] and [Draw] as equations *)

Lemma Update_unfold n app :
  Update n app =
  let i' := Z.rem (INT (mCurrFrameResourceIndex app + 1)) gNumFrameResources in
  let f := Z.to_nat i' in
  if i' <? 0 then None else
  match mFrameResources app !! f with
  | None => None
  | Some fr =>
      match wait_if_needed (FrameResource.Fence fr) (Gpu.run n (gpu app)) with
      | None => None
      | Some (g', waited) =>
          let r := UpdateObjectCBs_loop f (mAllRitems app) (FrameResource.ObjectCB fr) in
          Some (ShapesApp.mk
                  (<[f := FrameResource.set_ObjectCB r.1.2 fr]> (mFrameResources app))
                  (Some f) i' (mCbvHeap app) (mGeometries app) r.1.1 (mOpaqueRitems app)
                  (mPassCbvOffset app) (mCurrentFence app) g',
                waited ++ r.2 ++ [EvCopyPassCB f])
      end
  end.
Proof.
  unfold Update, vector_at, wait_if_needed. cbn.
  destruct (Z.rem _ _ <? 0); [reflexivity|].
  destruct (mFrameResources app !! _) as [fr|] eqn:Hfr; [|reflexivity]. cbn.
  destruct (negb (FrameResource.Fence fr =? 0) && _); cbn.
  - destruct (Gpu.WaitForSingleObject _ _) as [g'|]; [|reflexivity]. cbn.
    unfold UpdateObjectCBs, UpdateMainPassCB. cbn. rewrite Hfr. cbn.
    destruct (UpdateObjectCBs_loop _ _ _) as [[ritems cb] log]. cbn.
    rewrite list_lookup_insert_eq by (eapply lookup_lt_Some; eauto). reflexivity.
  - unfold UpdateObjectCBs, UpdateMainPassCB. cbn. rewrite Hfr. cbn.
    destruct (UpdateObjectCBs_loop _ _ _) as [[ritems cb] log]. cbn.
    rewrite list_lookup_insert_eq by (eapply lookup_lt_Some; eauto). reflexivity.
Qed.

Lemma Draw_unfold app :
  Draw app =
  match mCurrFrameResource app with
  | None => None
  | Some f =>
      match mFrameResources app !! f with
      | None => None
      | Some fr =>
          match DrawRenderItems app (mOpaqueRitems app) with
          | None => None
          | Some drawn =>
              let F' := UINT64 (mCurrentFence app + 1) in
              Some (ShapesApp.mk
                      (<[f := FrameResource.set_Fence F' fr]> (mFrameResources app))
                      (Some f) (mCurrFrameResourceIndex app) (mCbvHeap app)
                      (mGeometries app) (mAllRitems app) (mOpaqueRitems app)
                      (mPassCbvOffset app) F' (Gpu.Signal F' (gpu app)),
                    EvSetPassTable
                      (passHeapIndex (mPassCbvOffset app) (mCurrFrameResourceIndex app))
                    :: drawn ++ [EvExecuteCommandLists; EvPresent; EvSignal F'])
          end
      end
  end.
Proof.
  unfold Draw. destruct (mCurrFrameResource app) as [f|] eqn:Hf; [|reflexivity]. cbn.
  destruct (mFrameResources app !! f) as [fr|]; [|reflexivity]. cbn.
  destruct (DrawRenderItems app (mOpaqueRitems app)) as [drawn|]; [|reflexivity]. cbn.
  unfold set_gpu, set_mFrameResources, set_mCurrentFence. cbn. rewrite Hf. reflexivity.
Qed.

Lemma wait_if_needed_spec F fence g :
  in_order F g -> 0 <= fence <= F ->
  exists g' waited,
    wait_if_needed fence g = Some (g', waited) /\
    in_order F g' /\ fence <= Gpu.completed g' /\ Gpu.completed g <= Gpu.completed g' /\
    ((waited = [EvWait fence] /\ fence <> 0 /\ Gpu.completed g < fence) \/
     (waited = [] /\ g' = g /\ (fence = 0 \/ fence <= Gpu.completed g))).
Proof.
  intros Hg Hf. unfold wait_if_needed.
  destruct (Z.eqb_spec fence 0) as [H0|H0]; cbn.
  - exists g, []. destruct Hg as [Hc Hp]. repeat split; try assumption; try lia. right. auto.
  - destruct (Z.ltb_spec (Gpu.completed g) fence) as [Hlt|Hge].
    + destruct (WaitForSingleObject_returns F fence g Hg) as (g' & -> & Hg' & H1 & H2); [lia|].
      cbn. exists g', [EvWait fence]. repeat split; try apply Hg'; try lia. left. auto.
    + exists g, []. repeat split; try apply Hg; try lia. right. auto.
Qed.

(** What [DrawRenderItems] records: one descriptor table and one draw call
    per pointer, nothing else. *)
Lemma DrawRenderItems_spec app ps :
  Forall (fun p => (p < length (mAllRitems app))%nat) ps ->
  exists drawn,
    DrawRenderItems app ps = Some drawn /\
    waits drawn = [] /\ signals drawn = [] /\ object_writes drawn = [] /\
    (forall k, object_writes_at k drawn = []) /\
    object_tables drawn
      = map (fun p => from_option (cbvIndex_of app) 0 (mAllRitems app !! p)) ps.
Proof.
  induction ps as [|p ps IH]; intros Hall.
  - exists []. repeat split; reflexivity.
  - apply Forall_cons in Hall as [Hp Hps].
    destruct (IH Hps) as (drawn & Hd & Hw & Hs & Ho & Hk & Ht).
    destruct (lookup_lt_is_Some_2 _ _ Hp) as [ri Hri].
    cbn. rewrite Hri. cbn. rewrite Hd. cbn. eexists. split; [reflexivity|].
    repeat split; try assumption.
    unfold object_tables in *. cbn. now rewrite Ht.
Qed.

(** ** One step at a time *)

Lemma next_index i :
  0 <= i < gNumFrameResources ->
  Z.rem (INT (i + 1)) gNumFrameResources = (i + 1) mod gNumFrameResources /\
  0 <= (i + 1) mod gNumFrameResources < gNumFrameResources.
Proof.
  unfold gNumFrameResources. intros H.
  assert (i = 0 \/ i = 1 \/ i = 2) as [-> | [-> | ->]] by lia; vm_compute; intuition discriminate.
Qed.

Lemma next_slot_lt app : Inv app -> (next_slot app < length (mFrameResources app))%nat.
Proof.
  intros H. rewrite (inv_ring _ H). unfold next_slot.
  destruct (next_index _ (inv_index _ H)) as [_ Hr]. lia.
Qed.

Lemma stamp_bounds app f fr :
  Inv app -> mFrameResources app !! f = Some fr ->
  0 <= FrameResource.Fence fr <= mCurrentFence app.
Proof.
  intros H Hfr. pose proof (inv_stamps _ H) as Hall.
  rewrite Forall_lookup in Hall. exact (Hall f fr Hfr).
Qed.

Lemma Inv_Update_state app fr g :
  Inv app -> mFrameResources app !! next_slot app = Some fr ->
  in_order (mCurrentFence app) g ->
  Inv (Update_state app (next_slot app) fr g).
Proof.
  intros H Hfr Hg. destruct (next_index _ (inv_index _ H)) as [_ Hr].
  constructor; cbn.
  - rewrite length_insert. apply (inv_ring _ H).
  - unfold next_slot. lia.
  - intros f [= <-]. now rewrite Nat2Z.id.
  - apply (inv_fence _ H).
  - exact Hg.
  - apply Forall_insert; [apply (inv_stamps _ H)|]. cbn.
    exact (stamp_bounds _ _ _ H Hfr).
  - rewrite length_map. apply (inv_opaque _ H).
Qed.

Lemma Inv_Draw_state app f fr :
  Inv app -> mCurrentFence app + 1 < 2 ^ 64 ->
  mCurrFrameResource app = Some f ->
  Inv (Draw_state app f fr).
Proof.
  intros H Hb Hf. constructor; cbn.
  - rewrite length_insert. apply (inv_ring _ H).
  - apply (inv_index _ H).
  - intros f' [= <-]. apply (inv_curr _ H), Hf.
  - exact Hb.
  - apply Signal_in_order, (inv_gpu _ H).
  - apply Forall_insert.
    + eapply Forall_impl; [apply (inv_stamps _ H)|]. cbn. intros; lia.
    + cbn. pose proof (inv_gpu _ H) as [Hc _]. lia.
  - apply (inv_opaque _ H).
Qed.

(** [Update] from a state between frames: it returns, the fence test
    behaves as [wait_if_needed] says, and the GPU has reached the stamp of
    the frame resource before anything is copied. *)
Lemma Update_spec n app :
  Inv app ->
  let f := next_slot app in
  exists fr g waited,
    mFrameResources app !! f = Some fr /\
    wait_if_needed (FrameResource.Fence fr) (Gpu.run n (gpu app)) = Some (g, waited) /\
    ((waited = [EvWait (FrameResource.Fence fr)] /\ FrameResource.Fence fr <> 0 /\
      Gpu.completed (Gpu.run n (gpu app)) < FrameResource.Fence fr) \/
     (waited = [] /\ g = Gpu.run n (gpu app) /\
      (FrameResource.Fence fr = 0 \/
       FrameResource.Fence fr <= Gpu.completed (Gpu.run n (gpu app))))) /\
    FrameResource.Fence fr <= Gpu.completed g /\
    in_order (mCurrentFence app) g /\
    Update n app =
      Some (Update_state app f fr g,
            waited
            ++ map (copy_event f)
                   (List.filter (fun e => 0 <? RenderItem.NumFramesDirty e) (mAllRitems app))
            ++ [EvCopyPassCB f]) /\
    Inv (Update_state app f fr g).
Proof.
  intros H f. destruct (next_index _ (inv_index _ H)) as [Hrem Hr].
  destruct (lookup_lt_is_Some_2 _ _ (next_slot_lt app H)) as [fr Hfr].
  pose proof (run_in_order _ n _ (inv_gpu _ H)) as Hrun.
  destruct (wait_if_needed_spec _ (FrameResource.Fence fr) _ Hrun (stamp_bounds _ _ _ H Hfr))
    as (g & waited & Hw & Hg & Hreach & _ & Hcase).
  exists fr, g, waited.
  split; [exact Hfr|]. split; [exact Hw|]. split; [|split; [exact Hreach|split; [exact Hg|split]]].
  - destruct Hcase as [(? & ? & ?)|(? & ? & ?)]; [left|right]; auto.
  - rewrite Update_unfold. cbn zeta. rewrite Hrem.
    destruct (Z.ltb_spec ((mCurrFrameResourceIndex app + 1) mod gNumFrameResources) 0); [lia|].
    fold (next_slot app). rewrite Hfr, Hw.
    rewrite UpdateObjectCBs_loop_items, UpdateObjectCBs_loop_log.
    subst f. unfold Update_state, next_slot. rewrite Z2Nat.id by lia. reflexivity.
  - apply Inv_Update_state; assumption.
Qed.

(** [Draw] from a state where [Update] has set the current frame resource. *)
Lemma Draw_spec app f :
  Inv app -> mCurrentFence app + 1 < 2 ^ 64 ->
  mCurrFrameResource app = Some f ->
  exists fr drawn,
    mFrameResources app !! f = Some fr /\
    DrawRenderItems app (mOpaqueRitems app) = Some drawn /\
    Draw app =
      Some (Draw_state app f fr,
            EvSetPassTable (passHeapIndex (mPassCbvOffset app) (mCurrFrameResourceIndex app))
            :: drawn
            ++ [EvExecuteCommandLists; EvPresent; EvSignal (mCurrentFence app + 1)]) /\
    Inv (Draw_state app f fr).
Proof.
  intros H Hb Hf.
  assert (Hlt : (f < length (mFrameResources app))%nat).
  { rewrite (inv_curr _ H f Hf), (inv_ring _ H). pose proof (inv_index _ H). lia. }
  destruct (lookup_lt_is_Some_2 _ _ Hlt) as [fr Hfr].
  destruct (DrawRenderItems_spec app _ (inv_opaque _ H)) as (drawn & Hd & _).
  exists fr, drawn.
  split; [exact Hfr|]. split; [exact Hd|]. split.
  - rewrite Draw_unfold, Hf, Hfr, Hd. cbn zeta.
    pose proof (inv_gpu _ H) as [Hc _].
    rewrite UINT64_small by lia. reflexivity.
  - apply Inv_Draw_state; assumption.
Qed.

(** A whole frame from a state between frames. *)
Lemma Frame_spec n app :
  Inv app -> mCurrentFence app + 1 < 2 ^ 64 ->
  let f := next_slot app in
  exists fr g waited drawn,
    mFrameResources app !! f = Some fr /\
    wait_if_needed (FrameResource.Fence fr) (Gpu.run n (gpu app)) = Some (g, waited) /\
    ((waited = [EvWait (FrameResource.Fence fr)] /\ FrameResource.Fence fr <> 0 /\
      Gpu.completed (Gpu.run n (gpu app)) < FrameResource.Fence fr) \/
     (waited = [] /\ g = Gpu.run n (gpu app) /\
      (FrameResource.Fence fr = 0 \/
       FrameResource.Fence fr <= Gpu.completed (Gpu.run n (gpu app))))) /\
    DrawRenderItems (Update_state app f fr g) (mOpaqueRitems app) = Some drawn /\
    Frame n app =
      Some (Frame_state app fr g,
            (waited
             ++ map (copy_event f)
                    (List.filter (fun e => 0 <? RenderItem.NumFramesDirty e) (mAllRitems app))
             ++ [EvCopyPassCB f])
            ++ EvSetPassTable (passHeapIndex (mPassCbvOffset app) (Z.of_nat f))
               :: drawn
               ++ [EvExecuteCommandLists; EvPresent; EvSignal (mCurrentFence app + 1)]) /\
    Inv (Frame_state app fr g).
Proof.
  intros H Hb f.
  destruct (Update_spec n app H) as (fr & g & waited & Hfr & Hw & Hcase & _ & _ & HU & HI).
  fold f in Hfr, HU, HI.
  destruct (Draw_spec (Update_state app f fr g) f HI Hb eq_refl)
    as (fr' & drawn & Hfr' & Hd & HD & HI').
  cbn in Hfr'. rewrite list_lookup_insert_eq in Hfr' by (apply next_slot_lt, H).
  injection Hfr' as <-.
  exists fr, g, waited, drawn.
  split; [exact Hfr|]. split; [exact Hw|]. split; [exact Hcase|]. split; [exact Hd|].
  split; [|exact HI'].
  unfold Frame. rewrite HU. cbn [mbind option_bind]. rewrite HD. reflexivity.
Qed.

Lemma Frame_state_ring app fr g :
  mFrameResources (Frame_state app fr g) =
  <[next_slot app :=
      FrameResource.mk
        (UpdateObjectCBs_loop (next_slot app) (mAllRitems app) (FrameResource.ObjectCB fr)).1.2
        (mCurrentFence app + 1)]> (mFrameResources app).
Proof. cbn. apply list_insert_insert_eq. Qed.

Lemma wait_if_needed_waits fence g g' waited :
  wait_if_needed fence g = Some (g', waited) ->
  waits waited = (if negb (fence =? 0) && (Gpu.completed g <? fence) then [fence] else []) /\
  signals waited = [] /\ object_writes waited = [] /\
  (forall k, object_writes_at k waited = []) /\ object_tables waited = [].
Proof.
  unfold wait_if_needed. destruct (negb (fence =? 0) && _).
  - destruct (Gpu.WaitForSingleObject fence g); [|discriminate].
    cbn. intros [= _ <-]. repeat split; reflexivity.
  - intros [= _ <-]. repeat split; reflexivity.
Qed.

Lemma copies_projections f (ritems : list RenderItem.t) :
  waits (map (copy_event f) ritems) = [] /\
  signals (map (copy_event f) ritems) = [] /\
  object_tables (map (copy_event f) ritems) = [] /\
  object_writes (map (copy_event f) ritems)
  = map (fun e => (f, RenderItem.ObjCBIndex e, uniform_of e)) ritems.
Proof.
  induction ritems as [|e rest (IH1 & IH2 & IH3 & IH4)]; [repeat split; reflexivity|].
  cbn. repeat split; try assumption. unfold object_writes in *. cbn. now rewrite IH4.
Qed.

(** A whole frame, by what it leaves in the log. *)
Lemma Frame_facts n app :
  Inv app -> mCurrentFence app + 1 < 2 ^ 64 ->
  let f := next_slot app in
  exists fr g log,
    mFrameResources app !! f = Some fr /\
    Frame n app = Some (Frame_state app fr g, log) /\
    Inv (Frame_state app fr g) /\
    FrameResource.Fence fr <= Gpu.completed g /\
    signals log = [mCurrentFence app + 1] /\
    waits log =
      (if negb (FrameResource.Fence fr =? 0)
          && (Gpu.completed (Gpu.run n (gpu app)) <? FrameResource.Fence fr)
       then [FrameResource.Fence fr] else []) /\
    object_writes log =
      map (fun e => (f, RenderItem.ObjCBIndex e, uniform_of e))
          (List.filter (fun e => 0 <? RenderItem.NumFramesDirty e) (mAllRitems app)) /\
    (forall k, object_writes_at k log =
               object_writes_at k
                 (UpdateObjectCBs_loop f (mAllRitems app) (FrameResource.ObjectCB fr)).2).
Proof.
  intros H Hb f.
  destruct (Frame_spec n app H Hb) as (fr & g & waited & drawn & Hfr & Hw & Hcase & Hd & HF & HI).
  fold f in Hfr, Hd, HF.
  destruct (wait_if_needed_waits _ _ _ _ Hw) as (W1 & W2 & W3 & W4 & _).
  destruct (wait_if_needed_spec _ _ _ (run_in_order _ n _ (inv_gpu _ H))
              (stamp_bounds _ _ _ H Hfr)) as (g0 & w0 & Hw0 & _ & Hreach & _).
  rewrite Hw in Hw0. injection Hw0 as <- <-.
  assert (HIu : Inv (Update_state app f fr g)).
  { destruct (Update_spec n app H) as (fr1 & g1 & w1 & Hfr1 & Hw1 & _ & _ & _ & _ & HI1).
    fold f in Hfr1. rewrite Hfr in Hfr1. injection Hfr1 as <-.
    rewrite Hw in Hw1. injection Hw1 as <- <-. exact HI1. }
  destruct (DrawRenderItems_spec _ _ (inv_opaque _ HIu)) as (drawn' & Hd' & D1 & D2 & D3 & D4 & _).
  cbn [mOpaqueRitems Update_state] in Hd'. rewrite Hd in Hd'. injection Hd' as <-.
  destruct (copies_projections f
              (List.filter (fun e => 0 <? RenderItem.NumFramesDirty e) (mAllRitems app)))
    as (C1 & C2 & _ & C4).
  eexists fr, g, _. split; [exact Hfr|]. split; [exact HF|]. split; [exact HI|].
  split; [exact Hreach|].
  repeat split.
  - unfold signals in *. rewrite !omap_app, W2, C2. cbn. rewrite omap_app, D2. reflexivity.
  - unfold waits in *. rewrite !omap_app, W1, C1. cbn. rewrite omap_app, D1, !app_nil_r.
    reflexivity.
  - unfold object_writes in *. rewrite !omap_app, W3, C4. cbn. rewrite omap_app, D3, !app_nil_r.
    reflexivity.
  - intros k. rewrite UpdateObjectCBs_loop_log.
    rewrite !object_writes_at_app, W4. cbn -[object_writes_at].
    change (EvSetPassTable ?a :: ?l) with ([EvSetPassTable a] ++ l).
    rewrite !object_writes_at_app, D4. cbn. now rewrite !app_nil_r.
Qed.

(** ** [Initialize] *)

Lemma BuildConstantBufferViews_frame app app' :
  BuildConstantBufferViews app = Some app' -> app' = set_mCbvHeap (mCbvHeap app') app.
Proof.
  unfold BuildConstantBufferViews.
  destruct (fold_left _ _ (Some (mCbvHeap app))) as [h1|]; [|discriminate]. cbn.
  destruct (fold_left _ _ (Some h1)) as [h2|]; [|discriminate]. cbn.
  intros [= <-]. reflexivity.
Qed.

Lemma FlushCommandQueue_drained app :
  gpu app = Gpu.mk (mCurrentFence app) [] ->
  0 <= mCurrentFence app -> mCurrentFence app + 1 < 2 ^ 64 ->
  FlushCommandQueue app =
  Some (set_gpu (Gpu.mk (mCurrentFence app + 1) [])
          (set_mCurrentFence (mCurrentFence app + 1) app)).
Proof.
  intros Hg H0 Hb. unfold FlushCommandQueue. cbn. rewrite UINT64_small by lia.
  rewrite Hg. cbn.
  destruct (Z.ltb_spec (mCurrentFence app) (mCurrentFence app + 1)); [|lia].
  unfold Gpu.WaitForSingleObject. cbn.
  destruct (Z.leb_spec (mCurrentFence app + 1) (mCurrentFence app)); [lia|].
  rewrite Z.leb_refl. reflexivity.
Qed.

(** What [Initialize] leaves behind when it returns. *)
Lemma Initialize_inv dev shapes worlds fence0 app :
  0 <= fence0 -> fence0 + 1 < 2 ^ 64 ->
  Initialize dev shapes worlds fence0 = Initialized app ->
  exists geo,
    BuildShapeGeometry dev shapes = Ok geo /\
    BuildRenderItems worlds {[ MeshGeometry.Name geo := geo ]}
      = Some (mAllRitems app, mOpaqueRitems app) /\
    mFrameResources app = replicate 3 FrameResource.fresh /\
    mCurrFrameResource app = None /\
    mCurrFrameResourceIndex app = 0 /\
    mCurrentFence app = fence0 + 1 /\
    gpu app = Gpu.mk (fence0 + 1) [] /\
    mPassCbvOffset app = UINT (size_UINT (mOpaqueRitems app) * UINT gNumFrameResources).
Proof.
  intros H0 Hb. unfold Initialize.
  destruct (BuildShapeGeometry dev shapes) as [geo|hr]; [|discriminate].
  destruct (BuildRenderItems _ _) as [[ritems opaque]|] eqn:HR; [|discriminate].
  destruct (BuildConstantBufferViews _) as [app1|] eqn:HC; [|discriminate].
  apply BuildConstantBufferViews_frame in HC.
  rewrite FlushCommandQueue_drained.
  - intros [= <-]. exists geo. rewrite HC. cbn. cbn in HR. rewrite insert_empty in HR.
    repeat split; try reflexivity. exact HR.
  - rewrite HC. reflexivity.
  - rewrite HC. cbn. lia.
  - rewrite HC. cbn. lia.
Qed.

Lemma BuildRenderItems_opaque worlds geos ritems opaque :
  BuildRenderItems worlds geos = Some (ritems, opaque) ->
  opaque = seq 0 (length ritems).
Proof.
  unfold BuildRenderItems. destruct (geos !! _) as [geo|]; [|discriminate].
  cbn [mbind option_bind].
  destruct (fold_left (PushRitem worlds geo) scene _) as [items ?].
  intros [= <- <-]. reflexivity.
Qed.

Lemma Inv_Initialize dev shapes worlds fence0 app :
  0 <= fence0 -> fence0 + 1 < 2 ^ 64 ->
  Initialize dev shapes worlds fence0 = Initialized app ->
  Inv app.
Proof.
  intros H0 Hb Hinit.
  destruct (Initialize_inv _ _ _ _ _ H0 Hb Hinit)
    as (geo & _ & HR & Hring & Hcur & Hidx & HF & Hg & _).
  constructor.
  - rewrite Hring. reflexivity.
  - rewrite Hidx. unfold gNumFrameResources. lia.
  - rewrite Hcur. discriminate.
  - lia.
  - rewrite Hg, HF. unfold in_order. cbn. split; [lia|].
    rewrite Z.sub_diag. reflexivity.
  - rewrite Hring, HF. cbn. repeat constructor; cbn; lia.
  - rewrite (BuildRenderItems_opaque _ _ _ _ HR). apply Forall_forall.
    intros p Hp. apply elem_of_seq in Hp. lia.
Qed.

(** ** Several frames *)

Lemma Frame_state_index app fr g :
  Inv app ->
  mCurrFrameResourceIndex (Frame_state app fr g)
  = (mCurrFrameResourceIndex app + 1) mod gNumFrameResources.
Proof.
  intros H. cbn. unfold next_slot.
  destruct (next_index _ (inv_index _ H)) as [_ Hr]. apply Z2Nat.id. lia.
Qed.

Lemma Run_spec inputs : forall app,
  Inv app -> mCurrentFence app + Z.of_nat (length inputs) < 2 ^ 64 ->
  exists app' tr,
    Run inputs app = Some (app', tr) /\ Inv app' /\
    mCurrentFence app' = mCurrentFence app + Z.of_nat (length inputs) /\
    map fst tr = map (fun k => (mCurrFrameResourceIndex app + k) mod gNumFrameResources)
                     (seqZ 1 (Z.of_nat (length inputs))) /\
    stamps tr = seqZ (mCurrentFence app + 1) (Z.of_nat (length inputs)).
Proof.
  induction inputs as [|n rest IH]; intros app H Hb.
  - exists app, []. split; [reflexivity|]. split; [exact H|]. split; [cbn; lia|]. split; reflexivity.
  - cbn [length] in Hb. rewrite Nat2Z.inj_succ in Hb.
    destruct (Frame_facts n app H) as (fr & g & log & Hfr & HF & HI & _ & Hsig & _); [lia|].
    destruct (IH (Frame_state app fr g) HI) as (app' & tr & HR & HI' & HF' & Hslots & Hst).
    { cbn. lia. }
    exists app', ((mCurrFrameResourceIndex (Frame_state app fr g), log) :: tr).
    split; [|split; [exact HI'|split; [|split]]].
    + cbn [Run]. rewrite HF. cbn [mbind option_bind]. rewrite HR. reflexivity.
    + rewrite HF'. cbn. lia.
    + cbn [length map fst]. rewrite Nat2Z.inj_succ, seqZ_cons by lia.
      cbn [map]. rewrite Frame_state_index by exact H. f_equal.
      rewrite Hslots, Frame_state_index by exact H.
      replace (Z.pred (Z.succ (Z.of_nat (length rest)))) with (Z.of_nat (length rest)) by lia.
      change (Z.succ 1) with (1 + 1). rewrite <- (fmap_add_seqZ 1 1).
      change (map ?f (?g <$> ?l)) with (map f (map g l)). rewrite map_map.
      apply map_ext. intros k. rewrite Zplus_mod_idemp_l. f_equal. lia.
    + unfold stamps in *. cbn [map concat snd length]. rewrite Hsig, Hst.
      rewrite Nat2Z.inj_succ, (seqZ_cons _ (Z.succ _)) by lia. cbn.
      do 2 f_equal; lia.
Qed.

(** A frame seen from one render item that owns its element. *)
Lemma Frame_owner n app j e :
  Inv app -> mCurrentFence app + 1 < 2 ^ 64 ->
  sole_owner (mAllRitems app) j e ->
  exists app' log,
    Frame n app = Some (app', log) /\ Inv app' /\
    mCurrentFence app' = mCurrentFence app + 1 /\
    mCurrFrameResourceIndex app' = Z.of_nat (next_slot app) /\
    sole_owner (mAllRitems app') j (tick e) /\
    object_writes_at (RenderItem.ObjCBIndex e) log
      = (if 0 <? RenderItem.NumFramesDirty e then [(next_slot app, uniform_of e)] else []) /\
    (0 < RenderItem.NumFramesDirty e ->
     exists fr', mFrameResources app' !! next_slot app = Some fr' /\
                 FrameResource.ObjectCB fr' !! RenderItem.ObjCBIndex e = Some (uniform_of e)) /\
    (forall f, f <> next_slot app -> mFrameResources app' !! f = mFrameResources app !! f).
Proof.
  intros H Hb Hown.
  destruct (Frame_facts n app H Hb) as (fr & g & log & Hfr & HF & HI & _ & _ & _ & _ & Hat).
  exists (Frame_state app fr g), log.
  split; [exact HF|]. split; [exact HI|]. split; [reflexivity|]. split; [reflexivity|].
  split; [apply sole_owner_tick, Hown|]. split; [|split].
  - rewrite Hat. eapply UpdateObjectCBs_loop_writes_at, Hown.
  - intros Hd. rewrite Frame_state_ring. eexists. split.
    + apply list_lookup_insert_eq, next_slot_lt, H.
    + cbn. eapply UpdateObjectCBs_loop_written; eauto.
  - intros f Hne. rewrite Frame_state_ring. apply list_lookup_insert_ne. auto.
Qed.

Lemma sample_app_Initialized :
  Initialize sample_device sample_shapes sample_worlds 0 = Initialized sample_app.
Proof. vm_compute. reflexivity. Qed.

Lemma sample_app_Inv : Inv sample_app.
Proof.
  apply (Inv_Initialize sample_device sample_shapes sample_worlds 0); [lia | lia |].
  exact sample_app_Initialized.
Qed.

Lemma next_slot_succ app app' :
  mCurrFrameResourceIndex app' = Z.of_nat (next_slot app) ->
  next_slot app' = succ_slot (next_slot app).
Proof. intros E. unfold next_slot at 1, succ_slot. now rewrite E. Qed.

Lemma slots_cycle app :
  Inv app ->
  let s1 := next_slot app in
  let s2 := succ_slot s1 in
  let s3 := succ_slot s2 in
  s1 <> s2 /\ s2 <> s3 /\ s1 <> s3 /\ succ_slot s3 = s1 /\
  forall f, (f < 3)%nat -> f = s1 \/ f = s2 \/ f = s3.
Proof.
  intros H. pose proof (inv_index _ H) as Hi. unfold next_slot, gNumFrameResources in *.
  assert (mCurrFrameResourceIndex app = 0 \/ mCurrFrameResourceIndex app = 1
          \/ mCurrFrameResourceIndex app = 2) as [-> | [-> | ->]] by lia;
    vm_compute; repeat split; try lia; intros f Hf; apply Nat.leb_le in Hf; lia.
Qed.

(** ** Dirty propagation *)

Lemma NoDup3 {A} (a b c : A) : a <> b -> b <> c -> a <> c -> NoDup [a; b; c].
Proof.
  intros Hab Hbc Hac. repeat apply NoDup_cons_2; try apply NoDup_nil_2;
    rewrite ?elem_of_cons, ?elem_of_nil; tauto.
Qed.

Lemma NoDup_sole_owner ritems j e :
  NoDup (map RenderItem.ObjCBIndex ritems) -> ritems !! j = Some e -> sole_owner ritems j e.
Proof.
  intros Hnd Hj. split; [exact Hj|]. intros j' e' Hj' Hne Heq. apply Hne.
  eapply NoDup_lookup; [exact Hnd| |].
  - change (map ?f ?l) with (f <$> l). rewrite list_lookup_fmap, Hj'. cbn. now rewrite Heq.
  - change (map ?f ?l) with (f <$> l). rewrite list_lookup_fmap, Hj. reflexivity.
Qed.

Lemma tick_thrice e :
  0 <= RenderItem.NumFramesDirty e <= gNumFrameResources ->
  RenderItem.NumFramesDirty (tick (tick (tick e))) = 0.
Proof.
  unfold gNumFrameResources. intros H.
  assert (RenderItem.NumFramesDirty e = 0 \/ RenderItem.NumFramesDirty e = 1 \/
          RenderItem.NumFramesDirty e = 2 \/ RenderItem.NumFramesDirty e = 3)
    as [E | [E | [E | E]]] by lia.
  - rewrite !(tick_clean e) by lia. exact E.
  - assert (E1 : RenderItem.NumFramesDirty (tick e) = 0) by (rewrite tick_dirty; lia).
    rewrite !(tick_clean (tick e)) by lia. exact E1.
  - assert (E1 : RenderItem.NumFramesDirty (tick e) = 1) by (rewrite tick_dirty; lia).
    assert (E2 : RenderItem.NumFramesDirty (tick (tick e)) = 0) by (rewrite tick_dirty; lia).
    rewrite !(tick_clean (tick (tick e))) by lia. exact E2.
  - assert (E1 : RenderItem.NumFramesDirty (tick e) = 2) by (rewrite tick_dirty; lia).
    assert (E2 : RenderItem.NumFramesDirty (tick (tick e)) = 1) by (rewrite tick_dirty; lia).
    rewrite tick_dirty; lia.
Qed.

(** A frame seen from all the render items at once. *)
Lemma Frame_all n app :
  Inv app -> mCurrentFence app + 1 < 2 ^ 64 ->
  exists app' log,
    Frame n app = Some (app', log) /\ Inv app' /\
    mCurrentFence app' = mCurrentFence app + 1 /\
    mCurrFrameResourceIndex app' = Z.of_nat (next_slot app) /\
    mAllRitems app' = map tick (mAllRitems app) /\
    object_writes log =
      map (fun e => (next_slot app, RenderItem.ObjCBIndex e, uniform_of e))
          (List.filter (fun e => 0 <? RenderItem.NumFramesDirty e) (mAllRitems app)) /\
    (Forall (fun e => RenderItem.NumFramesDirty e <= 0) (mAllRitems app) ->
     map FrameResource.ObjectCB (mFrameResources app')
     = map FrameResource.ObjectCB (mFrameResources app)).
Proof.
  intros H Hb.
  destruct (Frame_facts n app H Hb) as (fr & g & log & Hfr & HF & HI & _ & _ & _ & Hw & _).
  exists (Frame_state app fr g), log.
  split; [exact HF|]. split; [exact HI|]. split; [reflexivity|]. split; [reflexivity|].
  split; [reflexivity|]. split; [exact Hw|].
  intros Hclean. rewrite Frame_state_ring, UpdateObjectCBs_loop_clean by exact Hclean.
  change (map ?f ?l) with (f <$> l). rewrite list_fmap_insert. cbn.
  apply list_insert_id. rewrite list_lookup_fmap, Hfr. reflexivity.
Qed.

(** C3.  A render item whose world matrix has just been set, with
    [NumFramesDirty = gNumFrameResources], and which alone owns its element
    of the object buffers: each of the next three updates copies the
    transposed world matrix, once, into the object buffer of the frame
    resource then current, and takes one off [NumFramesDirty]; the three
    frame resources visited are all different; after the third update every
    frame resource holds the transposed matrix in the item's element and
    [NumFramesDirty] is 0; a fourth update copies nothing for the item. *)
Theorem dirty_propagation (app : ShapesApp.t) (j : nat) (e : RenderItem.t)
    (n1 n2 n3 n4 : nat) :
  Inv app ->
  mCurrentFence app + 4 < 2 ^ 64 ->
  sole_owner (mAllRitems app) j e ->
  RenderItem.NumFramesDirty e = gNumFrameResources ->
  let u := mkObjectConstants (XMMatrixTranspose (RenderItem.World e)) in
  let dirty a := RenderItem.NumFramesDirty <$> (mAllRitems a !! j) in
  let slot a := Z.to_nat (mCurrFrameResourceIndex a) in
  exists a1 l1 a2 l2 a3 l3 a4 l4,
    Frame n1 app = Some (a1, l1) /\ Frame n2 a1 = Some (a2, l2) /\
    Frame n3 a2 = Some (a3, l3) /\ Frame n4 a3 = Some (a4, l4) /\
    object_writes_at (RenderItem.ObjCBIndex e) l1 = [(slot a1, u)] /\
    object_writes_at (RenderItem.ObjCBIndex e) l2 = [(slot a2, u)] /\
    object_writes_at (RenderItem.ObjCBIndex e) l3 = [(slot a3, u)] /\
    object_writes_at (RenderItem.ObjCBIndex e) l4 = [] /\
    NoDup [slot a1; slot a2; slot a3] /\
    dirty a1 = Some 2 /\ dirty a2 = Some 1 /\ dirty a3 = Some 0 /\ dirty a4 = Some 0 /\
    (RenderItem.World <$> (mAllRitems a3 !! j)) = Some (RenderItem.World e) /\
    forall f fr, mFrameResources a3 !! f = Some fr ->
                 FrameResource.ObjectCB fr !! RenderItem.ObjCBIndex e = Some u.
Proof.
  intros H Hb Hown Hd u dirty slot. unfold gNumFrameResources in Hd.
  fold (uniform_of e) in u.
  assert (Ht1 : RenderItem.NumFramesDirty (tick e) = 2) by (rewrite tick_dirty; lia).
  assert (Ht2 : RenderItem.NumFramesDirty (tick (tick e)) = 1) by (rewrite tick_dirty; lia).
  assert (Ht3 : RenderItem.NumFramesDirty (tick (tick (tick e))) = 0)
    by (rewrite tick_dirty; lia).
  assert (Ht4 : tick (tick (tick (tick e))) = tick (tick (tick e)))
    by (apply tick_clean; lia).
  destruct (Frame_owner n1 app j e H ltac:(lia) Hown)
    as (a1 & l1 & F1 & I1 & C1 & X1 & O1 & W1 & B1 & R1).
  destruct (Frame_owner n2 a1 j _ I1 ltac:(lia) O1)
    as (a2 & l2 & F2 & I2 & C2 & X2 & O2 & W2 & B2 & R2).
  destruct (Frame_owner n3 a2 j _ I2 ltac:(lia) O2)
    as (a3 & l3 & F3 & I3 & C3 & X3 & O3 & W3 & B3 & R3).
  destruct (Frame_owner n4 a3 j _ I3 ltac:(lia) O3)
    as (a4 & l4 & F4 & I4 & C4 & X4 & O4 & W4 & B4 & R4).
  rewrite !tick_ObjCBIndex in *. rewrite !tick_uniform in *.
  rewrite Hd in W1, B1. rewrite Ht1 in W2, B2. rewrite Ht2 in W3, B3. rewrite Ht3 in W4.
  cbn in W1, W2, W3, W4.
  destruct (slots_cycle app H) as (N12 & N23 & N13 & _ & Hall).
  rewrite <- (next_slot_succ _ _ X1) in *. rewrite <- (next_slot_succ _ _ X2) in *.
  assert (S1 : slot a1 = next_slot app) by (unfold slot; rewrite X1; apply Nat2Z.id).
  assert (S2 : slot a2 = next_slot a1) by (unfold slot; rewrite X2; apply Nat2Z.id).
  assert (S3 : slot a3 = next_slot a2) by (unfold slot; rewrite X3; apply Nat2Z.id).
  exists a1, l1, a2, l2, a3, l3, a4, l4.
  rewrite S1, S2, S3.
  split; [exact F1|]. split; [exact F2|]. split; [exact F3|]. split; [exact F4|].
  split; [exact W1|]. split; [exact W2|]. split; [exact W3|]. split; [exact W4|].
  split. { apply NoDup3; auto. }
  unfold dirty.
  destruct O1 as [E1 _], O2 as [E2 _], O3 as [E3 _], O4 as [E4 _].
  rewrite E1, E2, E3, E4. cbn. rewrite Ht1, Ht2, Ht3, Ht4, Ht3.
  repeat (split; [reflexivity|]).
  split. { unfold tick. repeat (destruct (0 <? _); cbn); reflexivity. }
  intros f fr Hf.
  assert (Hlt : (f < 3)%nat).
  { apply lookup_lt_Some in Hf. rewrite (inv_ring _ I3) in Hf. exact Hf. }
  destruct (B1 ltac:(lia)) as (r1 & L1 & V1).
  destruct (B2 ltac:(lia)) as (r2 & L2 & V2).
  destruct (B3 ltac:(lia)) as (r3 & L3 & V3).
  destruct (Hall f Hlt) as [-> | [-> | ->]].
  - rewrite R3, R2, L1 in Hf by auto. injection Hf as <-. exact V1.
  - rewrite R3, L2 in Hf by auto. injection Hf as <-. exact V2.
  - rewrite L3 in Hf. injection Hf as <-. exact V3.
Qed.

(** ** Idempotence of the update *)

(** C8.  With no transform change in between (every [NumFramesDirty]
    between 0 and [gNumFrameResources], nothing resetting it), the update
    that comes back to a frame resource a second time, one turn of the ring
    after the first, copies nothing into the object buffers: by then every
    [NumFramesDirty] is 0, and the copy is guarded by [NumFramesDirty > 0].
    The object buffers and the render items are left as they were. *)
Theorem second_visit_copies_nothing (app : ShapesApp.t) (n1 n2 n3 n4 : nat) :
  Inv app ->
  mCurrentFence app + 4 < 2 ^ 64 ->
  Forall (fun e => 0 <= RenderItem.NumFramesDirty e <= gNumFrameResources) (mAllRitems app) ->
  exists a1 l1 a2 l2 a3 l3 a4 l4,
    Frame n1 app = Some (a1, l1) /\ Frame n2 a1 = Some (a2, l2) /\
    Frame n3 a2 = Some (a3, l3) /\ Frame n4 a3 = Some (a4, l4) /\
    mCurrFrameResourceIndex a4 = mCurrFrameResourceIndex a1 /\
    Forall (fun e => RenderItem.NumFramesDirty e = 0) (mAllRitems a3) /\
    object_writes l4 = [] /\
    map FrameResource.ObjectCB (mFrameResources a4)
      = map FrameResource.ObjectCB (mFrameResources a3) /\
    mAllRitems a4 = mAllRitems a3.
Proof.
  intros H Hb Hd.
  destruct (Frame_all n1 app H ltac:(lia)) as (a1 & l1 & F1 & I1 & C1 & X1 & T1 & _).
  destruct (Frame_all n2 a1 I1 ltac:(lia)) as (a2 & l2 & F2 & I2 & C2 & X2 & T2 & _).
  destruct (Frame_all n3 a2 I2 ltac:(lia)) as (a3 & l3 & F3 & I3 & C3 & X3 & T3 & _).
  destruct (Frame_all n4 a3 I3 ltac:(lia)) as (a4 & l4 & F4 & I4 & C4 & X4 & T4 & W4 & B4).
  assert (Hzero : Forall (fun e => RenderItem.NumFramesDirty e = 0) (mAllRitems a3)).
  { rewrite T3, T2, T1, !map_map. apply Forall_map.
    eapply Forall_impl; [exact Hd|]. cbn. intros e He. now apply tick_thrice. }
  assert (Hclean : Forall (fun e => RenderItem.NumFramesDirty e <= 0) (mAllRitems a3)).
  { eapply Forall_impl; [exact Hzero|]. cbn. intros; lia. }
  exists a1, l1, a2, l2, a3, l3, a4, l4.
  split; [exact F1|]. split; [exact F2|]. split; [exact F3|]. split; [exact F4|].
  split; [|split; [exact Hzero|split; [|split; [exact (B4 Hclean)|]]]].
  - destruct (slots_cycle app H) as (_ & _ & _ & Hcyc & _).
    rewrite X4, X1, (next_slot_succ _ _ X3), (next_slot_succ _ _ X2), (next_slot_succ _ _ X1).
    now rewrite Hcyc.
  - rewrite W4. clear -Hclean. induction Hclean as [|e l He Hl IH]; [reflexivity|].
    cbn. destruct (Z.ltb_spec 0 (RenderItem.NumFramesDirty e)); [lia|exact IH].
  - rewrite T4. clear -Hclean. induction Hclean as [|e l He Hl IH]; [reflexivity|].
    cbn. rewrite IH, tick_clean by exact He. reflexivity.
Qed.

(** ** The fence gate *)

(** While the frame resources visited are still unstamped, no frame waits. *)
Lemma Run_unstamped inputs : forall app app' tr,
  Inv app -> mCurrentFence app + Z.of_nat (length inputs) < 2 ^ 64 ->
  (length inputs <= 3)%nat ->
  (forall k, 1 <= k <= Z.of_nat (length inputs) ->
     exists fr, mFrameResources app
                  !! Z.to_nat ((mCurrFrameResourceIndex app + k) mod gNumFrameResources)
                = Some fr /\ FrameResource.Fence fr = 0) ->
  Run inputs app = Some (app', tr) ->
  Forall (fun p => waits (snd p) = []) tr.
Proof.
  induction inputs as [|n rest IH]; intros app app' tr H Hb Hlen Hfresh HR.
  - cbn in HR. injection HR as <- <-. constructor.
  - cbn [length] in Hb, Hlen, Hfresh. rewrite Nat2Z.inj_succ in Hb, Hfresh.
    destruct (Frame_facts n app H) as (fr & g & log & Hfr & HF & HI & _ & _ & Hw & _); [lia|].
    cbn [Run] in HR. rewrite HF in HR. cbn [mbind option_bind] in HR.
    destruct (Run rest (Frame_state app fr g)) as [[app1 tl]|] eqn:HR1; [|discriminate].
    cbn in HR. injection HR as <- <-.
    constructor.
    + cbn [snd]. rewrite Hw.
      destruct (Hfresh 1) as (fr1 & Hfr1 & Hz); [lia|].
      fold (next_slot app) in Hfr1. rewrite Hfr in Hfr1. injection Hfr1 as <-.
      rewrite Hz. reflexivity.
    + eapply (IH (Frame_state app fr g)); [exact HI | cbn; lia | lia | | exact HR1].
      intros k Hk. rewrite Frame_state_index by exact H.
      destruct (Hfresh (k + 1)) as (frk & Hfrk & Hz); [lia|].
      exists frk. split; [|exact Hz].
      rewrite Zplus_mod_idemp_l, Frame_state_ring.
      replace (mCurrFrameResourceIndex app + 1 + k)
        with (mCurrFrameResourceIndex app + (k + 1)) by lia.
      rewrite list_lookup_insert_ne; [exact Hfrk|].
      pose proof (inv_index _ H) as Hi. unfold next_slot, gNumFrameResources in *.
      assert (k = 1 \/ k = 2) as [-> | ->] by lia;
      assert (mCurrFrameResourceIndex app = 0 \/ mCurrFrameResourceIndex app = 1
              \/ mCurrFrameResourceIndex app = 2) as [-> | [-> | ->]] by lia;
      vm_compute; lia.
Qed.

(** C1.  In every state the application reaches between two frames, the
    next [Update] waits for the GPU exactly when the frame resource it moves
    to carries a nonzero [Fence] and the completed value the GPU reports is
    below that [Fence]; a wait, if any, is the first thing [Update] does, and
    when the copies into the frame resource begin the GPU has reported the
    value the frame resource was last stamped with.  The first
    [gNumFrameResources] frames after [Initialize] never wait. *)
Theorem fence_gate (dev : Device) (shapes : Shapes) (worlds : string -> XMFLOAT4X4)
    (fence0 : Z) (app0 app : ShapesApp.t) (inputs : list nat)
    (tr : list (Z * list Event)) (n : nat) :
  0 <= fence0 ->
  fence0 + 1 + Z.of_nat (length inputs) < 2 ^ 64 ->
  Initialize dev shapes worlds fence0 = Initialized app0 ->
  Run inputs app0 = Some (app, tr) ->
  (exists fr app' log,
     mFrameResources app !! next_slot app = Some fr /\
     Update n app = Some (app', log) /\
     mCurrFrameResource app' = Some (next_slot app) /\
     (waits log = [FrameResource.Fence fr] <->
        FrameResource.Fence fr <> 0 /\
        Gpu.completed (Gpu.run n (gpu app)) < FrameResource.Fence fr) /\
     (waits log = [] <->
        FrameResource.Fence fr = 0 \/
        FrameResource.Fence fr <= Gpu.completed (Gpu.run n (gpu app))) /\
     (exists copies, log = map EvWait (waits log) ++ copies /\ waits copies = []) /\
     FrameResource.Fence fr <= Gpu.completed (gpu app')) /\
  ((length inputs <= Z.to_nat gNumFrameResources)%nat ->
   Forall (fun p => waits (snd p) = []) tr).
Proof.
  intros H0 Hb Hinit HR.
  pose proof (Inv_Initialize _ _ _ _ _ H0 ltac:(lia) Hinit) as I0.
  destruct (Initialize_inv _ _ _ _ _ H0 ltac:(lia) Hinit)
    as (geo & _ & _ & Hring & _ & Hidx & HF0 & _).
  destruct (Run_spec inputs app0 I0 ltac:(lia)) as (app' & tr' & HR' & HI & _).
  rewrite HR in HR'. injection HR' as <- <-.
  split.
  - destruct (Update_spec n app HI)
      as (fr & g & waited & Hfr & Hw & Hcase & Hreach & _ & HU & _).
    destruct (copies_projections (next_slot app)
                (List.filter (fun e => 0 <? RenderItem.NumFramesDirty e) (mAllRitems app)))
      as (C1 & _).
    eexists fr, _, _. split; [exact Hfr|]. split; [exact HU|]. split; [reflexivity|].
    set (copies := map (copy_event (next_slot app)) _) in *.
    assert (Hrest : waits (copies ++ [EvCopyPassCB (next_slot app)]) = []).
    { unfold waits in *. rewrite omap_app, C1. reflexivity. }
    assert (Hwl : waits (waited ++ copies ++ [EvCopyPassCB (next_slot app)]) = waits waited).
    { unfold waits in *. rewrite omap_app, Hrest. apply app_nil_r. }
    rewrite Hwl.
    destruct Hcase as [(-> & Hnz & Hlt) | (-> & -> & Hor)]; cbn [waits omap List.app map].
    + split; [|split; [|split]].
      * tauto.
      * split; [discriminate | lia].
      * eexists. split; [reflexivity|]. exact Hrest.
      * exact Hreach.
    + split; [|split; [|split]].
      * split; [discriminate | lia].
      * tauto.
      * eexists. split; [reflexivity|]. exact Hrest.
      * exact Hreach.
  - intros Hlen. eapply (Run_unstamped inputs app0); [exact I0 | lia | exact Hlen | | exact HR].
    intros k Hk. rewrite Hring, Hidx. unfold gNumFrameResources in *.
    assert (k = 1 \/ k = 2 \/ k = 3) as [-> | [-> | ->]] by lia;
      (eexists; split; [vm_compute; reflexivity | reflexivity]).
Qed.

(** ** Fence values *)

(** C5.  In every state the application reaches, [Draw] adds exactly 1 to
    [mCurrentFence], stores the new value in the [Fence] of the current
    frame resource, and queues the signal for that value as the last thing
    it does.  The values stamped over a run of frames are consecutive, hence
    strictly increasing.  (The counter is 64 bits wide: the statement covers
    runs that do not exhaust it.) *)
Theorem Draw_stamps_next_fence (dev : Device) (shapes : Shapes)
    (worlds : string -> XMFLOAT4X4) (fence0 : Z) (app0 app u : ShapesApp.t)
    (inputs : list nat) (tr : list (Z * list Event)) (n : nat) (ulog : list Event) :
  0 <= fence0 ->
  fence0 + 2 + Z.of_nat (length inputs) < 2 ^ 64 ->
  Initialize dev shapes worlds fence0 = Initialized app0 ->
  Run inputs app0 = Some (app, tr) ->
  Update n app = Some (u, ulog) ->
  (exists f fr' app' pre,
     mCurrFrameResource u = Some f /\
     Draw u = Some (app', pre ++ [EvSignal (mCurrentFence app')]) /\
     signals pre = [] /\
     mCurrentFence app' = mCurrentFence u + 1 /\
     mFrameResources app' !! f = Some fr' /\
     FrameResource.Fence fr' = mCurrentFence app' /\
     Gpu.pending (gpu app') = Gpu.pending (gpu u) ++ [mCurrentFence app']) /\
  stamps tr = seqZ (fence0 + 2) (Z.of_nat (length inputs)) /\
  (forall i j a b, (i < j)%nat ->
     stamps tr !! i = Some a -> stamps tr !! j = Some b -> a < b).
Proof.
  intros H0 Hb Hinit HR HU.
  pose proof (Inv_Initialize _ _ _ _ _ H0 ltac:(lia) Hinit) as I0.
  destruct (Initialize_inv _ _ _ _ _ H0 ltac:(lia) Hinit)
    as (geo & _ & _ & _ & _ & _ & HF0 & _).
  destruct (Run_spec inputs app0 I0 ltac:(lia)) as (app' & tr' & HR' & HI & HF & _ & Hst).
  rewrite HR in HR'. injection HR' as <- <-.
  rewrite HF0 in Hst, HF.
  replace (fence0 + 1 + 1) with (fence0 + 2) in Hst by lia.
  split; [|split; [exact Hst|]].
  - destruct (Update_spec n app HI) as (fr & g & waited & Hfr & _ & _ & _ & _ & HU' & HIu).
    rewrite HU in HU'. injection HU' as -> _.
    set (f := next_slot app) in *. set (u := Update_state app f fr g) in *.
    assert (HbU : mCurrentFence u + 1 < 2 ^ 64) by (cbn; lia).
    destruct (Draw_spec u f HIu HbU eq_refl) as (fr1 & drawn & Hfr1 & Hd & HD & _).
    destruct (DrawRenderItems_spec u _ (inv_opaque _ HIu)) as (drawn' & Hd' & _ & D2 & _).
    rewrite Hd in Hd'. injection Hd' as <-.
    exists f, (FrameResource.set_Fence (mCurrentFence u + 1) fr1), (Draw_state u f fr1),
      (EvSetPassTable (passHeapIndex (mPassCbvOffset u) (mCurrFrameResourceIndex u))
       :: drawn ++ [EvExecuteCommandLists; EvPresent]).
    split; [reflexivity|]. split; [|split; [|split; [reflexivity|split; [|split]]]].
    + rewrite HD. cbn [Draw_state mCurrentFence]. do 2 f_equal.
      cbn [List.app]. f_equal. rewrite <- app_assoc. reflexivity.
    + unfold signals in *. cbn. rewrite omap_app, D2. reflexivity.
    + cbn [Draw_state mFrameResources]. apply list_lookup_insert_eq.
      eapply lookup_lt_Some, Hfr1.
    + reflexivity.
    + reflexivity.
  - intros i j a b Hij Ha Hb'. rewrite Hst in Ha, Hb'.
    apply lookup_seqZ in Ha as [-> _]. apply lookup_seqZ in Hb' as [-> _]. lia.
Qed.

(** ** The ring index *)

(** C4, the claim as stated fails: on the sample scene the frame resource
    index in force during the first five frames is 1, 2, 0, 1, 2, not
    0, 1, 2, 0, 1. *)
Lemma ring_index_not_01201 :
  option_map (fun r => map fst (snd r)) (Run [0; 0; 0; 0; 0]%nat sample_app)
    = Some [1; 2; 0; 1; 2] /\
  option_map (fun r => map fst (snd r)) (Run [0; 0; 0; 0; 0]%nat sample_app)
    <> Some [0; 1; 2; 0; 1].
Proof. split; [vm_compute; reflexivity | vm_compute; discriminate]. Qed.

(** C4, amended.  [Initialize] leaves the frame resource index at 0 and
    [Update] advances it before it uses it: over the first frames the index
    in force is 1, 2, 0, 1, 2, ..., the k-th frame running on index
    [k mod gNumFrameResources].  In every state reached, [Update] replaces
    the index [i] by [(i + 1) mod gNumFrameResources] and [Draw] leaves it
    alone. *)
Theorem ring_index_sequence (dev : Device) (shapes : Shapes)
    (worlds : string -> XMFLOAT4X4) (fence0 : Z) (app0 : ShapesApp.t) (inputs : list nat) :
  0 <= fence0 ->
  fence0 + 2 + Z.of_nat (length inputs) < 2 ^ 64 ->
  Initialize dev shapes worlds fence0 = Initialized app0 ->
  mCurrFrameResourceIndex app0 = 0 /\
  exists app tr,
    Run inputs app0 = Some (app, tr) /\
    map fst tr = map (fun k => k mod gNumFrameResources) (seqZ 1 (Z.of_nat (length inputs))) /\
    (length inputs = 5%nat -> map fst tr = [1; 2; 0; 1; 2]) /\
    forall n, exists u ulog d dlog,
      Update n app = Some (u, ulog) /\ Draw u = Some (d, dlog) /\
      mCurrFrameResourceIndex u = (mCurrFrameResourceIndex app + 1) mod gNumFrameResources /\
      mCurrFrameResourceIndex d = mCurrFrameResourceIndex u.
Proof.
  intros H0 Hb Hinit.
  pose proof (Inv_Initialize _ _ _ _ _ H0 ltac:(lia) Hinit) as I0.
  destruct (Initialize_inv _ _ _ _ _ H0 ltac:(lia) Hinit)
    as (geo & _ & _ & _ & _ & Hidx & HF0 & _).
  split; [exact Hidx|].
  destruct (Run_spec inputs app0 I0 ltac:(lia)) as (app & tr & HR & HI & HF & Hslots & _).
  rewrite Hidx in Hslots. cbn [Z.add] in Hslots.
  exists app, tr. split; [exact HR|]. split; [exact Hslots|]. split.
  - intros Hlen. rewrite Hslots, Hlen. reflexivity.
  - intros n.
    destruct (Update_spec n app HI) as (fr & g & waited & Hfr & _ & _ & _ & _ & HU & HIu).
    set (f := next_slot app) in *. set (u := Update_state app f fr g) in *.
    assert (HbU : mCurrentFence u + 1 < 2 ^ 64) by (cbn; lia).
    destruct (Draw_spec u f HIu HbU eq_refl) as (fr1 & drawn & _ & _ & HD & _).
    eexists u, _, _, _. split; [exact HU|]. split; [exact HD|]. split; [|reflexivity].
    cbn. unfold f, next_slot. destruct (next_index _ (inv_index _ HI)) as [_ Hr].
    apply Z2Nat.id. lia.
Qed.

(** ** The descriptor heap *)

Section FoldInsert.
Context {V : Type} (key : Z -> Z) (val : Z -> V).

Lemma fold_insert_out (l : list Z) : forall (m0 : gmap Z V) k,
  (forall j, j ∈ l -> key j <> k) ->
  fold_left (fun m j => <[key j := val j]> m) l m0 !! k = m0 !! k.
Proof.
  induction l as [|a l IH]; intros m0 k Hout; [reflexivity|].
  cbn. rewrite IH by (intros j Hj; apply Hout; now right).
  apply lookup_insert_ne, Hout. now left.
Qed.

Lemma fold_insert_in (l : list Z) : forall (m0 : gmap Z V) i,
  i ∈ l -> (forall j, j ∈ l -> key j = key i -> j = i) ->
  fold_left (fun m j => <[key j := val j]> m) l m0 !! key i = Some (val i).
Proof.
  induction l as [|a l IH]; intros m0 i Hin Hinj; [now apply elem_of_nil in Hin|].
  cbn. destruct (decide (i ∈ l)) as [Hl|Hl].
  - apply IH; [exact Hl|]. intros j Hj. apply Hinj. now right.
  - apply elem_of_cons in Hin as [->|Hin]; [|contradiction].
    rewrite fold_insert_out.
    + apply lookup_insert_eq.
    + intros j Hj Heq. apply Hl. rewrite <- (Hinj j); [exact Hj | now right | exact Heq].
Qed.
End FoldInsert.

Lemma BuildObjectViews_views objCount f h :
  DescriptorHeap.views (BuildObjectViews objCount f h) =
  fold_left (fun m i => <[objHeapIndex objCount f i := ObjectCBV f i]> m)
            (seqZ 0 objCount) (DescriptorHeap.views h) /\
  DescriptorHeap.NumDescriptors (BuildObjectViews objCount f h)
  = DescriptorHeap.NumDescriptors h.
Proof.
  unfold BuildObjectViews. generalize (seqZ 0 objCount) as l. intros l. revert h.
  induction l as [|a l IH]; intros h; [split; reflexivity|].
  cbn. destruct (IH (DescriptorHeap.CreateConstantBufferView
                       (objHeapIndex objCount f a) (ObjectCBV f a) h)) as [-> ->].
  split; reflexivity.
Qed.

Lemma objHeapIndex_small objCount f i :
  0 <= f -> 0 <= i < objCount -> (f + 1) * objCount < 2 ^ 31 -> f < 2 ^ 31 ->
  objHeapIndex objCount f i = f * objCount + i.
Proof.
  intros Hf Hi Hb Hf'. unfold objHeapIndex.
  rewrite (UINT_small f) by lia.
  rewrite (UINT_small (f * objCount)) by nia.
  rewrite (UINT_small (f * objCount + i)) by nia.
  apply INT_small. nia.
Qed.

Lemma passHeapIndex_small off f :
  0 <= f -> 0 <= off -> off + f < 2 ^ 31 -> passHeapIndex off f = off + f.
Proof.
  intros Hf Ho Hb. unfold passHeapIndex.
  rewrite (UINT_small f) by lia. rewrite (UINT_small (off + f)) by lia.
  apply INT_small. lia.
Qed.

(** The object views of frame [f] land where they should, and nowhere else. *)
Lemma BuildObjectViews_lookup objCount f h :
  0 <= f -> (f + 1) * objCount < 2 ^ 31 -> f < 2 ^ 31 ->
  (forall i, 0 <= i < objCount ->
     DescriptorHeap.views (BuildObjectViews objCount f h) !! (f * objCount + i)
     = Some (ObjectCBV f i)) /\
  (forall k, ~ (f * objCount <= k < (f + 1) * objCount) ->
     DescriptorHeap.views (BuildObjectViews objCount f h) !! k
     = DescriptorHeap.views h !! k).
Proof.
  intros Hf Hb Hf'. destruct (BuildObjectViews_views objCount f h) as [-> _]. split.
  - intros i Hi. rewrite <- (objHeapIndex_small objCount f i) by lia.
    apply (fold_insert_in (objHeapIndex objCount f) (ObjectCBV f)).
    + apply elem_of_seqZ. lia.
    + intros j Hj Heq. apply elem_of_seqZ in Hj.
      rewrite !objHeapIndex_small in Heq by lia. lia.
  - intros k Hk. apply (fold_insert_out (objHeapIndex objCount f) (ObjectCBV f)).
    intros j Hj. apply elem_of_seqZ in Hj. rewrite objHeapIndex_small by lia. nia.
Qed.

Lemma BuildConstantBufferViews_unfold app r0 r1 r2 :
  mFrameResources app = [r0; r1; r2] ->
  BuildConstantBufferViews app =
  let objCount := size_UINT (mOpaqueRitems app) in
  let off := mPassCbvOffset app in
  let h := BuildObjectViews objCount 2
             (BuildObjectViews objCount 1 (BuildObjectViews objCount 0 (mCbvHeap app))) in
  let h := DescriptorHeap.CreateConstantBufferView (passHeapIndex off 0) (PassCBV 0) h in
  let h := DescriptorHeap.CreateConstantBufferView (passHeapIndex off 1) (PassCBV 1) h in
  let h := DescriptorHeap.CreateConstantBufferView (passHeapIndex off 2) (PassCBV 2) h in
  Some (set_mCbvHeap h app).
Proof.
  intros Hring. unfold BuildConstantBufferViews.
  change (seqZ 0 gNumFrameResources) with [0; 1; 2].
  rewrite Hring. reflexivity.
Qed.

(** C2.  For an application with [objCount] opaque render items and the
    three frame resources, [BuildDescriptorHeaps] and
    [BuildConstantBufferViews] make a heap of [3 * (objCount + 1)]
    descriptors in which the view of object [i] for frame [f] sits at index
    [f * objCount + i] and the pass view of frame [f] at
    [objCount * 3 + f]; with 17 objects the view of object 5 for frame 2 is
    at 39 and the pass view of frame 2 at 53; different (frame, object)
    pairs have different indices and every index is inside the heap.  (The
    indices are 32-bit: the statement covers heaps below 2^31 entries.) *)
Theorem descriptor_heap_layout (app : ShapesApp.t) :
  let objCount := Z.of_nat (length (mOpaqueRitems app)) in
  let N := gNumFrameResources in
  length (mFrameResources app) = Z.to_nat N ->
  N * (objCount + 1) < 2 ^ 31 ->
  exists app',
    BuildConstantBufferViews (BuildDescriptorHeaps app) = Some app' /\
    DescriptorHeap.NumDescriptors (mCbvHeap app') = N * (objCount + 1) /\
    mPassCbvOffset app' = objCount * N /\
    (forall f i, 0 <= f < N -> 0 <= i < objCount ->
       objHeapIndex objCount f i = f * objCount + i /\
       DescriptorHeap.views (mCbvHeap app') !! (f * objCount + i) = Some (ObjectCBV f i)) /\
    (forall f, 0 <= f < N ->
       passHeapIndex (mPassCbvOffset app') f = objCount * N + f /\
       DescriptorHeap.views (mCbvHeap app') !! (objCount * N + f) = Some (PassCBV f)) /\
    (forall f i f' i', 0 <= f < N -> 0 <= i < objCount ->
       0 <= f' < N -> 0 <= i' < objCount ->
       (f, i) <> (f', i') -> f * objCount + i <> f' * objCount + i') /\
    (forall f i, 0 <= f < N -> 0 <= i < objCount ->
       0 <= f * objCount + i < N * (objCount + 1)) /\
    (forall f, 0 <= f < N -> 0 <= objCount * N + f < N * (objCount + 1)) /\
    (objHeapIndex 17 2 5 = 39 /\ passHeapIndex (17 * N) 2 = 53).
Proof.
  intros objCount N Hring Hb. unfold N, gNumFrameResources in *.
  assert (Hc : 0 <= objCount) by (unfold objCount; lia).
  destruct (mFrameResources app) as [|r0 [|r1 [|r2 [|]]]] eqn:Ering; try discriminate.
  assert (Hsize : size_UINT (mOpaqueRitems app) = objCount).
  { apply size_UINT_small. fold objCount. lia. }
  assert (Hoff : mPassCbvOffset (BuildDescriptorHeaps app) = objCount * 3).
  { cbn. rewrite Hsize. change (UINT 3) with 3. apply UINT_small. lia. }
  rewrite (BuildConstantBufferViews_unfold _ r0 r1 r2) by exact Ering.
  cbn zeta. eexists. split; [reflexivity|].
  cbn [mCbvHeap set_mCbvHeap mPassCbvOffset DescriptorHeap.views
       DescriptorHeap.NumDescriptors DescriptorHeap.CreateConstantBufferView].
  change (mOpaqueRitems (BuildDescriptorHeaps app)) with (mOpaqueRitems app).
  rewrite Hsize, Hoff.
  rewrite !passHeapIndex_small by lia.
  set (h0 := mCbvHeap (BuildDescriptorHeaps app)).
  destruct (BuildObjectViews_lookup objCount 0 h0) as [In0 Out0]; [lia | lia | lia |].
  set (h1 := BuildObjectViews objCount 0 h0) in *.
  destruct (BuildObjectViews_lookup objCount 1 h1) as [In1 Out1]; [lia | lia | lia |].
  set (h2 := BuildObjectViews objCount 1 h1) in *.
  destruct (BuildObjectViews_lookup objCount 2 h2) as [In2 Out2]; [lia | lia | lia |].
  set (h3 := BuildObjectViews objCount 2 h2) in *.
  split; [|split; [reflexivity|split; [|split; [|split; [|split; [|split]]]]]].
  - unfold h3, h2, h1.
    rewrite !(proj2 (BuildObjectViews_views _ _ _)). unfold h0. cbn.
    rewrite Hsize. change (UINT gNumFrameResources) with 3. rewrite UINT_small; lia.
  - intros f i Hf Hi. split; [apply objHeapIndex_small; nia|].
    rewrite !lookup_insert_ne by nia.
    assert (f = 0 \/ f = 1 \/ f = 2) as [-> | [-> | ->]] by lia.
    + rewrite Out2, Out1 by lia. apply In0, Hi.
    + rewrite Out2 by lia. apply In1, Hi.
    + apply In2, Hi.
  - intros f Hf. split; [apply passHeapIndex_small; lia|].
    assert (f = 0 \/ f = 1 \/ f = 2) as [-> | [-> | ->]] by lia.
    + rewrite !lookup_insert_ne by lia. apply lookup_insert_eq.
    + rewrite lookup_insert_ne by lia. apply lookup_insert_eq.
    + apply lookup_insert_eq.
  - intros f i f' i' Hf Hi Hf' Hi' Hne Heq. apply Hne.
    assert (f = f') by nia. subst f'. f_equal. lia.
  - intros f i Hf Hi. nia.
  - intros f Hf. nia.
  - split; vm_compute; reflexivity.
Qed.

(** ** Render items and their descriptors *)

Lemma PushRitem_fold worlds geo (l : list (string * string)) : forall acc k,
  0 <= k -> k + Z.of_nat (length l) < 2 ^ 31 ->
  let r := fold_left (PushRitem worlds geo) l (acc, k) in
  map RenderItem.ObjCBIndex r.1
    = map RenderItem.ObjCBIndex acc ++ seqZ k (Z.of_nat (length l)) /\
  length r.1 = (length acc + length l)%nat /\
  (Forall (fun e => RenderItem.NumFramesDirty e = gNumFrameResources) acc ->
   Forall (fun e => RenderItem.NumFramesDirty e = gNumFrameResources) r.1).
Proof.
  induction l as [|[ritem shape] l IH]; intros acc k Hk Hb.
  - cbn. rewrite app_nil_r. repeat split; auto.
  - cbn [length] in Hb. rewrite Nat2Z.inj_succ in Hb.
    cbn [fold_left PushRitem].
    destruct (IH (acc ++ [RenderItem.mk
                            (if String.eqb ritem "gridRitem" then Identity4x4 else worlds ritem)
                            (RenderItem.NumFramesDirty RenderItem.default) (UINT k)
                            (Some "shapeGeo"%string) D3D_PRIMITIVE_TOPOLOGY_TRIANGLELIST
                            (SubmeshGeometry.IndexCount (DrawArgs_at geo shape))
                            (SubmeshGeometry.StartIndexLocation (DrawArgs_at geo shape))
                            (SubmeshGeometry.BaseVertexLocation (DrawArgs_at geo shape))])
                 (INT (k + 1))) as (IH1 & IH2 & IH3).
    { rewrite INT_small; lia. }
    { rewrite INT_small; lia. }
    cbn zeta in *. split; [|split].
    + rewrite IH1, map_app, <- app_assoc. f_equal. cbn [map List.app RenderItem.ObjCBIndex].
      rewrite UINT_small, INT_small by lia.
      cbn [length]. rewrite Nat2Z.inj_succ, (seqZ_cons k) by lia.
      do 2 f_equal; lia.
    + rewrite IH2, length_app. cbn. lia.
    + intros Hacc. apply IH3. apply Forall_app. split; [exact Hacc|].
      repeat constructor.
Qed.

(** The render items [BuildRenderItems] makes: 22 of them, keyed 0 to 21 in
    order, all dirty for every frame resource, all in the opaque list. *)
Lemma BuildRenderItems_spec worlds geos ritems opaque :
  BuildRenderItems worlds geos = Some (ritems, opaque) ->
  length ritems = 22%nat /\
  map RenderItem.ObjCBIndex ritems = seqZ 0 22 /\
  opaque = seq 0 22 /\
  Forall (fun e => RenderItem.NumFramesDirty e = gNumFrameResources) ritems.
Proof.
  unfold BuildRenderItems. destruct (geos !! _) as [geo|]; [|discriminate].
  cbn [mbind option_bind].
  destruct (PushRitem_fold worlds geo scene [] 0) as (H1 & H2 & H3); [lia | cbn; lia |].
  destruct (fold_left (PushRitem worlds geo) scene _) as [items k].
  intros [= <- <-]. cbn in H1, H2. rewrite H2. repeat split; auto.
Qed.

Lemma Initialize_heap dev shapes worlds fence0 app :
  0 <= fence0 -> fence0 + 1 < 2 ^ 64 ->
  Initialize dev shapes worlds fence0 = Initialized app ->
  DescriptorHeap.NumDescriptors (mCbvHeap app)
  = UINT ((size_UINT (mOpaqueRitems app) + 1) * UINT gNumFrameResources).
Proof.
  intros H0 Hb. unfold Initialize.
  destruct (BuildShapeGeometry dev shapes) as [geo|hr]; [|discriminate].
  destruct (BuildRenderItems _ _) as [[ritems opaque]|] eqn:HR; [|discriminate].
  rewrite (BuildConstantBufferViews_unfold _ FrameResource.fresh FrameResource.fresh
             FrameResource.fresh) by reflexivity.
  cbv beta iota zeta. rewrite FlushCommandQueue_drained by (cbn; (reflexivity || lia)).
  intros [= <-]. cbn.
  rewrite !(proj2 (BuildObjectViews_views _ _ _)). reflexivity.
Qed.

(** Frames change neither the keys of the render items, nor the opaque
    list, nor the descriptor heap. *)
Lemma Run_static inputs : forall app app' tr,
  Inv app -> mCurrentFence app + Z.of_nat (length inputs) < 2 ^ 64 ->
  Run inputs app = Some (app', tr) ->
  map RenderItem.ObjCBIndex (mAllRitems app') = map RenderItem.ObjCBIndex (mAllRitems app) /\
  mOpaqueRitems app' = mOpaqueRitems app /\
  mPassCbvOffset app' = mPassCbvOffset app /\
  mCbvHeap app' = mCbvHeap app.
Proof.
  induction inputs as [|n rest IH]; intros app app' tr H Hb HR.
  - cbn in HR. injection HR as <- <-. repeat split; reflexivity.
  - cbn [length] in Hb. rewrite Nat2Z.inj_succ in Hb.
    destruct (Frame_facts n app H) as (fr & g & log & Hfr & HF & HI & _); [lia|].
    cbn [Run] in HR. rewrite HF in HR. cbn [mbind option_bind] in HR.
    destruct (Run rest (Frame_state app fr g)) as [[app1 tl]|] eqn:HR1; [|discriminate].
    cbn in HR. injection HR as <- <-.
    destruct (IH _ _ _ HI ltac:(cbn; lia) HR1) as (E1 & E2 & E3 & E4).
    rewrite E1, E2, E3, E4. cbn. split; [|repeat split; reflexivity].
    rewrite map_map. apply map_ext. intros e. apply tick_ObjCBIndex.
Qed.

(** C10.  [BuildRenderItems] keys its render items 0, 1, ..., 21 in the
    order it makes them, without duplicates, and puts every one of them on
    the opaque list.  Hence, for every frame index [f] below
    [gNumFrameResources] and every opaque item, the descriptor index
    [f * objCount + ObjCBIndex] that [DrawRenderItems] computes lies in
    [0, gNumFrameResources * objCount), below the pass descriptors and
    inside the heap of [gNumFrameResources * (objCount + 1)] descriptors;
    and the tables [Draw] binds in any state the application reaches are
    such indices, with [f] the index of the current frame resource. *)
Theorem render_item_descriptors_in_range (dev : Device) (shapes : Shapes)
    (worlds : string -> XMFLOAT4X4) (fence0 : Z) (app0 app u d : ShapesApp.t)
    (inputs : list nat) (tr : list (Z * list Event)) (n : nat) (ulog dlog : list Event) :
  0 <= fence0 ->
  fence0 + 2 + Z.of_nat (length inputs) < 2 ^ 64 ->
  Initialize dev shapes worlds fence0 = Initialized app0 ->
  Run inputs app0 = Some (app, tr) ->
  Update n app = Some (u, ulog) ->
  Draw u = Some (d, dlog) ->
  let objCount := Z.of_nat (length (mOpaqueRitems app0)) in
  let N := gNumFrameResources in
  map RenderItem.ObjCBIndex (mAllRitems app0) = seqZ 0 objCount /\
  NoDup (map RenderItem.ObjCBIndex (mAllRitems app0)) /\
  mOpaqueRitems app0 = seq 0 (length (mAllRitems app0)) /\
  objCount = 22 /\
  mPassCbvOffset app0 = N * objCount /\
  DescriptorHeap.NumDescriptors (mCbvHeap app0) = N * (objCount + 1) /\
  (forall f p ri, 0 <= f < N -> p ∈ mOpaqueRitems app0 -> mAllRitems app0 !! p = Some ri ->
     let idx := cbvIndex_of (set_mCurrFrameResourceIndex f app0) ri in
     idx = f * objCount + RenderItem.ObjCBIndex ri /\
     0 <= idx < N * objCount /\
     idx < mPassCbvOffset app0 /\
     idx < DescriptorHeap.NumDescriptors (mCbvHeap app0)) /\
  object_tables dlog
    = map (fun k => mCurrFrameResourceIndex u * objCount + k) (seqZ 0 objCount) /\
  Forall (fun idx => 0 <= idx < N * objCount /\
                     idx < mPassCbvOffset u /\
                     idx < DescriptorHeap.NumDescriptors (mCbvHeap u))
         (object_tables dlog).
Proof.
  intros H0 Hb Hinit HR HU HD objCount N. unfold N, gNumFrameResources in *.
  pose proof (Inv_Initialize _ _ _ _ _ H0 ltac:(lia) Hinit) as I0.
  destruct (Initialize_inv _ _ _ _ _ H0 ltac:(lia) Hinit)
    as (geo & _ & HB & _ & _ & _ & HF0 & _ & Hoff).
  pose proof (Initialize_heap _ _ _ _ _ H0 ltac:(lia) Hinit) as Hheap.
  destruct (BuildRenderItems_spec _ _ _ _ HB) as (Hlen & Hkeys & Hopq & _).
  assert (Hcount : objCount = 22) by (unfold objCount; rewrite Hopq; reflexivity).
  assert (Hsize : size_UINT (mOpaqueRitems app0) = 22) by (rewrite Hopq; reflexivity).
  rewrite Hsize in Hoff, Hheap.
  change (UINT (22 * UINT gNumFrameResources)) with 66 in Hoff.
  change (UINT ((22 + 1) * UINT gNumFrameResources)) with 69 in Hheap.
  rewrite Hcount.
  assert (Hidx : forall a f k, 0 <= f < 3 -> 0 <= k < 22 ->
            mOpaqueRitems a = seq 0 22 ->
            UINT (UINT (UINT f * size_UINT (mOpaqueRitems a)) + k) = f * 22 + k).
  { intros a f k Hf Hk ->. change (size_UINT (seq 0 22)) with 22.
    rewrite (UINT_small f), (UINT_small (f * 22)), UINT_small; lia. }
  destruct (Run_spec inputs app0 I0 ltac:(lia)) as (app' & tr' & HR' & HI & HF & _).
  rewrite HR in HR'. injection HR' as <- <-.
  destruct (Run_static inputs app0 app tr I0 ltac:(lia) HR) as (S1 & S2 & S3 & S4).
  destruct (Update_spec n app HI) as (fr & g & waited & Hfr & _ & _ & _ & _ & HU' & HIu).
  rewrite HU in HU'. injection HU' as -> _.
  set (f := next_slot app) in *. set (u := Update_state app f fr g) in *.
  assert (Hiu : 0 <= mCurrFrameResourceIndex u < 3)
    by (pose proof (inv_index _ HIu); unfold gNumFrameResources in *; lia).
  assert (Htables : object_tables dlog
                    = map (fun k => mCurrFrameResourceIndex u * 22 + k) (seqZ 0 22)).
  { assert (HbU : mCurrentFence u + 1 < 2 ^ 64) by (cbn; lia).
    destruct (Draw_spec u f HIu HbU eq_refl) as (fr1 & drawn & _ & Hd & HD' & _).
    rewrite HD in HD'. injection HD' as _ ->.
    destruct (DrawRenderItems_spec u _ (inv_opaque _ HIu)) as (drawn' & Hd' & _ & _ & _ & _ & Ht).
    rewrite Hd in Hd'. injection Hd' as <-.
    assert (Htab : forall a c,
              object_tables
                (EvSetPassTable a :: drawn ++ [EvExecuteCommandLists; EvPresent; EvSignal c])
              = object_tables drawn).
    { intros a c. unfold object_tables. cbn. rewrite omap_app. cbn. apply app_nil_r. }
    rewrite Htab, Ht.
    assert (Hopu : mOpaqueRitems u = seq 0 22) by (cbn; rewrite S2; exact Hopq).
    assert (Hkeysu : map RenderItem.ObjCBIndex (mAllRitems u) = seqZ 0 22).
    { cbn [mAllRitems u Update_state]. rewrite map_map, <- Hkeys, <- S1.
      apply map_ext. intros; apply tick_ObjCBIndex. }
    rewrite Hopu.
    change (seqZ 0 22) with (map Z.of_nat (seq 0 22)). rewrite map_map.
    apply map_ext_in. intros p Hp. apply in_seq in Hp.
    assert (Hlu : (p < length (mAllRitems u))%nat).
    { rewrite <- (length_map RenderItem.ObjCBIndex), Hkeysu, length_seqZ. lia. }
    destruct (lookup_lt_is_Some_2 _ _ Hlu) as [ri Hri]. rewrite Hri. cbn [from_option].
    assert (Hkey : RenderItem.ObjCBIndex ri = Z.of_nat p).
    { assert (Hk : map RenderItem.ObjCBIndex (mAllRitems u) !! p
                   = Some (RenderItem.ObjCBIndex ri)).
      { change (map ?f ?l) with (f <$> l). now rewrite list_lookup_fmap, Hri. }
      rewrite Hkeysu in Hk. apply lookup_seqZ in Hk. lia. }
    unfold cbvIndex_of. rewrite Hkey. apply Hidx; [exact Hiu | lia | exact Hopu]. }
  split; [exact Hkeys|]. split; [rewrite Hkeys; apply NoDup_seqZ|].
  split; [rewrite Hlen; exact Hopq|]. split; [reflexivity|].
  split; [exact Hoff|]. split; [exact Hheap|]. split; [|split; [exact Htables|]].
  - intros f' p ri Hf Hp Hri. cbn zeta. unfold cbvIndex_of. cbn.
    assert (Hkey : 0 <= RenderItem.ObjCBIndex ri < 22).
    { assert (Hk : map RenderItem.ObjCBIndex (mAllRitems app0) !! p
                   = Some (RenderItem.ObjCBIndex ri)).
      { change (map ?f ?l) with (f <$> l). now rewrite list_lookup_fmap, Hri. }
      rewrite Hkeys in Hk. apply lookup_seqZ in Hk. lia. }
    rewrite (Hidx app0 f' (RenderItem.ObjCBIndex ri) Hf Hkey Hopq). rewrite Hoff, Hheap. lia.
  - rewrite Htables. apply Forall_map, Forall_forall. intros k Hk.
    apply elem_of_seqZ in Hk.
    change (mPassCbvOffset u) with (mPassCbvOffset app).
    change (mCbvHeap u) with (mCbvHeap app).
    rewrite S3, S4, Hoff, Hheap. cbn beta. lia.
Qed.


(** ** Shape geometry *)

(** Within 31 bits the submesh table is the exact layout. *)
Lemma BuildSubmeshes_layout s :
  total_vertices s < 2 ^ 31 -> total_indices s < 2 ^ 31 ->
  BuildSubmeshes s = layout 0 0 (shape_list s).
Proof.
  unfold total_vertices, total_indices, BuildSubmeshes, shape_list, nverts, nidx.
  intros Hv Hi. cbn [layout]. unfold nverts, nidx. cbn zeta.
  repeat match goal with
         | |- context [UINT ?x] => rewrite (UINT_small x) by lia
         | |- context [INT ?x] => rewrite (INT_small x) by lia
         end.
  repeat (f_equal; try lia).
Qed.

Lemma length_packed_vertices l :
  Z.of_nat (length (packed_vertices l)) = fold_right (fun p acc => nverts (snd (fst p)) + acc) 0 l.
Proof.
  induction l as [|[[name m] c] l IH]; [reflexivity|].
  unfold packed_vertices in *. cbn. rewrite length_app, length_map, Nat2Z.inj_add, IH.
  reflexivity.
Qed.

Lemma length_packed_indices l :
  Z.of_nat (length (packed_indices l)) = fold_right (fun p acc => nidx (snd (fst p)) + acc) 0 l.
Proof.
  induction l as [|[[name m] c] l IH]; [reflexivity|].
  unfold packed_indices, GeometryGenerator.GetIndices16 in *. cbn.
  rewrite length_app, length_map, Nat2Z.inj_add, IH. reflexivity.
Qed.

(** The ranges of a layout lie end to end. *)
Lemma layout_tiles l : forall vo io,
  tiles (map (fun p => submesh_range (snd p)) (layout vo io l)) io
        (io + Z.of_nat (length (packed_indices l))).
Proof.
  induction l as [|[[name m] c] l IH]; intros vo io.
  - cbn. lia.
  - cbn [layout map tiles submesh_range snd SubmeshGeometry.StartIndexLocation
         SubmeshGeometry.IndexCount].
    split; [reflexivity|]. split; [unfold nidx; lia|].
    specialize (IH (vo + nverts m) (io + nidx m)).
    rewrite length_packed_indices in *. cbn [fold_right snd fst].
    replace (io + (nidx m + fold_right (fun p acc => nidx (snd (fst p)) + acc) 0 l))
      with (io + nidx m + fold_right (fun p acc => nidx (snd (fst p)) + acc) 0 l) by lia.
    exact IH.
Qed.

(** Ranges laid end to end stay inside the interval they tile. *)
Lemma tiles_inside ranges : forall lo hi,
  tiles ranges lo hi ->
  lo <= hi /\
  Forall (fun r => lo <= fst r /\ 0 <= snd r /\ fst r + snd r <= hi) ranges.
Proof.
  induction ranges as [|[s c] rest IH]; intros lo hi Ht; cbn in Ht.
  - split; [lia|constructor].
  - destruct Ht as (-> & Hc & Ht). destruct (IH _ _ Ht) as [Hle Hall].
    split; [lia|]. constructor; [cbn; lia|].
    eapply Forall_impl; [exact Hall|]. cbn. intros; lia.
Qed.

(** Ranges laid end to end cover every position exactly once. *)
Lemma tiles_cover ranges : forall lo hi,
  tiles ranges lo hi ->
  forall x, lo <= x < hi ->
    exists k r, ranges !! k = Some r /\ fst r <= x < fst r + snd r /\
                forall k' r', ranges !! k' = Some r' ->
                              fst r' <= x < fst r' + snd r' -> k' = k.
Proof.
  induction ranges as [|[s c] rest IH]; intros lo hi Ht x Hx; cbn in Ht.
  - lia.
  - destruct Ht as (-> & Hc & Ht). destruct (tiles_inside _ _ _ Ht) as [Hle Hall].
    destruct (Z_lt_ge_dec x (lo + c)) as [Hin|Hout].
    + exists 0%nat, (lo, c). split; [reflexivity|]. split; [cbn; lia|].
      intros [|k'] r' Hr' Hx'; [reflexivity|]. cbn in Hr'.
      rewrite Forall_lookup in Hall. specialize (Hall _ _ Hr'). lia.
    + destruct (IH _ _ Ht x) as (k & r & Hr & Hxr & Huniq); [lia|].
      exists (S k), r. split; [exact Hr|]. split; [exact Hxr|].
      intros [|k'] r' Hr' Hx'.
      * cbn in Hr'. injection Hr' as <-. cbn in Hx'. lia.
      * f_equal. eapply Huniq; eauto.
Qed.

Lemma packed_vertices_cons name m c l :
  packed_vertices ((name, m, c) :: l)
  = map (paint c) (GeometryGenerator.Vertices m) ++ packed_vertices l.
Proof. reflexivity. Qed.

Lemma packed_indices_cons name m c l :
  packed_indices ((name, m, c) :: l) = GeometryGenerator.GetIndices16 m ++ packed_indices l.
Proof. reflexivity. Qed.

(** Every submesh of a layout keeps its promise about the packed buffers. *)
Lemma layout_ok l : forall pre_v pre_i,
  Forall (fun p => mesh_wf (snd (fst p))) l ->
  Forall2 (submesh_ok (pre_v ++ packed_vertices l) (pre_i ++ packed_indices l))
          l (layout (Z.of_nat (length pre_v)) (Z.of_nat (length pre_i)) l).
Proof.
  induction l as [|[[name m] c] l IH]; intros pre_v pre_i Hwf; [constructor|].
  apply Forall_cons in Hwf as [Hm Hl]. cbn [fst snd] in Hm.
  cbn [layout]. constructor.
  - unfold submesh_ok. cbn [fst snd SubmeshGeometry.IndexCount
                            SubmeshGeometry.StartIndexLocation
                            SubmeshGeometry.BaseVertexLocation].
    rewrite packed_vertices_cons, packed_indices_cons, !Nat2Z.id.
    split; [reflexivity|]. split; [|split].
    + rewrite drop_app_length. unfold nidx. rewrite Nat2Z.id.
      replace (length (GeometryGenerator.Indices32 m))
        with (length (GeometryGenerator.GetIndices16 m))
        by apply length_map.
      apply take_app_length.
    + rewrite drop_app_length.
      replace (length (GeometryGenerator.Vertices m))
        with (length (map (paint c) (GeometryGenerator.Vertices m))) at 1
        by apply length_map.
      apply take_app_length.
    + unfold GeometryGenerator.GetIndices16. apply Forall_map.
      eapply Forall_impl; [exact Hm|]. cbn beta. intros i Hi.
      pose proof (uint16_t_range i). pose proof (uint16_t_le i ltac:(lia)).
      rewrite !length_app, length_map, !Nat2Z.inj_add. unfold nverts in *. lia.
  - specialize (IH (pre_v ++ map (paint c) (GeometryGenerator.Vertices m))
                   (pre_i ++ GeometryGenerator.GetIndices16 m) Hl).
    rewrite packed_vertices_cons, packed_indices_cons, !app_assoc.
    rewrite !length_app, !Nat2Z.inj_add in IH.
    replace (Z.of_nat (length (map (paint c) (GeometryGenerator.Vertices m))))
      with (nverts m) in IH by (unfold nverts; now rewrite length_map).
    replace (Z.of_nat (length (GeometryGenerator.GetIndices16 m)))
      with (nidx m) in IH
      by (unfold nidx, GeometryGenerator.GetIndices16; now rewrite length_map).
    exact IH.
Qed.

Lemma layout_names l : forall vo io,
  map fst (layout vo io l) = map (fun p => fst (fst p)) l.
Proof.
  induction l as [|[[name m] c] l IH]; intros vo io; [reflexivity|].
  cbn. now rewrite IH.
Qed.

(** One copy loop appends the painted vertices of a mesh to the part of
    the buffer already filled. *)
Lemma PackVertices_app color src : forall (filled rest : list Vertex),
  Z.of_nat (length (filled ++ rest)) < 2 ^ 32 ->
  (length src <= length rest)%nat ->
  PackVertices color src (Z.of_nat (length filled)) (filled ++ rest)
  = (Z.of_nat (length (filled ++ map (paint color) src)),
     (filled ++ map (paint color) src) ++ drop (length src) rest).
Proof.
  induction src as [|v src IH]; intros filled rest Hb Hlen.
  - cbn. rewrite !app_nil_r. reflexivity.
  - destruct rest as [|r0 rest]; [cbn in Hlen; lia|].
    cbn [PackVertices]. rewrite Nat2Z.id.
    replace (<[length filled := mkVertex (GeometryGenerator.Position v) color]>
               (filled ++ r0 :: rest))
      with ((filled ++ [paint color v]) ++ rest).
    2:{ rewrite <- app_assoc. cbn. symmetry.
        rewrite insert_app_r_alt by lia. now rewrite Nat.sub_diag. }
    rewrite length_app in Hb. cbn [length] in Hb, Hlen.
    replace (UINT (Z.of_nat (length filled) + 1))
      with (Z.of_nat (length (filled ++ [paint color v]))).
    2:{ rewrite length_app, Nat2Z.inj_add. cbn. rewrite UINT_small; lia. }
    rewrite IH.
    + cbn [map drop]. rewrite <- !app_assoc. reflexivity.
    + rewrite !length_app. cbn [length]. lia.
    + lia.
Qed.

Lemma BuildIndices_packed s : BuildIndices s = packed_indices (shape_list s).
Proof.
  unfold BuildIndices, packed_indices, shape_list. cbn.
  rewrite <- !app_assoc, app_nil_r. reflexivity.
Qed.

(** The ten copy loops fill the vertex buffer with the painted vertices of
    the ten meshes, in order. *)
Lemma BuildVertices_packed s :
  total_vertices s < 2 ^ 32 -> BuildVertices s = packed_vertices (shape_list s).
Proof.
  unfold total_vertices, nverts. intros Hb. unfold BuildVertices.
  cbv zeta.
  change 0 with (Z.of_nat (length (@nil Vertex))) at 1.
  match goal with
  | |- context [PackVertices Purple ?src _ (replicate ?n ?z)] =>
      change (replicate n z) with ([] ++ replicate n z)
  end.
  do 10 (rewrite PackVertices_app
           by (rewrite ?length_app, ?length_drop, ?length_replicate, ?length_app, ?length_map;
               cbn [length]; lia);
         cbv beta iota zeta).
  match goal with
  | |- _ ++ ?tail = _ => assert (Htail : tail = [])
  end.
  { apply nil_length_inv. rewrite ?length_drop, length_replicate. lia. }
  rewrite Htail, app_nil_r. unfold packed_vertices, shape_list. cbn.
  rewrite <- !app_assoc, app_nil_r. reflexivity.
Qed.

Lemma StoreDrawArgs_lookup subs name sm :
  NoDup (map fst subs) -> (name, sm) ∈ subs -> StoreDrawArgs subs !! name = Some sm.
Proof.
  unfold StoreDrawArgs. generalize (∅ : gmap string SubmeshGeometry.t) as m0.
  assert (Hout : forall l (m0 : gmap string SubmeshGeometry.t),
             name ∉ map fst l ->
             fold_left (fun args p => <[p.1 := p.2]> args) l m0 !! name = m0 !! name).
  { induction l as [|[a b] l IH]; intros m0 Hn; [reflexivity|].
    cbn in *. rewrite not_elem_of_cons in Hn. destruct Hn as [Hne Hn].
    rewrite IH by exact Hn. apply lookup_insert_ne. congruence. }
  induction subs as [|[a b] subs IH]; intros m0 Hnd Hin; [now apply elem_of_nil in Hin|].
  cbn in Hnd. apply NoDup_cons in Hnd as [Ha Hnd]. cbn [fold_left fst snd].
  apply elem_of_cons in Hin as [[= -> ->]|Hin].
  - rewrite Hout by exact Ha. apply lookup_insert_eq.
  - apply IH; assumption.
Qed.

Lemma BuildShapeGeometry_Ok dev s geo :
  BuildShapeGeometry dev s = Ok geo ->
  MeshGeometry.VertexBufferCPU geo = BuildVertices s /\
  MeshGeometry.IndexBufferCPU geo = BuildIndices s /\
  MeshGeometry.DrawArgs geo = StoreDrawArgs (BuildSubmeshes s) /\
  MeshGeometry.IndexFormat geo = DXGI_FORMAT_R16_UINT.
Proof.
  unfold BuildShapeGeometry, ThrowIfFailed.
  repeat match goal with |- context [FAILED ?hr] => destruct (FAILED hr) end;
    try discriminate.
  intros [= <-]. repeat split; reflexivity.
Qed.

(** C6.  For ten meshes whose indices name their own vertices,
    [BuildShapeGeometry] packs the vertex arrays and the (16-bit) index
    arrays one after the other in the order box, grid, sphere, cylinder,
    pyramid, wedge, cone, halfCone, prism, diamond, and stores one submesh
    per shape under its name.  The index ranges
    [StartIndexLocation, StartIndexLocation + IndexCount) lie end to end
    from 0 to the length of the index buffer, so every position of the
    index buffer is in exactly one of them; the range of a shape holds the
    indices of its mesh; and [BaseVertexLocation] plus any of those indices
    is a position of the vertex buffer.  (Offsets are 32-bit: the statement
    covers buffers below 2^31 elements.) *)
Theorem BuildShapeGeometry_subranges (dev : Device) (s : Shapes) (geo : MeshGeometry.t) :
  total_vertices s < 2 ^ 31 ->
  total_indices s < 2 ^ 31 ->
  Forall (fun p => mesh_wf (snd (fst p))) (shape_list s) ->
  BuildShapeGeometry dev s = Ok geo ->
  let vertices := MeshGeometry.VertexBufferCPU geo in
  let indices := MeshGeometry.IndexBufferCPU geo in
  let subs := BuildSubmeshes s in
  vertices = packed_vertices (shape_list s) /\
  indices = packed_indices (shape_list s) /\
  (forall name sm, (name, sm) ∈ subs -> MeshGeometry.DrawArgs geo !! name = Some sm) /\
  tiles (map (fun p => submesh_range (snd p)) subs) 0 (Z.of_nat (length indices)) /\
  (forall x, 0 <= x < Z.of_nat (length indices) ->
     exists k sub,
       subs !! k = Some sub /\
       SubmeshGeometry.StartIndexLocation (snd sub) <= x
         < SubmeshGeometry.StartIndexLocation (snd sub) + SubmeshGeometry.IndexCount (snd sub) /\
       forall k' sub',
         subs !! k' = Some sub' ->
         SubmeshGeometry.StartIndexLocation (snd sub') <= x
           < SubmeshGeometry.StartIndexLocation (snd sub')
             + SubmeshGeometry.IndexCount (snd sub') ->
         k' = k) /\
  Forall2 (submesh_ok vertices indices) (shape_list s) subs.
Proof.
  intros Hv Hi Hwf Hok vertices indices subs.
  destruct (BuildShapeGeometry_Ok _ _ _ Hok) as (Ev & Ei & Ed & _).
  assert (Hvert : vertices = packed_vertices (shape_list s)).
  { unfold vertices. rewrite Ev. apply BuildVertices_packed. lia. }
  assert (Hidx : indices = packed_indices (shape_list s)).
  { unfold indices. rewrite Ei. apply BuildIndices_packed. }
  assert (Hsubs : subs = layout 0 0 (shape_list s))
    by (apply BuildSubmeshes_layout; assumption).
  assert (Htiles : tiles (map (fun p => submesh_range (snd p)) subs) 0
                         (Z.of_nat (length indices))).
  { rewrite Hsubs, Hidx. apply (layout_tiles (shape_list s) 0 0). }
  split; [exact Hvert|]. split; [exact Hidx|]. split; [|split; [exact Htiles|split]].
  - intros name sm Hin. rewrite Ed. apply StoreDrawArgs_lookup; [|exact Hin].
    fold subs. rewrite Hsubs, layout_names.
    apply (bool_decide_unpack _). vm_compute. exact I.
  - intros x Hx. destruct (tiles_cover _ _ _ Htiles x Hx) as (k & r & Hr & Hxr & Huniq).
    rewrite list_lookup_fmap in Hr.
    destruct (subs !! k) as [sub|] eqn:Hsub; [|discriminate]. injection Hr as <-.
    exists k, sub. split; [exact Hsub|]. split; [exact Hxr|].
    intros k' sub' Hsub' Hx'. apply (Huniq k' (submesh_range (snd sub'))); [|exact Hx'].
    rewrite list_lookup_fmap, Hsub'. reflexivity.
  - rewrite Hvert, Hidx, Hsubs.
    apply (layout_ok (shape_list s) [] []). exact Hwf.
Qed.

(** ** Binary32 arithmetic *)

Lemma SFcompare_antisym x y : SFcompare y x = option_map CompOpp (SFcompare x y).
Proof.
  destruct x as [sx|sx| |sx mx ex], y as [sy|sy| |sy my ey]; cbn; try reflexivity;
    try (destruct sx; reflexivity); try (destruct sy; reflexivity);
    try (destruct sx, sy; reflexivity).
  destruct sx, sy; cbn; try reflexivity;
    rewrite (Z.compare_antisym ex ey); destruct (ex ?= ey); cbn; try reflexivity.
  all: pose proof (Pos.compare_cont_antisym mx my Eq) as H; cbn in H; rewrite <- H;
    destruct (Pos.compare_cont Eq mx my); reflexivity.
Qed.

(** Among numbers, "not less than" is "greater than or equal". *)
Lemma flt_false_fle x y :
  is_nan x = false -> is_nan y = false -> flt x y = false -> fle y x = true.
Proof.
  unfold flt, fle, SFltb, SFleb. intros Hx Hy. rewrite (SFcompare_antisym x y).
  destruct (SFcompare x y) as [[| |]|] eqn:E; cbn; try reflexivity; try discriminate.
  intros _. destruct x, y; try discriminate; cbn in E;
    repeat match type of E with context [if ?b then _ else _] => destruct b end;
    discriminate.
Qed.

Lemma fle_not_nan x y : fle x y = true -> is_nan x = false /\ is_nan y = false.
Proof.
  unfold fle, SFleb. destruct x, y; cbn; try discriminate; auto.
Qed.

(** [MathHelper::Clamp] puts every number inside a nonempty interval. *)
Lemma Clamp_in_range x low high :
  is_nan x = false -> fle low high = true ->
  fle low low = true -> fle high high = true ->
  fle low (MathHelper_Clamp x low high) = true /\
  fle (MathHelper_Clamp x low high) high = true.
Proof.
  intros Hx Hlh Hll Hhh. destruct (fle_not_nan _ _ Hlh) as [Hl Hh].
  unfold MathHelper_Clamp.
  destruct (flt x low) eqn:E1; [auto|].
  destruct (flt high x) eqn:E2; [auto|].
  split; apply flt_false_fle; assumption.
Qed.

(** *** Magnitudes *)

Lemma digits2_pos_size p : digits2_pos p = Pos.size p.
Proof. induction p; cbn; congruence. Qed.

Lemma digits2_pos_le p k : 0 <= k -> (Z.pos (digits2_pos p) <= k <-> Z.pos p < 2 ^ k).
Proof.
  intros Hk. rewrite digits2_pos_size.
  pose proof (Pos.size_gt p) as Hgt. pose proof (Pos.size_le p) as Hle.
  apply Pos2Z.pos_lt_pos in Hgt. apply Pos2Z.pos_le_pos in Hle.
  rewrite Pos2Z.inj_pow in Hgt, Hle.
  change (Z.pos 2) with 2 in *.
  split; intros H.
  - eapply Z.lt_le_trans; [exact Hgt|]. apply Z.pow_le_mono_r; lia.
  - destruct (Z_le_gt_dec (Z.pos (Pos.size p)) k) as [|Hgt']; [assumption|exfalso].
    assert (H1 : 2 ^ (k + 1) <= 2 ^ Z.pos (Pos.size p)) by (apply Z.pow_le_mono_r; lia).
    assert (H2 : 2 ^ (k + 1) = 2 * 2 ^ k) by (rewrite Z.pow_add_r by lia; lia).
    lia.
Qed.

(** A number has at most [k] binary digits when it is below [2 ^ k]. *)
Lemma Zdigits2_le m k : 0 <= k -> (Zdigits2 m <= k <-> Z.abs m < 2 ^ k).
Proof.
  intros Hk. destruct m as [|p|p]; cbn [Zdigits2 Z.abs].
  - split; intros _; [apply Z.pow_pos_nonneg; lia | lia].
  - apply digits2_pos_le, Hk.
  - apply digits2_pos_le, Hk.
Qed.

Lemma Zdigits2_nonneg m : 0 <= Zdigits2 m.
Proof. destruct m; cbn; lia. Qed.

Lemma Zdigits2_bound m : Z.abs m < 2 ^ Zdigits2 m.
Proof. apply Zdigits2_le; [apply Zdigits2_nonneg | lia]. Qed.

Lemma Zdigits2_mul a b : Zdigits2 (a * b) <= Zdigits2 a + Zdigits2 b.
Proof.
  pose proof (Zdigits2_nonneg a). pose proof (Zdigits2_nonneg b).
  apply Zdigits2_le; [lia|]. rewrite Z.abs_mul, Z.pow_add_r by lia.
  apply Z.mul_lt_mono_nonneg; auto using Z.abs_nonneg, Zdigits2_bound.
Qed.

Lemma Zdigits2_add a b k :
  Zdigits2 a <= k -> Zdigits2 b <= k -> Zdigits2 (a + b) <= k + 1.
Proof.
  intros Ha Hb. pose proof (Zdigits2_nonneg a).
  assert (Hk : 0 <= k) by lia.
  apply (proj1 (Zdigits2_le a k Hk)) in Ha. apply (proj1 (Zdigits2_le b k Hk)) in Hb.
  apply Zdigits2_le; [lia|]. rewrite Z.pow_add_r by lia. lia.
Qed.

Lemma Zdigits2_opp a : Zdigits2 (- a) = Zdigits2 a.
Proof. destruct a; reflexivity. Qed.

(** Shifting right by one bit takes one digit off. *)
Lemma shr_1_digits mrs :
  0 <= shr_m mrs ->
  0 <= shr_m (shr_1 mrs) /\
  Zdigits2 (shr_m (shr_1 mrs)) = Z.max 0 (Zdigits2 (shr_m mrs) - 1).
Proof.
  destruct mrs as [m r s]. cbn [shr_m]. intros Hm.
  destruct m as [|[p|p|]|p]; cbn; try lia.
Qed.

Lemma iter_pos_shr_1_digits p : forall mrs,
  0 <= shr_m mrs ->
  0 <= shr_m (SpecFloat.iter_pos shr_1 p mrs) /\
  Zdigits2 (shr_m (SpecFloat.iter_pos shr_1 p mrs)) = Z.max 0 (Zdigits2 (shr_m mrs) - Z.pos p).
Proof.
  induction p as [p IH|p IH|]; intros mrs Hm; cbn [SpecFloat.iter_pos].
  - destruct (shr_1_digits mrs Hm) as [H1 E1].
    destruct (IH _ H1) as [H2 E2]. destruct (IH _ H2) as [H3 E3].
    split; [exact H3|]. rewrite E3, E2, E1. lia.
  - destruct (IH _ Hm) as [H2 E2]. destruct (IH _ H2) as [H3 E3].
    split; [exact H3|]. rewrite E3, E2. lia.
  - apply shr_1_digits, Hm.
Qed.

Lemma round_nearest_even_range m l :
  round_nearest_even m l = m \/ round_nearest_even m l = m + 1.
Proof.
  destruct l as [|[| |]]; cbn; auto. destruct (Z.even m); auto.
Qed.

Lemma fexp_32 e : fexp 24 128 e = fexp32 e.
Proof. reflexivity. Qed.

(** One rounding shift: the exponent goes up to [fexp], and the mantissa
    loses as many digits as the exponent gains. *)
Lemma shr_fexp_spec m e l :
  0 <= m ->
  let r := shr_fexp 24 128 m e l in
  0 <= shr_m (fst r) /\
  snd r = Z.max e (fexp32 (Zdigits2 m + e)) /\
  Zdigits2 (shr_m (fst r)) = Z.max 0 (Zdigits2 m - (snd r - e)).
Proof.
  intros Hm. unfold shr_fexp, shr. rewrite fexp_32.
  assert (Hrec : shr_m (shr_record_of_loc m l) = m) by (destruct l as [|[| |]]; reflexivity).
  pose proof (Zdigits2_nonneg m) as Hd.
  destruct (fexp32 (Zdigits2 m + e) - e) as [|p|p] eqn:E; cbn [fst snd].
  - rewrite Hrec. repeat split; try lia.
  - destruct (iter_pos_shr_1_digits p (shr_record_of_loc m l)) as [H1 E1]; [rewrite Hrec; lia|].
    rewrite Hrec in E1. split; [exact H1|]. split; [lia|]. rewrite E1. lia.
  - rewrite Hrec. repeat split; try lia.
Qed.

Lemma Zdigits2_succ x : 0 <= x -> Zdigits2 (x + 1) <= Zdigits2 x + 1.
Proof.
  intros Hx. pose proof (Zdigits2_nonneg x). pose proof (Zdigits2_bound x).
  apply Zdigits2_le; [lia|]. rewrite Z.pow_add_r by lia. lia.
Qed.

Lemma fnumber_mono B B' x : fnumber B x -> B <= B' -> fnumber B' x.
Proof. destruct x; cbn; intuition lia. Qed.

(** Rounding a number of magnitude below [2 ^ B] gives a number of
    magnitude at most [2 ^ B], as long as that fits the format. *)
Lemma binary_round_aux_number s m e l B :
  0 <= m -> Zdigits2 m + e <= B -> e <= B -> B <= 103 ->
  fnumber (Z.max (B + 1) (-148)) (binary_round_aux 24 128 s m e l).
Proof.
  intros Hm Hmag He HB. unfold binary_round_aux.
  pose proof (shr_fexp_spec m e l Hm) as S1. cbv zeta in S1.
  destruct (shr_fexp 24 128 m e l) as [mrs' e'] eqn:E1. cbn [fst snd] in S1.
  destruct S1 as (P1 & Ee' & M1).
  set (m1 := round_nearest_even (shr_m mrs') (loc_of_shr_record mrs')) in *.
  assert (Hm1 : 0 <= m1 /\ Zdigits2 m1 <= Zdigits2 (shr_m mrs') + 1).
  { unfold m1. destruct (round_nearest_even_range (shr_m mrs') (loc_of_shr_record mrs'))
      as [-> | ->]; split; try lia. apply Zdigits2_succ, P1. }
  destruct Hm1 as [Hm1 Hd1].
  pose proof (shr_fexp_spec m1 e' loc_Exact Hm1) as S2. cbv zeta in S2.
  destruct (shr_fexp 24 128 m1 e' loc_Exact) as [mrs'' e''] eqn:E2. cbn [fst snd] in S2.
  destruct S2 as (P2 & Ee'' & M2).
  pose proof (Zdigits2_nonneg m). pose proof (Zdigits2_nonneg m1).
  unfold fexp32 in *.
  destruct (shr_m mrs'') as [|q|q] eqn:Eq; cbn [fnumber Zdigits2] in *; [exact I| |lia].
  change (128 - 24) with 104.
  destruct (Z.leb_spec e'' 104); cbn [fnumber]; lia.
Qed.

Lemma digits2_pos_iter_xO m d :
  Z.pos (digits2_pos (Pos.iter xO m d)) = Z.pos (digits2_pos m) + Z.pos d.
Proof.
  induction d as [|d IH] using Pos.peano_ind.
  - cbn. lia.
  - rewrite Pos.iter_succ. cbn [digits2_pos]. lia.
Qed.

(** Aligning a mantissa to a lower exponent keeps the magnitude. *)
Lemma shl_align_spec mx ex ex' :
  let r := shl_align mx ex ex' in
  Z.pos (digits2_pos (fst r)) + snd r = Z.pos (digits2_pos mx) + ex /\
  snd r <= ex /\ (ex' <= ex -> snd r = ex').
Proof.
  unfold shl_align. destruct (ex' - ex) as [|d|d] eqn:E; cbn [fst snd].
  - repeat split; lia.
  - repeat split; lia.
  - rewrite digits2_pos_iter_xO. repeat split; lia.
Qed.

Lemma binary_round_number s m e B :
  Z.pos (digits2_pos m) + e <= B -> B <= 103 ->
  fnumber (Z.max (B + 1) (-148)) (binary_round 24 128 s m e).
Proof.
  intros Hmag HB. unfold binary_round.
  pose proof (shl_align_spec m e (fexp 24 128 (Z.pos (digits2_pos m) + e))) as S.
  cbv zeta in S. destruct (shl_align m e _) as [mz ez]. cbn [fst snd] in S.
  destruct S as (S1 & S2 & _).
  apply binary_round_aux_number; cbn [Zdigits2]; lia.
Qed.

Lemma binary_normalize_number m e sz B :
  Zdigits2 m + e <= B -> B <= 103 ->
  fnumber (Z.max (B + 1) (-148)) (binary_normalize 24 128 m e sz).
Proof.
  intros Hmag HB. destruct m as [|p|p]; cbn [binary_normalize Zdigits2] in *.
  - exact I.
  - apply binary_round_number; assumption.
  - apply binary_round_number; assumption.
Qed.

Lemma fmul_number Bx By x y :
  fnumber Bx x -> fnumber By y -> Bx + By <= 103 ->
  fnumber (Z.max (Bx + By + 1) (-148)) (fmul x y).
Proof.
  intros Hx Hy HB. destruct x as [sx|sx| |sx mx ex], y as [sy|sy| |sy my ey];
    cbn [fnumber] in Hx, Hy; try contradiction; try exact I.
  unfold fmul, fprec, femax. cbn [SFmul]. apply binary_round_aux_number; try lia.
  pose proof (Zdigits2_mul (Z.pos mx) (Z.pos my)) as Hd.
    change (Z.pos mx * Z.pos my) with (Z.pos (mx * my)) in Hd. cbn [Zdigits2] in *. lia.
Qed.

Lemma Zdigits2_cond_Zopp s z : Zdigits2 (cond_Zopp s z) = Zdigits2 z.
Proof. destruct s; cbn; [apply Zdigits2_opp | reflexivity]. Qed.

Lemma aligned_digits mx ex ey k :
  Z.pos (digits2_pos mx) + ex <= k ->
  Z.pos (digits2_pos (fst (shl_align mx ex (Z.min ex ey)))) <= k - Z.min ex ey.
Proof.
  intros H. pose proof (shl_align_spec mx ex (Z.min ex ey)) as S. cbv zeta in S.
  destruct S as (S1 & S2 & S3). specialize (S3 ltac:(lia)). lia.
Qed.

Lemma fadd_number k x y :
  fnumber k x -> fnumber k y -> k <= 101 ->
  fnumber (Z.max (k + 2) (-148)) (fadd x y).
Proof.
  intros Hx Hy HB. destruct x as [sx|sx| |sx mx ex], y as [sy|sy| |sy my ey];
    cbn [fnumber] in Hx, Hy; try contradiction.
  - destruct sx, sy; exact I.
  - cbn. lia.
  - cbn. lia.
  - unfold fadd, fprec, femax. cbn [SFadd].
    pose proof (aligned_digits mx ex ey k ltac:(lia)) as Dx.
    pose proof (aligned_digits my ey ex k ltac:(lia)) as Dy.
    rewrite (Z.min_comm ey ex) in Dy.
    replace (Z.max (k + 2) (-148)) with (Z.max ((k + 1) + 1) (-148)) by lia.
    apply binary_normalize_number; [|lia].
    pose proof (Zdigits2_add
                  (cond_Zopp sx (Z.pos (fst (shl_align mx ex (Z.min ex ey)))))
                  (cond_Zopp sy (Z.pos (fst (shl_align my ey (Z.min ex ey)))))
                  (k - Z.min ex ey)) as Hadd.
    rewrite !Zdigits2_cond_Zopp in Hadd. cbn [Zdigits2] in Hadd.
    specialize (Hadd Dx Dy). lia.
Qed.

Lemma fsub_number k x y :
  fnumber k x -> fnumber k y -> k <= 101 ->
  fnumber (Z.max (k + 2) (-148)) (fsub x y).
Proof.
  intros Hx Hy HB. destruct x as [sx|sx| |sx mx ex], y as [sy|sy| |sy my ey];
    cbn [fnumber] in Hx, Hy; try contradiction.
  - destruct sx, sy; exact I.
  - cbn. lia.
  - cbn. lia.
  - unfold fsub, fprec, femax. cbn [SFsub].
    pose proof (aligned_digits mx ex ey k ltac:(lia)) as Dx.
    pose proof (aligned_digits my ey ex k ltac:(lia)) as Dy.
    rewrite (Z.min_comm ey ex) in Dy.
    replace (Z.max (k + 2) (-148)) with (Z.max ((k + 1) + 1) (-148)) by lia.
    apply binary_normalize_number; [|lia].
    pose proof (Zdigits2_add
                  (cond_Zopp sx (Z.pos (fst (shl_align mx ex (Z.min ex ey)))))
                  (- cond_Zopp sy (Z.pos (fst (shl_align my ey (Z.min ex ey)))))
                  (k - Z.min ex ey)) as Hadd.
    rewrite Zdigits2_opp, !Zdigits2_cond_Zopp in Hadd. cbn [Zdigits2] in Hadd.
    specialize (Hadd Dx Dy). rewrite Z.add_opp_r in Hadd. lia.
Qed.

Lemma float_of_int_number n :
  - 2 ^ 31 <= n < 2 ^ 31 -> fnumber 33 (float_of_int n).
Proof.
  intros Hn. unfold float_of_int, fprec, femax.
  change 33 with (Z.max (32 + 1) (-148)). apply binary_normalize_number; [|lia].
  assert (Zdigits2 n <= 32) by (apply Zdigits2_le; lia). lia.
Qed.

(** *** The camera limits *)

Lemma INT_range x : - 2 ^ 31 <= INT x < 2 ^ 31.
Proof. unfold INT. pose proof (Z.mod_pos_bound (x + 2 ^ 31) (2 ^ 32)). lia. Qed.

Lemma fnumber_not_nan B x : fnumber B x -> is_nan x = false.
Proof. destruct x; cbn; intuition. Qed.

Lemma elevation_high : fsub MathHelper_Pi f0_1 = S754_finite false 12757365 (-22).
Proof. vm_compute. reflexivity. Qed.

Lemma radians_per_degree : fdiv XM_PI f180 = S754_finite false 9370165 (-29).
Proof. vm_compute. reflexivity. Qed.

(** A number between two positive floats has at most the magnitude of the
    upper one. *)
Lemma fnumber_between B x ml el mh eh :
  fnumber B x ->
  fle (S754_finite false ml el) x = true ->
  fle x (S754_finite false mh eh) = true ->
  fnumber (24 + eh) x.
Proof.
  destruct x as [s|s| |s m e]; cbn [fnumber]; try tauto.
  intros [Hd _] Hlo Hhi. split; [exact Hd|].
  unfold fle, SFleb in *. cbn [SFcompare] in *. destruct s; [discriminate|].
  destruct (Z.compare_spec e eh); try lia; discriminate.
Qed.

Lemma between_finite ml el mh eh x :
  fle (S754_finite false ml el) x = true ->
  fle x (S754_finite false mh eh) = true ->
  exists m e, x = S754_finite false m e.
Proof.
  destruct x as [s|s| |s m e]; unfold fle, SFleb; cbn [SFcompare];
    try destruct s; try discriminate; eauto.
Qed.

(** Below a float with the same exponent and a larger mantissa. *)
Lemma finite_le_lt m e eh mh mp :
  fle (S754_finite false m e) (S754_finite false mh eh) = true ->
  (mh < mp)%positive ->
  flt (S754_finite false m e) (S754_finite false mp eh) = true.
Proof.
  unfold fle, flt, SFleb, SFltb. cbn [SFcompare]. intros H Hm.
  destruct (Z.compare_spec e eh); try reflexivity; try discriminate.
  change (PosDef.Pos.compare_cont Eq m mh) with (m ?= mh)%positive in H.
  change (PosDef.Pos.compare_cont Eq m mp) with (m ?= mp)%positive.
  destruct (Pos.compare_spec m mh); try discriminate;
    destruct (Pos.compare_spec m mp); try reflexivity; lia.
Qed.

(** Inside the elevation limits the camera is off both poles. *)
Lemma in_bounds_off_poles c : camera_in_bounds c = true -> elevation_off_poles c = true.
Proof.
  unfold camera_in_bounds, elevation_off_poles. rewrite elevation_high.
  rewrite !andb_true_iff. intros [[[Hlo Hhi] _] _].
  destruct (between_finite _ _ _ _ _ Hlo Hhi) as (m & e & E).
  rewrite E in *. split; [reflexivity|].
  apply (finite_le_lt m e (-22) 12757365 13176795); [exact Hhi|reflexivity].
Qed.

Lemma Clamp_number B x low high :
  fnumber B x -> fnumber B low -> fnumber B high ->
  fnumber B (MathHelper_Clamp x low high).
Proof.
  intros Hx Hl Hh. unfold MathHelper_Clamp.
  destruct (flt x low); [exact Hl|]. destruct (flt high x); assumption.
Qed.

(** Clamping a number between two positive floats gives a number inside
    the limits and of the magnitude of the upper one. *)
Lemma Clamp_between B x ml el mh eh :
  let low := S754_finite false ml el in
  let high := S754_finite false mh eh in
  fnumber B x -> fnumber B low -> fnumber B high -> fle low high = true ->
  fle low (MathHelper_Clamp x low high) = true /\
  fle (MathHelper_Clamp x low high) high = true /\
  fnumber (24 + eh) (MathHelper_Clamp x low high).
Proof.
  intros low high Hx Hl Hh Hlh.
  assert (Hr : fle low (MathHelper_Clamp x low high) = true /\
               fle (MathHelper_Clamp x low high) high = true).
  { apply Clamp_in_range; [exact (fnumber_not_nan _ _ Hx)|exact Hlh| |].
    - unfold fle, SFleb, low. cbn [SFcompare]. rewrite Z.compare_refl.
      change (PosDef.Pos.compare_cont Eq ml ml) with (ml ?= ml)%positive.
      rewrite Pos.compare_refl. reflexivity.
    - unfold fle, SFleb, high. cbn [SFcompare]. rewrite Z.compare_refl.
      change (PosDef.Pos.compare_cont Eq mh mh) with (mh ?= mh)%positive.
      rewrite Pos.compare_refl. reflexivity. }
  destruct Hr as [H1 H2]. split; [exact H1|]. split; [exact H2|].
  eapply fnumber_between; [|exact H1|exact H2].
  apply Clamp_number; eassumption.
Qed.

Lemma mouse_angle_number n :
  fnumber 29 (XMConvertToRadians (fmul f0_25 (float_of_int (INT n)))).
Proof.
  unfold XMConvertToRadians. rewrite radians_per_degree.
  change 29 with (Z.max (33 + (-5) + 1) (-148)). apply fmul_number; [| |lia].
  - change 33 with (Z.max (-1 + 33 + 1) (-148)). apply fmul_number; [| |lia].
    + cbn. lia.
    + apply float_of_int_number, INT_range.
  - cbn. lia.
Qed.

Lemma mouse_zoom_number n : fnumber 30 (fmul f0_05 (float_of_int (INT n))).
Proof.
  change 30 with (Z.max (-4 + 33 + 1) (-148)). apply fmul_number; [| |lia].
  - cbn. lia.
  - apply float_of_int_number, INT_range.
Qed.

Lemma OnMouseMove_inv btnState x y c :
  camera_inv c -> camera_inv (OnMouseMove btnState x y c).
Proof.
  intros (Hb & Hphi & Hrad). unfold OnMouseMove.
  destruct (Camera.mLastMousePos c) as [lastx lasty].
  unfold camera_inv, camera_in_bounds in *.
  rewrite !andb_true_iff in Hb. destruct Hb as [[[Hp1 Hp2] Hr1] Hr2].
  destruct (negb (Z.land btnState MK_LBUTTON =? 0)); cbn [Camera.mPhi Camera.mRadius].
  - set (dy := XMConvertToRadians (fmul f0_25 (float_of_int (INT (y - lasty))))).
    assert (Hs : fnumber 31 (fadd (Camera.mPhi c) dy)).
    { change 31 with (Z.max (29 + 2) (-148)). apply fadd_number; [| |lia].
      - apply (fnumber_mono 2); [exact Hphi|lia].
      - apply mouse_angle_number. }
    rewrite elevation_high in *.
    destruct (Clamp_between 31 (fadd (Camera.mPhi c) dy) 13421773 (-27) 12757365 (-22))
      as (H1 & H2 & H3); [exact Hs|cbn; lia|cbn; lia|reflexivity|].
    fold f0_1 in H1, H2, H3. rewrite H1, H2, Hr1, Hr2.
    split; [reflexivity|]. split; [exact H3|exact Hrad].
  - destruct (negb (Z.land btnState MK_RBUTTON =? 0)); cbn [Camera.mPhi Camera.mRadius].
    + set (dx := fmul f0_05 (float_of_int (INT (x - lastx)))).
      set (dy := fmul f0_05 (float_of_int (INT (y - lasty)))).
      assert (Hd : fnumber 32 (fsub dx dy)).
      { change 32 with (Z.max (30 + 2) (-148)).
        apply fsub_number; [apply mouse_zoom_number|apply mouse_zoom_number|lia]. }
      assert (Hs : fnumber 34 (fadd (Camera.mRadius c) (fsub dx dy))).
      { change 34 with (Z.max (32 + 2) (-148)). apply fadd_number; [|exact Hd|lia].
        apply (fnumber_mono 8); [exact Hrad|lia]. }
      destruct (Clamp_between 34 (fadd (Camera.mRadius c) (fsub dx dy))
                  10485760 (-21) 9830400 (-16))
        as (H1 & H2 & H3); [exact Hs|cbn; lia|cbn; lia|reflexivity|].
      fold f5 in H1, H2, H3. fold f150 in H1, H2, H3. rewrite H1, H2, Hp1, Hp2.
      split; [reflexivity|]. split; [exact Hphi|exact H3].
    + rewrite Hp1, Hp2, Hr1, Hr2. split; [reflexivity|]. split; assumption.
Qed.

Lemma pointer_inv ev c : camera_inv c -> camera_inv (pointer ev c).
Proof.
  destruct ev as [b x y|b x y|b x y]; cbn [pointer].
  - intros H. exact H.
  - intros H. exact H.
  - apply OnMouseMove_inv.
Qed.

Lemma Camera_init_inv lastPos : camera_inv (Camera_init lastPos).
Proof.
  unfold camera_inv, camera_in_bounds, Camera_init. cbn [Camera.mPhi Camera.mRadius].
  split; [vm_compute; reflexivity|]. split.
  - assert (E : fmul f0_2 XM_PI = S754_finite false 10541436 (-24))
      by (vm_compute; reflexivity).
    rewrite E. cbn. lia.
  - cbn. lia.
Qed.

Lemma pointer_trace_inv evs : forall c,
  camera_inv c -> Forall camera_inv (pointer_trace evs c).
Proof.
  induction evs as [|ev rest IH]; intros c Hc; cbn [pointer_trace].
  - constructor.
  - constructor; [apply pointer_inv, Hc|]. apply IH, pointer_inv, Hc.
Qed.

(** C9. Whatever sequence of pointer events (button presses, releases and
    moves, with any button state and any coordinates) the application
    receives, and whatever the uninitialised last pointer position was, after
    every one of them the camera elevation is in [0.1, Pi - 0.1] and the
    camera radius in [5, 150], in binary32 arithmetic; in particular the
    elevation is strictly between the poles 0 and Pi. *)
Theorem camera_stays_in_bounds (lastPos : Z * Z) (evs : list PointerEvent) :
  Forall (fun c => camera_in_bounds c = true /\ elevation_off_poles c = true)
         (pointer_trace evs (Camera_init lastPos)).
Proof.
  eapply Forall_impl; [apply pointer_trace_inv, Camera_init_inv|].
  intros c (Hb & _). split; [exact Hb|apply in_bounds_off_poles, Hb].
Qed.

(** ** The geometry build and the index width *)

Lemma BuildShapeGeometry_device dev s :
  forallb (fun hr => negb (FAILED hr)) (device_answers dev s) = true ->
  BuildShapeGeometry dev s =
    Ok (MeshGeometry.mk "shapeGeo" (BuildVertices s) (BuildIndices s)
          sizeof_Vertex (vbByteSize_of s) DXGI_FORMAT_R16_UINT (ibByteSize_of s)
          (StoreDrawArgs (BuildSubmeshes s))).
Proof.
  unfold device_answers, BuildShapeGeometry, ThrowIfFailed. cbn [forallb].
  fold (vbByteSize_of s). fold (ibByteSize_of s).
  rewrite !andb_true_iff, !negb_true_iff. intros (-> & -> & -> & -> & _).
  reflexivity.
Qed.

(** C7, the claim as stated fails: a shape set of 65537 + 27 vertices, more
    than 16-bit indices address, is built without error on a device whose
    buffer creations succeed; the index 65536 of the box is stored as 0. *)
Lemma BuildShapeGeometry_no_vertex_limit :
  65536 < total_vertices big_shapes /\
  exists geo, BuildShapeGeometry sample_device big_shapes = Ok geo /\
    take 3 (MeshGeometry.IndexBufferCPU geo) = [0; 1; 0].
Proof.
  split; [vm_compute; reflexivity|].
  eexists. split; [apply BuildShapeGeometry_device; reflexivity|].
  cbn [MeshGeometry.IndexBufferCPU]. vm_compute. reflexivity.
Qed.

(** C7, amended.  [BuildShapeGeometry] makes no check of the vertex count
    against the index width.  Its outcome is decided by the device alone:
    it throws exactly when one of the four buffer creations (the two CPU
    blobs, then the two default buffers) answers a failing [HRESULT], with
    the first such [HRESULT]; otherwise it succeeds for every shape set,
    whatever its vertex count, with the packed vertices and every index
    narrowed to 16 bits. *)
Theorem BuildShapeGeometry_fails_only_on_device (dev : Device) (s : Shapes) :
  match BuildShapeGeometry dev s with
  | Ok geo =>
      forallb (fun hr => negb (FAILED hr)) (device_answers dev s) = true /\
      MeshGeometry.VertexBufferCPU geo = BuildVertices s /\
      MeshGeometry.IndexBufferCPU geo
        = map uint16_t (concat (map (fun p => GeometryGenerator.Indices32 (snd (fst p)))
                                    (shape_list s))) /\
      MeshGeometry.IndexFormat geo = DXGI_FORMAT_R16_UINT
  | DxException hr =>
      List.find FAILED (device_answers dev s) = Some hr
  end.
Proof.
  assert (Hidx : BuildIndices s
                 = map uint16_t (concat (map (fun p => GeometryGenerator.Indices32 (snd (fst p)))
                                             (shape_list s)))).
  { rewrite BuildIndices_packed. unfold packed_indices, GeometryGenerator.GetIndices16.
    unfold shape_list. cbn [map concat fst snd]. rewrite !map_app. reflexivity. }
  unfold BuildShapeGeometry, ThrowIfFailed, device_answers.
  fold (vbByteSize_of s). fold (ibByteSize_of s). cbn [forallb List.find].
  destruct (FAILED (D3DCreateBlob dev (vbByteSize_of s))); [reflexivity|].
  destruct (FAILED (D3DCreateBlob dev (ibByteSize_of s))); [reflexivity|].
  destruct (FAILED (CreateDefaultBuffer dev (vbByteSize_of s))); [reflexivity|].
  destruct (FAILED (CreateDefaultBuffer dev (ibByteSize_of s))); [reflexivity|].
  cbn [negb andb MeshGeometry.VertexBufferCPU MeshGeometry.IndexBufferCPU
       MeshGeometry.IndexFormat].
  split; [reflexivity|]. split; [reflexivity|]. split; [exact Hidx|reflexivity].
Qed.

(** * The statements on the sample scene *)

(** C1 on the sample scene: the first three frames do not wait. *)
Lemma fence_gate_witness :
  Initialize sample_device sample_shapes sample_worlds 0 = Initialized sample_app /\
  Run [0; 0; 0]%nat sample_app = Some sample_run /\
  Forall (fun p => waits (snd p) = []) (snd sample_run).
Proof.
  split; [vm_compute; reflexivity|]. split; [vm_compute; reflexivity|].
  refine (proj2 (fence_gate sample_device sample_shapes sample_worlds 0 sample_app
                   (fst sample_run) [0; 0; 0]%nat (snd sample_run) 0 _ _ _ _) _).
  - lia.
  - vm_compute. reflexivity.
  - vm_compute. reflexivity.
  - vm_compute. reflexivity.
  - vm_compute. lia.
Defined.

(** C2 on the sample scene: 22 objects and 3 frame resources make a heap
    of 69 descriptors, the pass views from 66 on. *)
Lemma descriptor_heap_layout_witness :
  exists app',
    BuildConstantBufferViews (BuildDescriptorHeaps sample_app) = Some app' /\
    DescriptorHeap.NumDescriptors (mCbvHeap app') = 69 /\
    mPassCbvOffset app' = 66.
Proof.
  pose proof (descriptor_heap_layout sample_app) as H. cbv zeta in H.
  destruct H as (app' & H1 & H2 & H3 & _).
  - vm_compute. reflexivity.
  - vm_compute. reflexivity.
  - exists app'. split; [exact H1|]. split; [exact H2|exact H3].
Defined.

(** C3 on the sample scene: the first render item, dirty for three frames,
    is dirty for two after the first frame and for none after the third. *)
Lemma dirty_propagation_witness :
  exists a1 l1 a2 l2 a3 l3,
    Frame 0 sample_app = Some (a1, l1) /\ Frame 0 a1 = Some (a2, l2) /\
    Frame 0 a2 = Some (a3, l3) /\
    (RenderItem.NumFramesDirty <$> (mAllRitems a1 !! 0%nat)) = Some 2 /\
    (RenderItem.NumFramesDirty <$> (mAllRitems a3 !! 0%nat)) = Some 0.
Proof.
  pose proof (dirty_propagation sample_app 0 sample_item 0 0 0 0) as H.
  cbv zeta in H.
  destruct H as (a1 & l1 & a2 & l2 & a3 & l3 & a4 & l4 & F1 & F2 & F3 & _ & _ & _ & _ & _
                 & _ & D1 & _ & D3 & _).
  - exact sample_app_Inv.
  - vm_compute. reflexivity.
  - apply NoDup_sole_owner; [|vm_compute; reflexivity].
    apply (bool_decide_unpack _). vm_compute. exact I.
  - vm_compute. reflexivity.
  - exists a1, l1, a2, l2, a3, l3. repeat (split; [assumption|]). assumption.
Defined.

(** C4 on the sample scene: five frames run on the indices 1, 2, 0, 1, 2. *)
Lemma ring_index_sequence_witness :
  exists app tr,
    Run [0; 0; 0; 0; 0]%nat sample_app = Some (app, tr) /\
    map fst tr = [1; 2; 0; 1; 2].
Proof.
  destruct (ring_index_sequence sample_device sample_shapes sample_worlds 0 sample_app
              [0; 0; 0; 0; 0]%nat) as (_ & app & tr & HR & _ & H5 & _).
  - lia.
  - vm_compute. reflexivity.
  - vm_compute. reflexivity.
  - exists app, tr. split; [exact HR|]. apply H5. reflexivity.
Defined.

(** C5 on the sample scene: the three frames are stamped 2, 3 and 4. *)
Lemma Draw_stamps_next_fence_witness :
  Update 0 (fst sample_run) = Some sample_update /\
  stamps (snd sample_run) = [2; 3; 4].
Proof.
  split; [vm_compute; reflexivity|].
  refine (proj1 (proj2 (Draw_stamps_next_fence sample_device sample_shapes sample_worlds 0
                          sample_app (fst sample_run) (fst sample_update) [0; 0; 0]%nat
                          (snd sample_run) 0 (snd sample_update) _ _ _ _ _))).
  - lia.
  - vm_compute. reflexivity.
  - vm_compute. reflexivity.
  - vm_compute. reflexivity.
  - vm_compute. reflexivity.
Defined.

(** C6 on the sample scene: ten triangles give ten index ranges of three
    indices each, end to end from 0 to 30. *)
Lemma BuildShapeGeometry_subranges_witness :
  BuildShapeGeometry sample_device sample_shapes = Ok sample_geo /\
  tiles (map (fun p => submesh_range (snd p)) (BuildSubmeshes sample_shapes)) 0 30.
Proof.
  split; [vm_compute; reflexivity|].
  pose proof (BuildShapeGeometry_subranges sample_device sample_shapes sample_geo) as H.
  cbv zeta in H. destruct H as (_ & _ & _ & H & _).
  - vm_compute. reflexivity.
  - vm_compute. reflexivity.
  - repeat constructor; vm_compute; discriminate.
  - vm_compute. reflexivity.
  - exact H.
Defined.

(** C8 on the sample scene: the fourth frame, back on the frame resource of
    the first, copies no object constants. *)
Lemma second_visit_copies_nothing_witness :
  exists a1 l1 a2 l2 a3 l3 a4 l4,
    Frame 0 sample_app = Some (a1, l1) /\ Frame 0 a1 = Some (a2, l2) /\
    Frame 0 a2 = Some (a3, l3) /\ Frame 0 a3 = Some (a4, l4) /\
    mCurrFrameResourceIndex a4 = mCurrFrameResourceIndex a1 /\
    object_writes l4 = [].
Proof.
  destruct (second_visit_copies_nothing sample_app 0 0 0 0)
    as (a1 & l1 & a2 & l2 & a3 & l3 & a4 & l4 & F1 & F2 & F3 & F4 & Hi & _ & Hw & _).
  - exact sample_app_Inv.
  - vm_compute. reflexivity.
  - repeat constructor; vm_compute; discriminate.
  - exists a1, l1, a2, l2, a3, l3, a4, l4. repeat (split; [assumption|]). assumption.
Defined.

(** C10 on the sample scene: the 22 render items are keyed 0 to 21, and the
    fourth frame binds the object tables 22 to 43 of frame resource 1. *)
Lemma render_item_descriptors_in_range_witness :
  Draw (fst sample_update) = Some sample_draw /\
  map RenderItem.ObjCBIndex (mAllRitems sample_app) = seqZ 0 22 /\
  object_tables (snd sample_draw) = map (fun k => 1 * 22 + k) (seqZ 0 22).
Proof.
  split; [vm_compute; reflexivity|].
  pose proof (render_item_descriptors_in_range sample_device sample_shapes sample_worlds 0
                sample_app (fst sample_run) (fst sample_update) (fst sample_draw)
                [0; 0; 0]%nat (snd sample_run) 0 (snd sample_update) (snd sample_draw)) as H.
  cbv zeta in H. destruct H as (H1 & _ & _ & _ & _ & _ & _ & H2 & _).
  - lia.
  - vm_compute. reflexivity.
  - vm_compute. reflexivity.
  - vm_compute. reflexivity.
  - vm_compute. reflexivity.
  - vm_compute. reflexivity.
  - split; [exact H1|exact H2].
Defined.

(** * Further properties *)

Lemma built_heap_views app r0 r1 r2 :
  let objCount := Z.of_nat (length (mOpaqueRitems app)) in
  mFrameResources app = [r0; r1; r2] ->
  3 * (objCount + 1) < 2 ^ 31 ->
  exists app',
    BuildConstantBufferViews (BuildDescriptorHeaps app) = Some app' /\
    app' = set_mCbvHeap (mCbvHeap app') (BuildDescriptorHeaps app) /\
    DescriptorHeap.NumDescriptors (mCbvHeap app') = 3 * (objCount + 1) /\
    mPassCbvOffset app' = 3 * objCount /\
    (forall f i, 0 <= f < 3 -> 0 <= i < objCount ->
       DescriptorHeap.views (mCbvHeap app') !! (f * objCount + i) = Some (ObjectCBV f i)) /\
    (forall f, 0 <= f < 3 ->
       DescriptorHeap.views (mCbvHeap app') !! (3 * objCount + f) = Some (PassCBV f)) /\
    (forall k, ~ 0 <= k < 3 * (objCount + 1) ->
       DescriptorHeap.views (mCbvHeap app') !! k = None).
Proof.
  intros objCount Ering Hb.
  assert (Hsize : size_UINT (mOpaqueRitems app) = objCount).
  { apply size_UINT_small. fold objCount. lia. }
  assert (Hoff : mPassCbvOffset (BuildDescriptorHeaps app) = 3 * objCount).
  { cbn. rewrite Hsize. change (UINT gNumFrameResources) with 3. rewrite UINT_small; lia. }
  rewrite (BuildConstantBufferViews_unfold _ r0 r1 r2) by exact Ering.
  cbn zeta. eexists. split; [reflexivity|].
  cbn [mCbvHeap set_mCbvHeap mPassCbvOffset DescriptorHeap.views
       DescriptorHeap.NumDescriptors DescriptorHeap.CreateConstantBufferView].
  change (mOpaqueRitems (BuildDescriptorHeaps app)) with (mOpaqueRitems app).
  rewrite Hsize, Hoff.
  rewrite !passHeapIndex_small by lia.
  set (h0 := mCbvHeap (BuildDescriptorHeaps app)).
  assert (E0 : DescriptorHeap.views h0 = ∅) by reflexivity.
  destruct (BuildObjectViews_lookup objCount 0 h0) as [In0 Out0]; [lia | lia | lia |].
  set (h1 := BuildObjectViews objCount 0 h0) in *.
  destruct (BuildObjectViews_lookup objCount 1 h1) as [In1 Out1]; [lia | lia | lia |].
  set (h2 := BuildObjectViews objCount 1 h1) in *.
  destruct (BuildObjectViews_lookup objCount 2 h2) as [In2 Out2]; [lia | lia | lia |].
  set (h3 := BuildObjectViews objCount 2 h2) in *.
  split; [|split; [|split; [reflexivity|split; [|split]]]].
  - unfold set_mCbvHeap, BuildDescriptorHeaps. cbn. reflexivity.
  - unfold h3, h2, h1.
    rewrite !(proj2 (BuildObjectViews_views _ _ _)). unfold h0. cbn.
    rewrite Hsize. change (UINT gNumFrameResources) with 3. rewrite UINT_small; lia.
  - intros f i Hf Hi.
    rewrite !lookup_insert_ne by nia.
    assert (f = 0 \/ f = 1 \/ f = 2) as [-> | [-> | ->]] by lia.
    + rewrite Out2, Out1 by lia. apply In0, Hi.
    + rewrite Out2 by lia. apply In1, Hi.
    + apply In2, Hi.
  - intros f Hf.
    assert (f = 0 \/ f = 1 \/ f = 2) as [-> | [-> | ->]] by lia.
    + rewrite !lookup_insert_ne by lia. apply lookup_insert_eq.
    + rewrite lookup_insert_ne by lia. apply lookup_insert_eq.
    + apply lookup_insert_eq.
  - intros k Hk. rewrite !lookup_insert_ne by lia.
    rewrite Out2, Out1, Out0 by lia. rewrite E0. apply lookup_empty.
Qed.

(** X1.  [BuildDescriptorHeaps] followed by [BuildConstantBufferViews]
    writes every descriptor of the heap and none outside it: index [k] holds
    a view exactly when [0 <= k < NumDescriptors], and the view is the one
    [k] decodes to, object [k mod objCount] of frame [k / objCount] below
    [3 * objCount] and the pass view of frame [k - 3 * objCount] from there
    on.  (Three frame resources; a heap below 2^31 descriptors.) *)
Theorem descriptor_heap_exactly_filled (app : ShapesApp.t) :
  let objCount := Z.of_nat (length (mOpaqueRitems app)) in
  length (mFrameResources app) = Z.to_nat gNumFrameResources ->
  gNumFrameResources * (objCount + 1) < 2 ^ 31 ->
  exists app',
    BuildConstantBufferViews (BuildDescriptorHeaps app) = Some app' /\
    forall k,
      DescriptorHeap.views (mCbvHeap app') !! k =
      if (0 <=? k) && (k <? DescriptorHeap.NumDescriptors (mCbvHeap app'))
      then Some (view_at objCount k) else None.
Proof.
  intros objCount Hlen Hb. change gNumFrameResources with 3 in *.
  destruct (mFrameResources app) as [|r0 [|r1 [|r2 [|r3 rest]]]] eqn:Ering; try discriminate.
  destruct (built_heap_views app r0 r1 r2 Ering Hb)
    as (app' & HB & _ & Hn & _ & Hobj & Hpass & Hout).
  fold objCount in Hn, Hobj, Hpass, Hout.
  exists app'. split; [exact HB|]. intros k. rewrite Hn.
  destruct (0 <=? k) eqn:E1; [|rewrite Hout by lia; reflexivity].
  destruct (k <? 3 * (objCount + 1)) eqn:E2; [|rewrite Hout by lia; reflexivity].
  cbn [andb]. apply Z.leb_le in E1. apply Z.ltb_lt in E2.
  unfold view_at. change gNumFrameResources with 3.
  destruct (k <? 3 * objCount) eqn:E3.
  - apply Z.ltb_lt in E3. assert (0 < objCount) by lia.
    pose proof (Z.div_mod k objCount ltac:(lia)) as Hdm.
    pose proof (Z.mod_pos_bound k objCount ltac:(lia)) as Hm.
    assert (0 <= k / objCount < 3).
    { split; [apply Z.div_pos; lia|]. apply Z.div_lt_upper_bound; lia. }
    rewrite <- (Hobj (k / objCount) (k mod objCount)) by lia. f_equal. lia.
  - apply Z.ltb_ge in E3.
    rewrite <- (Hpass (k - 3 * objCount)) by lia. f_equal. lia.
Qed.

Lemma descriptor_heap_exactly_filled_witness :
  exists app',
    BuildConstantBufferViews (BuildDescriptorHeaps sample_app) = Some app' /\
    DescriptorHeap.views (mCbvHeap app') !! 49 = Some (ObjectCBV 2 5) /\
    DescriptorHeap.views (mCbvHeap app') !! 67 = Some (PassCBV 1) /\
    DescriptorHeap.views (mCbvHeap app') !! 69 = None.
Proof.
  pose proof (descriptor_heap_exactly_filled sample_app) as H. cbv zeta in H.
  destruct H as (app' & H1 & H2).
  - vm_compute. reflexivity.
  - vm_compute. reflexivity.
  - exists app'. split; [exact H1|].
    assert (Hn : DescriptorHeap.NumDescriptors (mCbvHeap app') = 69).
    { revert H1. vm_compute. intros [= <-]. reflexivity. }
    rewrite !H2, Hn. repeat split.
Defined.

(** X2.  [BuildConstantBufferViews] indexes [mFrameResources] with every
    frame index below [gNumFrameResources]: it reads past the end of the
    vector exactly when fewer than three frame resources have been built,
    so [BuildFrameResources] has to run before it. *)
Theorem BuildConstantBufferViews_needs_frame_resources (app : ShapesApp.t) :
  BuildConstantBufferViews app = None <->
  (length (mFrameResources app) < Z.to_nat gNumFrameResources)%nat.
Proof.
  unfold BuildConstantBufferViews. change (seqZ 0 gNumFrameResources) with [0; 1; 2].
  change (Z.to_nat gNumFrameResources) with 3%nat.
  unfold vector_at. cbn [fold_left Z.ltb Z.compare Z.to_nat Pos.to_nat Pos.iter_op Nat.add].
  destruct (mFrameResources app) as [|r0 [|r1 [|r2 rest]]]; cbn; split; intros H;
    try reflexivity; try discriminate; try lia.
Qed.

Lemma DrawRenderItems_lookup app ps :
  DrawRenderItems app ps =
  (items ← mapM (fun p => mAllRitems app !! p) ps;
   Some (concat (map (draw_events app) items))).
Proof.
  induction ps as [|p ps IH]; [reflexivity|].
  cbn [DrawRenderItems mapM]. rewrite IH.
  destruct (mAllRitems app !! p) as [ri|]; [|reflexivity]. cbn.
  destruct (mapM _ ps) as [items|]; reflexivity.
Qed.

Lemma tick_static e : static_of (tick e) = static_of e.
Proof. unfold tick, static_of. destruct (0 <? _); reflexivity. Qed.

Lemma map_tick_static l : map static_of (map tick l) = map static_of l.
Proof. rewrite map_map. apply map_ext. intros; apply tick_static. Qed.

(** X6.  A frame ([Update] then [Draw]) writes the frame resource it moves
    to and no other: the other frame resources keep their object buffer and
    their fence value; in the frame resource itself the fence becomes
    [mCurrentFence + 1] and the elements no dirty render item is keyed to
    keep their content.  Of a render item only [NumFramesDirty] changes; the
    opaque list, the descriptor heap, the pass offset and the geometries are
    left alone. *)
Theorem Frame_writes_current_slot_only (app app' : ShapesApp.t) (n : nat) (log : list Event) :
  Inv app -> mCurrentFence app + 1 < 2 ^ 64 ->
  Frame n app = Some (app', log) ->
  (forall f, f <> next_slot app -> mFrameResources app' !! f = mFrameResources app !! f) /\
  (exists fr fr',
     mFrameResources app !! next_slot app = Some fr /\
     mFrameResources app' !! next_slot app = Some fr' /\
     FrameResource.Fence fr' = mCurrentFence app + 1 /\
     forall k,
       Forall (fun e => 0 < RenderItem.NumFramesDirty e -> RenderItem.ObjCBIndex e <> k)
              (mAllRitems app) ->
       FrameResource.ObjectCB fr' !! k = FrameResource.ObjectCB fr !! k) /\
  map static_of (mAllRitems app') = map static_of (mAllRitems app) /\
  mOpaqueRitems app' = mOpaqueRitems app /\
  mCbvHeap app' = mCbvHeap app /\
  mPassCbvOffset app' = mPassCbvOffset app /\
  mGeometries app' = mGeometries app.
Proof.
  intros HI Hb HF.
  destruct (Frame_facts n app HI Hb) as (fr & g & log' & Hfr & HF' & _).
  rewrite HF in HF'. injection HF' as -> ->.
  pose proof (Frame_state_ring app fr g) as Hring.
  split; [|split; [|split; [|repeat split]]].
  - intros f Hf. rewrite Hring. apply list_lookup_insert_ne. congruence.
  - exists fr. eexists. split; [exact Hfr|]. split.
    + rewrite Hring. apply list_lookup_insert_eq. apply lookup_lt_Some in Hfr. exact Hfr.
    + split; [reflexivity|]. intros k Hk. cbn [FrameResource.ObjectCB].
      apply UpdateObjectCBs_loop_untouched. exact Hk.
  - cbn [Frame_state Draw_state Update_state mAllRitems]. apply map_tick_static.
Qed.

Lemma Frame_writes_current_slot_only_witness :
  Frame 0 sample_app = Some sample_frame /\
  mFrameResources (fst sample_frame) !! 0%nat = mFrameResources sample_app !! 0%nat /\
  mFrameResources (fst sample_frame) !! 2%nat = mFrameResources sample_app !! 2%nat /\
  mCbvHeap (fst sample_frame) = mCbvHeap sample_app.
Proof.
  split; [vm_compute; reflexivity|].
  destruct (Frame_writes_current_slot_only sample_app (fst sample_frame) 0 (snd sample_frame))
    as (H1 & _ & _ & _ & H2 & _).
  - exact sample_app_Inv.
  - vm_compute. reflexivity.
  - vm_compute. reflexivity.
  - split; [apply H1; vm_compute; discriminate|].
    split; [apply H1; vm_compute; discriminate|exact H2].
Defined.

(** ** The scene after [Initialize] *)

Lemma Initialize_scene dev shapes worlds fence0 app :
  0 <= fence0 -> fence0 + 1 < 2 ^ 64 ->
  Initialize dev shapes worlds fence0 = Initialized app ->
  exists geo,
    BuildShapeGeometry dev shapes = Ok geo /\
    mGeometries app = {[ "shapeGeo"%string := geo ]} /\
    mAllRitems app = (fold_left (PushRitem worlds geo) scene ([], 0)).1 /\
    mOpaqueRitems app = seq 0 22 /\
    map RenderItem.ObjCBIndex (mAllRitems app) = seqZ 0 22 /\
    mPassCbvOffset app = 66 /\
    DescriptorHeap.NumDescriptors (mCbvHeap app) = 69 /\
    (forall k, DescriptorHeap.views (mCbvHeap app) !! k =
               if (0 <=? k) && (k <? 69) then Some (view_at 22 k) else None).
Proof.
  intros H0 Hb. unfold Initialize.
  destruct (BuildShapeGeometry dev shapes) as [geo|hr] eqn:HG; [|discriminate].
  assert (Hname : MeshGeometry.Name geo = "shapeGeo"%string).
  { revert HG. unfold BuildShapeGeometry, ThrowIfFailed.
    repeat match goal with |- context [FAILED ?hr] => destruct (FAILED hr) end;
      try discriminate. intros [= <-]. reflexivity. }
  rewrite Hname.
  change (<["shapeGeo"%string:=geo]> (mGeometries (Constructed fence0)))
    with (<["shapeGeo"%string:=geo]> (∅ : gmap string MeshGeometry.t)).
  rewrite insert_empty.
  destruct (BuildRenderItems _ _) as [[ritems opaque]|] eqn:HR; [|discriminate].
  destruct (BuildRenderItems_spec _ _ _ _ HR) as (Hlen & Hkeys & Hopq & _).
  assert (Hitems : ritems = (fold_left (PushRitem worlds geo) scene ([], 0)).1).
  { revert HR. unfold BuildRenderItems. rewrite lookup_singleton_eq. cbn [mbind option_bind].
    destruct (fold_left _ scene _) as [items k]. intros [= <- _]. reflexivity. }
  set (pre := ShapesApp.mk _ _ _ _ _ _ _ _ _ _).
  destruct (built_heap_views pre FrameResource.fresh FrameResource.fresh FrameResource.fresh)
    as (app1 & HC & Happ1 & Hn & Hoff & Hobj & Hpass & Hout).
  { reflexivity. }
  { cbn [pre mOpaqueRitems]. rewrite Hopq. vm_compute. reflexivity. }
  cbn [pre mOpaqueRitems] in Hn, Hoff, Hobj, Hpass, Hout. rewrite Hopq in Hn, Hoff, Hobj, Hpass, Hout.
  change (Z.of_nat (length (seq 0 22))) with 22 in *.
  rewrite HC. rewrite FlushCommandQueue_drained.
  - intros [= <-]. exists geo. split; [reflexivity|].
    cbn [mGeometries mAllRitems mOpaqueRitems mPassCbvOffset mCbvHeap
         set_gpu set_mCurrentFence].
    rewrite Hn, Hoff. rewrite Happ1.
    cbn [mGeometries mAllRitems mOpaqueRitems set_mCbvHeap mCbvHeap].
    split; [reflexivity|]. split; [exact Hitems|]. split; [exact Hopq|].
    split; [exact Hkeys|]. split; [reflexivity|]. split; [reflexivity|].
    intros k.
    destruct (0 <=? k) eqn:E1; [|rewrite Hout by lia; reflexivity].
    destruct (k <? 69) eqn:E2; [|rewrite Hout by lia; reflexivity].
    cbn [andb]. apply Z.leb_le in E1. apply Z.ltb_lt in E2.
    unfold view_at. change gNumFrameResources with 3.
    destruct (k <? 3 * 22) eqn:E3.
    + apply Z.ltb_lt in E3.
      pose proof (Z.div_mod k 22 ltac:(lia)) as Hdm.
      pose proof (Z.mod_pos_bound k 22 ltac:(lia)) as Hm.
      assert (0 <= k / 22 < 3).
      { split; [apply Z.div_pos; lia|]. apply Z.div_lt_upper_bound; lia. }
      rewrite <- (Hobj (k / 22) (k mod 22)) by lia. f_equal. lia.
    + apply Z.ltb_ge in E3.
      rewrite <- (Hpass (k - 3 * 22)) by lia. f_equal. lia.
  - rewrite Happ1. reflexivity.
  - rewrite Happ1. cbn. lia.
  - rewrite Happ1. cbn. lia.
Qed.

(** ** What frames leave alone *)

Lemma Frame_static n app app' log :
  Inv app -> mCurrentFence app + 1 < 2 ^ 64 ->
  Frame n app = Some (app', log) ->
  Inv app' /\
  mCurrentFence app' = mCurrentFence app + 1 /\
  map static_of (mAllRitems app') = map static_of (mAllRitems app) /\
  mOpaqueRitems app' = mOpaqueRitems app /\
  mCbvHeap app' = mCbvHeap app /\
  mPassCbvOffset app' = mPassCbvOffset app /\
  mGeometries app' = mGeometries app.
Proof.
  intros HI Hb HF.
  destruct (Frame_facts n app HI Hb) as (fr & g & log' & Hfr & HF' & HI' & _).
  rewrite HF in HF'. injection HF' as -> ->.
  split; [exact HI'|]. split; [reflexivity|]. split; [|repeat split].
  cbn [Frame_state Draw_state Update_state mAllRitems]. apply map_tick_static.
Qed.

Lemma Run_scene inputs : forall app app' tr,
  Inv app -> mCurrentFence app + Z.of_nat (length inputs) < 2 ^ 64 ->
  Run inputs app = Some (app', tr) ->
  Inv app' /\
  mCurrentFence app' = mCurrentFence app + Z.of_nat (length inputs) /\
  map static_of (mAllRitems app') = map static_of (mAllRitems app) /\
  mOpaqueRitems app' = mOpaqueRitems app /\
  mCbvHeap app' = mCbvHeap app /\
  mPassCbvOffset app' = mPassCbvOffset app /\
  mGeometries app' = mGeometries app.
Proof.
  induction inputs as [|n rest IH]; intros app app' tr HI Hb HR.
  - cbn in HR. injection HR as <- <-. cbn. rewrite Z.add_0_r.
    split; [exact HI|]. repeat split.
  - cbn [length] in Hb. rewrite Nat2Z.inj_succ in Hb.
    cbn [Run] in HR.
    destruct (Frame n app) as [[a1 l1]|] eqn:HF; [|discriminate].
    cbn [mbind option_bind] in HR.
    destruct (Run rest a1) as [[a2 t2]|] eqn:HR2; [|discriminate].
    cbn in HR. injection HR as <- <-.
    destruct (Frame_static n app a1 l1 HI ltac:(lia) HF) as (I1 & F1 & S1 & S2 & S3 & S4 & S5).
    destruct (IH a1 a2 t2 I1 ltac:(lia) HR2) as (I2 & F2 & T1 & T2 & T3 & T4 & T5).
    split; [exact I2|]. split; [cbn [length]; lia|].
    split; [congruence|]. split; [congruence|]. split; [congruence|].
    split; congruence.
Qed.

Lemma static_of_fields e e' :
  static_of e = static_of e' ->
  RenderItem.World e = RenderItem.World e' /\
  RenderItem.ObjCBIndex e = RenderItem.ObjCBIndex e' /\
  RenderItem.IndexCount e = RenderItem.IndexCount e' /\
  RenderItem.StartIndexLocation e = RenderItem.StartIndexLocation e' /\
  RenderItem.BaseVertexLocation e = RenderItem.BaseVertexLocation e'.
Proof. destruct e, e'. unfold static_of. cbn. intros [= -> -> -> -> -> -> ->]. repeat split. Qed.

Lemma mapM_lookup_seq {A} (l : list A) :
  mapM (fun p => l !! p) (seq 0 (length l)) = Some l.
Proof.
  apply mapM_Some_2. apply Forall2_same_length_lookup. split.
  - apply length_seq.
  - intros i p y Hp Hy. apply lookup_seq in Hp as [-> _]. exact Hy.
Qed.

Lemma projections_of_draw_events app items :
  object_tables (concat (map (draw_events app) items)) = map (cbvIndex_of app) items /\
  draw_calls (concat (map (draw_events app) items))
  = map (fun ri => (RenderItem.IndexCount ri, RenderItem.StartIndexLocation ri,
                    RenderItem.BaseVertexLocation ri)) items /\
  pass_tables (concat (map (draw_events app) items)) = [] /\
  object_writes (concat (map (draw_events app) items)) = [].
Proof.
  induction items as [|ri items (IH1 & IH2 & IH3 & IH4)]; [repeat split|].
  cbn [map concat]. unfold object_tables, draw_calls, pass_tables, object_writes in *.
  rewrite !omap_app. cbn. rewrite IH1, IH2, IH3, IH4. repeat split.
Qed.

Lemma projections_of_Draw_log app items a c :
  let log := EvSetPassTable a :: concat (map (draw_events app) items)
             ++ [EvExecuteCommandLists; EvPresent; EvSignal c] in
  pass_tables log = [a] /\
  object_tables log = map (cbvIndex_of app) items /\
  draw_calls log
  = map (fun ri => (RenderItem.IndexCount ri, RenderItem.StartIndexLocation ri,
                    RenderItem.BaseVertexLocation ri)) items /\
  object_writes log = [].
Proof.
  cbn zeta. destruct (projections_of_draw_events app items) as (P1 & P2 & P3 & P4).
  change (EvSetPassTable a :: ?l) with ([EvSetPassTable a] ++ l).
  unfold pass_tables, object_tables, draw_calls, object_writes in *.
  rewrite !omap_app, P1, P2, P3, P4. cbn. rewrite !app_nil_r. repeat split.
Qed.

(** The frame a reachable application runs next, command by command. *)
Lemma next_frame dev shapes worlds fence0 app0 app inputs tr n :
  0 <= fence0 ->
  fence0 + 2 + Z.of_nat (length inputs) < 2 ^ 64 ->
  Initialize dev shapes worlds fence0 = Initialized app0 ->
  Run inputs app0 = Some (app, tr) ->
  exists fr g waited u d,
    let f := next_slot app in
    Inv app /\ Inv u /\ Inv d /\
    (f < 3)%nat /\
    mFrameResources app !! f = Some fr /\
    in_order (mCurrentFence app) g /\
    FrameResource.Fence fr <= Gpu.completed g /\
    Gpu.completed (gpu app) <= Gpu.completed g /\
    u = Update_state app f fr g /\
    Update n app =
      Some (u, waited
               ++ map (copy_event f)
                      (List.filter (fun e => 0 <? RenderItem.NumFramesDirty e) (mAllRitems app))
               ++ [EvCopyPassCB f]) /\
    (waited = [] \/ waited = [EvWait (FrameResource.Fence fr)]) /\
    Draw u =
      Some (d, EvSetPassTable (66 + Z.of_nat f)
               :: concat (map (draw_events u) (mAllRitems u))
               ++ [EvExecuteCommandLists; EvPresent; EvSignal (mCurrentFence app + 1)]) /\
    Frame n app = Some (d, waited
               ++ map (copy_event f)
                      (List.filter (fun e => 0 <? RenderItem.NumFramesDirty e) (mAllRitems app))
               ++ [EvCopyPassCB f]
               ++ EvSetPassTable (66 + Z.of_nat f)
               :: concat (map (draw_events u) (mAllRitems u))
               ++ [EvExecuteCommandLists; EvPresent; EvSignal (mCurrentFence app + 1)]) /\
    mCurrentFence app = fence0 + 1 + Z.of_nat (length inputs) /\
    map static_of (mAllRitems app) = map static_of (mAllRitems app0) /\
    map RenderItem.ObjCBIndex (mAllRitems u) = seqZ 0 22 /\
    mOpaqueRitems u = seq 0 22 /\
    mCbvHeap u = mCbvHeap app0 /\
    mGeometries u = mGeometries app0.
Proof.
  intros H0 Hb Hinit HR.
  pose proof (Inv_Initialize _ _ _ _ _ H0 ltac:(lia) Hinit) as I0.
  destruct (Initialize_inv _ _ _ _ _ H0 ltac:(lia) Hinit)
    as (_ & _ & _ & _ & _ & _ & HF0 & _ & _).
  destruct (Initialize_scene _ _ _ _ _ H0 ltac:(lia) Hinit)
    as (geo & HG & Hgeo & Hitems & Hopq & Hkeys & Hoff & Hn & Hviews).
  destruct (Run_scene inputs app0 app tr I0 ltac:(lia) HR)
    as (HI & HF & S1 & S2 & S3 & S4 & S5).
  destruct (Update_spec n app HI) as (fr & g & waited & Hfr & Hw & Hcase & Hdone & Hg & HU & HIu).
  set (f := next_slot app) in *. set (u := Update_state app f fr g) in *.
  assert (Hlt : (f < 3)%nat).
  { apply lookup_lt_Some in Hfr. rewrite (inv_ring _ HI) in Hfr. exact Hfr. }
  assert (Hmono : Gpu.completed (gpu app) <= Gpu.completed g).
  { destruct (wait_if_needed_spec (mCurrentFence app) (FrameResource.Fence fr)
                (Gpu.run n (gpu app)))
      as (g' & waited' & Hw' & _ & _ & Hm & _).
    - apply run_in_order, (inv_gpu _ HI).
    - apply (stamp_bounds app f fr HI Hfr).
    - rewrite Hw in Hw'. injection Hw' as <- <-.
      pose proof (run_monotone _ n _ (inv_gpu _ HI)). lia. }
  assert (HbU : mCurrentFence u + 1 < 2 ^ 64) by (cbn; lia).
  destruct (Draw_spec u f HIu HbU eq_refl) as (fr1 & drawn & Hfr1 & Hd & HD & HId).
  assert (Hkeysu : map RenderItem.ObjCBIndex (mAllRitems u) = seqZ 0 22).
  { cbn [mAllRitems u Update_state]. rewrite <- Hkeys.
    transitivity (map RenderItem.ObjCBIndex (map static_of (mAllRitems app))).
    - rewrite !map_map. apply map_ext. intros e. rewrite tick_ObjCBIndex. reflexivity.
    - rewrite S1, map_map. reflexivity. }
  assert (Hopu : mOpaqueRitems u = seq 0 22) by (cbn; rewrite S2; exact Hopq).
  assert (Hlenu : length (mAllRitems u) = 22%nat).
  { rewrite <- (length_map RenderItem.ObjCBIndex), Hkeysu. reflexivity. }
  assert (Hdrawn : drawn = concat (map (draw_events u) (mAllRitems u))).
  { rewrite DrawRenderItems_lookup, Hopu in Hd.
    change 22%nat with (length (seqZ 0 22)) in Hd. rewrite <- Hkeysu, length_map in Hd.
    rewrite mapM_lookup_seq in Hd. cbn in Hd. injection Hd as <-. reflexivity. }
  assert (Hpass : passHeapIndex (mPassCbvOffset u) (mCurrFrameResourceIndex u)
                  = 66 + Z.of_nat f).
  { change (mPassCbvOffset u) with (mPassCbvOffset app). rewrite S4, Hoff.
    change (mCurrFrameResourceIndex u) with (Z.of_nat f).
    apply passHeapIndex_small; lia. }
  rewrite Hpass, Hdrawn in HD. change (mCurrentFence u) with (mCurrentFence app) in HD.
  exists fr, g, waited, u, (Draw_state u f fr1). cbn zeta.
  split; [exact HI|]. split; [exact HIu|]. split; [exact HId|]. split; [exact Hlt|].
  split; [exact Hfr|]. split; [exact Hg|]. split; [exact Hdone|]. split; [exact Hmono|].
  split; [reflexivity|]. split; [exact HU|].
  split. { destruct Hcase as [(-> & _)|(-> & _)]; auto. }
  split; [exact HD|]. split.
  { unfold Frame. rewrite HU. cbn [mbind option_bind]. rewrite HD. cbn [mbind option_bind].
    rewrite <- !app_assoc. reflexivity. }
  split; [lia|]. split; [exact S1|]. split; [exact Hkeysu|]. split; [exact Hopu|].
  split; [exact S3|exact S5].
Qed.

Lemma view_at_object f k : 0 <= f < 3 -> 0 <= k < 22 -> view_at 22 (f * 22 + k) = ObjectCBV f k.
Proof.
  intros Hf Hk. unfold view_at. change gNumFrameResources with 3.
  destruct (f * 22 + k <? 3 * 22) eqn:E; [|apply Z.ltb_ge in E; lia].
  f_equal.
  - symmetry. apply (Z.div_unique _ _ _ k); lia.
  - symmetry. apply (Z.mod_unique _ _ f k); lia.
Qed.

Lemma key_in_range (l : list RenderItem.t) ri :
  map RenderItem.ObjCBIndex l = seqZ 0 22 -> ri ∈ l -> 0 <= RenderItem.ObjCBIndex ri < 22.
Proof.
  intros Hk Hri. apply list_elem_of_lookup in Hri as [p Hp].
  assert (H : map RenderItem.ObjCBIndex l !! p = Some (RenderItem.ObjCBIndex ri)).
  { change (map ?f ?l) with (f <$> l). now rewrite list_lookup_fmap, Hp. }
  rewrite Hk in H. apply lookup_seqZ in H. lia.
Qed.

Lemma cbvIndex_of_small u ri :
  0 <= mCurrFrameResourceIndex u < 3 -> mOpaqueRitems u = seq 0 22 ->
  0 <= RenderItem.ObjCBIndex ri < 22 ->
  cbvIndex_of u ri = mCurrFrameResourceIndex u * 22 + RenderItem.ObjCBIndex ri.
Proof.
  intros Hf Ho Hk. unfold cbvIndex_of. rewrite Ho. change (size_UINT (seq 0 22)) with 22.
  rewrite (UINT_small (mCurrFrameResourceIndex u)),
    (UINT_small (mCurrFrameResourceIndex u * 22)), UINT_small; lia.
Qed.

(** X4.  In every state the application reaches, the descriptors [Draw]
    binds are views of the frame resource [Update] has just written: the
    pass table is the pass view of the current frame index, the object table
    bound for a render item is the view of element [ObjCBIndex] of the
    current frame resource's object buffer, and every copy [Update] made
    went to the current frame resource, to the element of a render item and
    inside the buffer of [(UINT)mAllRitems.size()] elements, with that
    item's transposed world matrix. *)
Theorem Draw_binds_current_frame_views (dev : Device) (shapes : Shapes)
    (worlds : string -> XMFLOAT4X4) (fence0 : Z) (app0 app u d : ShapesApp.t)
    (inputs : list nat) (tr : list (Z * list Event)) (n : nat) (ulog dlog : list Event) :
  0 <= fence0 ->
  fence0 + 2 + Z.of_nat (length inputs) < 2 ^ 64 ->
  Initialize dev shapes worlds fence0 = Initialized app0 ->
  Run inputs app0 = Some (app, tr) ->
  Update n app = Some (u, ulog) ->
  Draw u = Some (d, dlog) ->
  let f := mCurrFrameResourceIndex u in
  let view i := DescriptorHeap.views (mCbvHeap u) !! i in
  mCurrFrameResource u = Some (Z.to_nat f) /\
  map view (pass_tables dlog) = [Some (PassCBV f)] /\
  map view (object_tables dlog)
    = map (fun ri => Some (ObjectCBV f (RenderItem.ObjCBIndex ri))) (mAllRitems u) /\
  Forall (fun w => w.1.1 = Z.to_nat f /\
                   0 <= w.1.2 < size_UINT (mAllRitems u) /\
                   exists ri, ri ∈ mAllRitems u /\ RenderItem.ObjCBIndex ri = w.1.2 /\
                              uniform_of ri = w.2)
         (object_writes ulog).
Proof.
  intros H0 Hb Hinit HR HU HD f view.
  destruct (Initialize_scene _ _ _ _ _ H0 ltac:(lia) Hinit)
    as (geo & _ & _ & _ & _ & _ & _ & _ & Hviews).
  destruct (next_frame _ _ _ _ _ _ _ _ n H0 Hb Hinit HR)
    as (fr & g & waited & u' & d' & HI & HIu & _ & Hlt & _ & _ & _ & _ & Eu & HU' & Hwaited
        & HD' & _ & _ & _ & Hkeys & Hopq & Hheap & _).
  cbn zeta in *. rewrite HU in HU'. injection HU' as <- ->.
  rewrite HD in HD'. injection HD' as _ ->.
  assert (Hf : f = Z.of_nat (next_slot app)) by (unfold f; rewrite Eu; reflexivity).
  assert (Hf3 : 0 <= f < 3) by lia.
  assert (Hview : forall k, 0 <= k < 69 -> view k = Some (view_at 22 k)).
  { intros k Hk. unfold view. rewrite Hheap, Hviews.
    destruct (0 <=? k) eqn:E1; [|apply Z.leb_gt in E1; lia].
    destruct (k <? 69) eqn:E2; [reflexivity|apply Z.ltb_ge in E2; lia]. }
  destruct (projections_of_Draw_log u (mAllRitems u) (66 + Z.of_nat (next_slot app))
              (mCurrentFence app + 1)) as (Pp & Pt & _).
  cbn zeta in Pp, Pt.
  split; [rewrite Eu, Hf, Nat2Z.id; reflexivity|]. split; [|split].
  - rewrite Pp. cbn [map]. rewrite <- Hf, Hview by lia. do 2 f_equal.
    unfold view_at. change gNumFrameResources with 3.
    destruct (66 + f <? 3 * 22) eqn:E; [apply Z.ltb_lt in E; lia|]. f_equal. lia.
  - rewrite Pt.
    rewrite map_map. apply map_ext_in. intros ri Hri.
    apply list_elem_of_In in Hri. pose proof (key_in_range _ _ Hkeys Hri) as Hk.
    rewrite (cbvIndex_of_small u ri Hf3 Hopq Hk). fold f.
    rewrite Hview by lia. f_equal. apply view_at_object; lia.
  - destruct (copies_projections (next_slot app)
                (List.filter (fun e => 0 <? RenderItem.NumFramesDirty e) (mAllRitems app)))
      as (_ & _ & _ & Pw).
    assert (Hw : object_writes waited = []) by (destruct Hwaited as [-> | ->]; reflexivity).
    unfold object_writes in *. rewrite !omap_app, Hw, Pw. cbn. rewrite app_nil_r.
    apply Forall_map, Forall_forall. intros e He. cbn.
    split; [rewrite Hf, Nat2Z.id; reflexivity|].
    assert (Hin : tick e ∈ mAllRitems u).
    { rewrite Eu. cbn [mAllRitems Update_state].
      apply list_elem_of_In in He. apply filter_In in He as [He _].
      apply list_elem_of_In. apply in_map. exact He. }
    split.
    + pose proof (key_in_range _ _ Hkeys Hin) as Hk. rewrite tick_ObjCBIndex in Hk.
      assert (Hsz : size_UINT (mAllRitems u) = 22).
      { unfold size_UINT. rewrite <- (length_map RenderItem.ObjCBIndex), Hkeys. reflexivity. }
      rewrite Hsz. exact Hk.
    + exists (tick e). split; [exact Hin|]. split; [apply tick_ObjCBIndex|apply tick_uniform].
Qed.

(** ** Frames in flight *)

Lemma Frame_gpu n app :
  Inv app -> mCurrentFence app + 1 < 2 ^ 64 ->
  exists fr g log,
    mFrameResources app !! next_slot app = Some fr /\
    Frame n app = Some (Frame_state app fr g, log) /\
    Inv (Frame_state app fr g) /\
    in_order (mCurrentFence app) g /\
    FrameResource.Fence fr <= Gpu.completed g /\
    Gpu.completed (gpu app) <= Gpu.completed g.
Proof.
  intros HI Hb.
  destruct (Frame_spec n app HI Hb) as (fr & g & waited & drawn & Hfr & Hw & _ & _ & HF & HI').
  destruct (wait_if_needed_spec (mCurrentFence app) (FrameResource.Fence fr)
              (Gpu.run n (gpu app)))
    as (g' & waited' & Hw' & Hord & Hdone & Hm & _).
  - apply run_in_order, (inv_gpu _ HI).
  - apply (stamp_bounds app _ fr HI Hfr).
  - rewrite Hw in Hw'. injection Hw' as <- <-.
    pose proof (run_monotone _ n _ (inv_gpu _ HI)).
    exists fr, g. eexists. split; [exact Hfr|]. split; [exact HF|].
    split; [exact HI'|]. split; [exact Hord|]. split; [exact Hdone|lia].
Qed.

Lemma ring_steps i k :
  0 <= i < 3 -> 1 <= k <= 3 ->
  ((i + 1) mod 3 + k) mod 3 = (i + (k + 1)) mod 3 /\
  (k < 3 -> Z.to_nat ((i + (k + 1)) mod 3) <> Z.to_nat ((i + 1) mod 3)) /\
  (i + 3) mod 3 = i /\ ((i + 1) mod 3 + 3) mod 3 = (i + 1) mod 3.
Proof.
  intros Hi Hk.
  assert (i = 0 \/ i = 1 \/ i = 2) as [-> | [-> | ->]] by lia;
  assert (k = 1 \/ k = 2 \/ k = 3) as [-> | [-> | ->]] by lia;
  vm_compute; repeat split; intros; try congruence; try lia.
Qed.

Lemma Paced_Frame_state app fr g :
  Inv app -> Paced app -> frames_in_flight app <= 3 ->
  mFrameResources app !! next_slot app = Some fr ->
  FrameResource.Fence fr <= Gpu.completed g ->
  Gpu.completed (gpu app) <= Gpu.completed g ->
  mCurrentFence app - Gpu.completed g <= 2 /\
  Paced (Frame_state app fr g) /\
  frames_in_flight (Frame_state app fr g) <= 3.
Proof.
  intros HI HP Hlag Hfr Hdone Hmono.
  pose proof (inv_index _ HI) as Hi. change gNumFrameResources with 3 in Hi.
  assert (Hclose : mCurrentFence app - Gpu.completed g <= 2).
  { specialize (HP 1 fr ltac:(lia)). change gNumFrameResources with 3 in HP.
    unfold next_slot in Hfr. change gNumFrameResources with 3 in Hfr.
    specialize (HP Hfr). lia. }
  split; [exact Hclose|]. split.
  - intros k fr' Hk. rewrite Frame_state_index by exact HI.
    rewrite Frame_state_ring. change gNumFrameResources with 3.
    unfold next_slot. change gNumFrameResources with 3.
    destruct (ring_steps _ k Hi Hk) as (E1 & E2 & E3 & E4). rewrite E1.
    change (mCurrentFence (Frame_state app fr g)) with (mCurrentFence app + 1).
    change (Gpu.completed (gpu (Frame_state app fr g))) with (Gpu.completed g).
    destruct (decide (k = 3)) as [->|Hk3].
    + change (3 + 1) with 4.
      replace ((mCurrFrameResourceIndex app + 4) mod 3)
        with ((mCurrFrameResourceIndex app + 1) mod 3).
      2:{ replace (mCurrFrameResourceIndex app + 4)
            with (mCurrFrameResourceIndex app + 1 + 1 * 3) by lia.
          now rewrite Z.mod_add. }
      rewrite list_lookup_insert_eq.
      * intros [= <-]. cbn. lia.
      * apply lookup_lt_Some in Hfr. exact Hfr.
    + rewrite list_lookup_insert_ne by (intros E; apply (E2 ltac:(lia)); congruence).
      intros Hl.
      specialize (HP (k + 1) fr' ltac:(lia)). change gNumFrameResources with 3 in HP.
      specialize (HP Hl). lia.
  - unfold frames_in_flight. cbn. lia.
Qed.

Lemma Run_paced inputs : forall app app' tr,
  Inv app -> Paced app -> frames_in_flight app <= 3 ->
  mCurrentFence app + Z.of_nat (length inputs) < 2 ^ 64 ->
  Run inputs app = Some (app', tr) ->
  Paced app' /\ frames_in_flight app' <= 3.
Proof.
  induction inputs as [|n rest IH]; intros app app' tr HI HP Hlag Hb HR.
  - cbn in HR. injection HR as <- <-. split; assumption.
  - cbn [length] in Hb. rewrite Nat2Z.inj_succ in Hb.
    destruct (Frame_gpu n app HI ltac:(lia)) as (fr & g & log & Hfr & HF & HI' & _ & Hd & Hm).
    destruct (Paced_Frame_state app fr g HI HP Hlag Hfr Hd Hm) as (_ & HP' & Hlag').
    cbn [Run] in HR. rewrite HF in HR. cbn [mbind option_bind] in HR.
    destruct (Run rest _) as [[a2 t2]|] eqn:HR2; [|discriminate].
    cbn in HR. injection HR as <- <-.
    apply (IH _ a2 t2 HI' HP' Hlag'); [cbn; lia|exact HR2].
Qed.

(** X7.  The ring paces the CPU.  Whatever progress the GPU makes, between
    frames at most [gNumFrameResources] = 3 submitted frames are not
    completed yet; once [Update] has passed its fence test at most 2 are, so
    the frame resource it then writes is not in use; and the signals still
    queued are as many as the frames in flight. *)
Theorem at_most_three_frames_in_flight (dev : Device) (shapes : Shapes)
    (worlds : string -> XMFLOAT4X4) (fence0 : Z) (app0 app u d : ShapesApp.t)
    (inputs : list nat) (tr : list (Z * list Event)) (n : nat) (ulog dlog : list Event) :
  0 <= fence0 ->
  fence0 + 2 + Z.of_nat (length inputs) < 2 ^ 64 ->
  Initialize dev shapes worlds fence0 = Initialized app0 ->
  Run inputs app0 = Some (app, tr) ->
  Update n app = Some (u, ulog) ->
  Draw u = Some (d, dlog) ->
  0 <= frames_in_flight app <= 3 /\
  0 <= frames_in_flight u <= 2 /\
  0 <= frames_in_flight d <= 3 /\
  Z.of_nat (length (Gpu.pending (gpu d))) = frames_in_flight d.
Proof.
  intros H0 Hb Hinit HR HU HD.
  pose proof (Inv_Initialize _ _ _ _ _ H0 ltac:(lia) Hinit) as I0.
  destruct (Initialize_inv _ _ _ _ _ H0 ltac:(lia) Hinit)
    as (_ & _ & _ & _ & _ & _ & HF0 & Hg0 & _).
  assert (P0 : Paced app0).
  { intros k fr Hk _. rewrite Hg0, HF0. cbn. lia. }
  assert (L0 : frames_in_flight app0 <= 3).
  { unfold frames_in_flight. rewrite Hg0, HF0. cbn. lia. }
  destruct (Run_scene inputs app0 app tr I0 ltac:(lia) HR) as (HI & HF & _).
  destruct (Run_paced inputs app0 app tr I0 P0 L0 ltac:(lia) HR) as (HP & Hlag).
  destruct (next_frame _ _ _ _ _ _ _ _ n H0 Hb Hinit HR)
    as (fr & g & waited & u' & d' & _ & HIu & HId & _ & Hfr & Hord & Hdone & Hmono & Eu & HU'
        & _ & HD' & _).
  cbn zeta in *. rewrite HU in HU'. injection HU' as <- _.
  rewrite HD in HD'. injection HD' as <- _.
  destruct (Paced_Frame_state app fr g HI HP Hlag Hfr Hdone Hmono) as (Hclose & _ & _).
  pose proof (inv_gpu _ HI) as (Hc & _).
  pose proof (inv_gpu _ HIu) as (Hcu & _).
  pose proof (inv_gpu _ HId) as (Hcd & Hpd).
  assert (Eg : Gpu.completed (gpu u) = Gpu.completed g) by (rewrite Eu; reflexivity).
  assert (Ef : mCurrentFence u = mCurrentFence app) by (rewrite Eu; reflexivity).
  unfold frames_in_flight in *. rewrite Eg, Ef in *.
  split; [lia|]. split; [lia|].
  destruct (Draw_spec u _ HIu ltac:(rewrite Ef; lia) ltac:(rewrite Eu; reflexivity))
    as (fr1 & drawn & _ & _ & HD2 & _).
  rewrite HD in HD2. injection HD2 as -> _.
  cbn [mCurrentFence gpu Draw_state Gpu.Signal Gpu.completed Gpu.pending] in *.
  rewrite Eg, Ef in *. split; [lia|].
  rewrite Hpd, length_seqZ. lia.
Qed.

(** ** The scene settles *)

Lemma ring_back i k :
  0 <= i < 3 -> 1 <= k < 3 ->
  ((i + 1) mod 3 - k) mod 3 = (i - (k - 1)) mod 3 /\
  Z.to_nat ((i - (k - 1)) mod 3) <> Z.to_nat ((i + 1) mod 3) /\
  ((i + 1) mod 3 - 0) mod 3 = (i + 1) mod 3.
Proof.
  intros Hi Hk.
  assert (i = 0 \/ i = 1 \/ i = 2) as [-> | [-> | ->]] by lia;
  assert (k = 1 \/ k = 2) as [-> | ->] by lia;
  vm_compute; repeat split; intros; try congruence; try lia.
Qed.

Lemma ring_all i f :
  0 <= i < 3 -> (f < 3)%nat ->
  exists k, 0 <= k < 3 /\ f = Z.to_nat ((i - k) mod 3).
Proof.
  intros Hi Hf.
  assert (i = 0 \/ i = 1 \/ i = 2) as [-> | [-> | ->]] by lia;
  assert (f = 0 \/ f = 1 \/ f = 2)%nat as [-> | [-> | ->]] by lia;
  first [ exists 0; split; [lia|reflexivity]
        | exists 1; split; [lia|reflexivity]
        | exists 2; split; [lia|reflexivity] ].
Qed.

Lemma Warm_Frame n app j :
  Inv app -> mCurrentFence app + 1 < 2 ^ 64 ->
  NoDup (map RenderItem.ObjCBIndex (mAllRitems app)) ->
  0 <= j <= 3 -> Warm j app ->
  exists app' log,
    Frame n app = Some (app', log) /\ Inv app' /\
    mCurrentFence app' = mCurrentFence app + 1 /\
    NoDup (map RenderItem.ObjCBIndex (mAllRitems app')) /\
    length (mAllRitems app') = length (mAllRitems app) /\
    Warm (Z.min 3 (j + 1)) app' /\
    length (object_writes log) = (if j <? 3 then length (mAllRitems app) else 0%nat).
Proof.
  intros HI Hb Hnd Hj [Hdirty Hheld]. unfold Warm.
  change gNumFrameResources with 3 in *.
  destruct (Frame_facts n app HI Hb) as (fr & g & log & Hfr & HF & HI' & _ & _ & _ & Hw & _).
  pose proof (Frame_state_ring app fr g) as Hring.
  pose proof (Frame_state_index app fr g HI) as Hidx. change gNumFrameResources with 3 in Hidx.
  pose proof (inv_index _ HI) as Hi. change gNumFrameResources with 3 in Hi.
  set (app' := Frame_state app fr g) in *.
  assert (Hitems : mAllRitems app' = map tick (mAllRitems app)) by reflexivity.
  exists app', log. split; [exact HF|]. split; [exact HI'|]. split; [reflexivity|].
  split.
  { rewrite Hitems, map_map.
    erewrite map_ext; [exact Hnd|]. intros e. apply tick_ObjCBIndex. }
  split; [rewrite Hitems; apply length_map|].
  destruct (j <? 3) eqn:Ej.
  - apply Z.ltb_lt in Ej. rewrite Z.min_r by lia. split; [split|].
    + rewrite Hitems. apply Forall_map. eapply Forall_impl; [exact Hdirty|].
      intros e He. cbv beta in *. rewrite tick_dirty; lia.
    + intros i fr' e' Hi' Hl He'. rewrite Hidx in Hl. rewrite Hring in Hl.
      rewrite Hitems in He'. apply list_elem_of_fmap in He' as (e & -> & He).
      rewrite tick_ObjCBIndex, tick_uniform.
      destruct (decide (i = 0)) as [->|Hne].
      * rewrite Z.sub_0_r, Z.mod_mod in Hl by lia.
        unfold next_slot in Hl. change gNumFrameResources with 3 in Hl.
        rewrite list_lookup_insert_eq in Hl
          by (apply lookup_lt_Some in Hfr; exact Hfr).
        injection Hl as <-. cbn [FrameResource.ObjectCB].
        apply list_elem_of_lookup in He as [p Hp].
        apply (UpdateObjectCBs_loop_written _ _ _ p e).
        -- apply NoDup_sole_owner; assumption.
        -- rewrite Forall_forall in Hdirty.
           rewrite (Hdirty e) by (eapply list_elem_of_lookup_2; exact Hp). lia.
      * destruct (ring_back (mCurrFrameResourceIndex app) i Hi ltac:(lia)) as (E1 & E2 & _).
        rewrite E1 in Hl. unfold next_slot in Hl. change gNumFrameResources with 3 in Hl.
        rewrite list_lookup_insert_ne in Hl by congruence.
        apply (Hheld (i - 1) fr' e); [lia|exact Hl|exact He].
    + rewrite Hw. rewrite length_map. f_equal.
      clear -Hdirty Ej Hj. induction (mAllRitems app) as [|e l IH]; [reflexivity|].
      apply Forall_cons in Hdirty as [He Hl]. cbn [List.filter].
      destruct (0 <? RenderItem.NumFramesDirty e) eqn:E; [|apply Z.ltb_ge in E; lia].
      cbn. f_equal. apply IH, Hl.
  - apply Z.ltb_ge in Ej. assert (j = 3) as -> by lia. change (Z.min 3 (3 + 1)) with 3.
    assert (Hclean : Forall (fun e => RenderItem.NumFramesDirty e <= 0) (mAllRitems app)).
    { eapply Forall_impl; [exact Hdirty|]. intros e He. cbn in He. lia. }
    assert (Hsame : mAllRitems app' = mAllRitems app).
    { rewrite Hitems. clear -Hclean. induction Hclean as [|e l He _ IH]; [reflexivity|].
      cbn. rewrite tick_clean by exact He. f_equal. exact IH. }
    split; [split|].
    + rewrite Hsame. exact Hdirty.
    + intros i fr' e Hi' Hl He. rewrite Hsame in He. rewrite Hring in Hl.
      rewrite (UpdateObjectCBs_loop_clean _ _ _ Hclean) in Hl. cbn [fst snd] in Hl.
      apply lookup_lt_Some in Hl as Hlt. rewrite length_insert, (inv_ring _ HI) in Hlt.
      change (Z.to_nat gNumFrameResources) with 3%nat in Hlt.
      set (f := Z.to_nat ((mCurrFrameResourceIndex app' - i) mod 3)) in *.
      destruct (ring_all (mCurrFrameResourceIndex app) f Hi Hlt) as (k & Hk & Hfk).
      destruct (decide (f = next_slot app)) as [Ef|Ef].
      * rewrite Ef in Hl. rewrite list_lookup_insert_eq in Hl
          by (apply lookup_lt_Some in Hfr; exact Hfr).
        injection Hl as <-. cbn [FrameResource.ObjectCB].
        rewrite Ef in Hfk. rewrite Hfk in Hfr.
        apply (Hheld k fr e Hk Hfr He).
      * rewrite list_lookup_insert_ne in Hl by congruence.
        rewrite Hfk in Hl. apply (Hheld k fr' e Hk Hl He).
    + rewrite Hw, length_map.
      clear -Hclean. induction Hclean as [|e l He _ IH]; [reflexivity|].
      cbn [List.filter]. destruct (0 <? RenderItem.NumFramesDirty e) eqn:E;
        [apply Z.ltb_lt in E; lia|exact IH].
Qed.

Lemma Run_warm inputs : forall app j app' tr,
  Inv app -> mCurrentFence app + Z.of_nat (length inputs) < 2 ^ 64 ->
  NoDup (map RenderItem.ObjCBIndex (mAllRitems app)) ->
  0 <= j <= 3 -> Warm j app ->
  Run inputs app = Some (app', tr) ->
  Inv app' /\
  Warm (Z.min 3 (j + Z.of_nat (length inputs))) app' /\
  Forall (fun p => length (object_writes (snd p)) = length (mAllRitems app))
         (take (Z.to_nat (3 - j)) tr) /\
  Forall (fun p => object_writes (snd p) = []) (drop (Z.to_nat (3 - j)) tr).
Proof.
  induction inputs as [|n rest IH]; intros app j app' tr HI Hb Hnd Hj HW HR.
  - cbn in HR. injection HR as <- <-. cbn [length]. rewrite Z.add_0_r, Z.min_r by lia.
    split; [exact HI|]. split; [exact HW|]. rewrite take_nil, drop_nil. split; constructor.
  - cbn [length] in Hb |- *. rewrite Nat2Z.inj_succ in Hb |- *.
    destruct (Warm_Frame n app j HI ltac:(lia) Hnd Hj HW)
      as (a1 & l1 & HF & I1 & F1 & N1 & L1 & W1 & Hw).
    cbn [Run] in HR. rewrite HF in HR. cbn [mbind option_bind] in HR.
    destruct (Run rest a1) as [[a2 t2]|] eqn:HR2; [|discriminate].
    cbn in HR. injection HR as <- <-.
    destruct (IH a1 (Z.min 3 (j + 1)) a2 t2 I1 ltac:(lia) N1 ltac:(lia) W1 HR2)
      as (I2 & W2 & T2 & D2).
    split; [exact I2|]. split.
    { replace (Z.min 3 (j + Z.succ (Z.of_nat (length rest))))
        with (Z.min 3 (Z.min 3 (j + 1) + Z.of_nat (length rest))) by lia. exact W2. }
    rewrite L1 in T2.
    destruct (j <? 3) eqn:Ej.
    + apply Z.ltb_lt in Ej. rewrite Z.min_r in T2, D2 by lia.
      replace (Z.to_nat (3 - j)) with (S (Z.to_nat (3 - (j + 1)))) by lia.
      cbn [take drop]. split; [|exact D2]. constructor; [exact Hw|exact T2].
    + apply Z.ltb_ge in Ej. assert (j = 3) as -> by lia.
      change (Z.min 3 (3 + 1)) with 3 in *. change (Z.to_nat (3 - 3)) with 0%nat in *.
      rewrite take_0, drop_0 in *. split; [constructor|].
      constructor; [|exact D2]. cbn [snd]. apply length_zero_iff_nil. exact Hw.
Qed.

(** X9.  After [Initialize], each of the first three frames copies the
    object constants of all 22 render items, and every later frame copies
    none.  From the third frame on every [NumFramesDirty] is 0 and every
    frame resource holds, for every render item, its transposed world matrix
    in the element the item is keyed to. *)
Theorem scene_settles_in_three_frames (dev : Device) (shapes : Shapes)
    (worlds : string -> XMFLOAT4X4) (fence0 : Z) (app0 app : ShapesApp.t)
    (inputs : list nat) (tr : list (Z * list Event)) :
  0 <= fence0 ->
  fence0 + 1 + Z.of_nat (length inputs) < 2 ^ 64 ->
  Initialize dev shapes worlds fence0 = Initialized app0 ->
  Run inputs app0 = Some (app, tr) ->
  Forall (fun p => length (object_writes (snd p)) = 22%nat) (take 3 tr) /\
  Forall (fun p => object_writes (snd p) = []) (drop 3 tr) /\
  ((3 <= length inputs)%nat ->
   Forall (fun e => RenderItem.NumFramesDirty e = 0) (mAllRitems app) /\
   forall f fr e,
     mFrameResources app !! f = Some fr -> e ∈ mAllRitems app ->
     FrameResource.ObjectCB fr !! RenderItem.ObjCBIndex e = Some (uniform_of e)).
Proof.
  intros H0 Hb Hinit HR.
  pose proof (Inv_Initialize _ _ _ _ _ H0 ltac:(lia) Hinit) as I0.
  destruct (Initialize_inv _ _ _ _ _ H0 ltac:(lia) Hinit)
    as (geo & _ & HB & _ & _ & _ & HF0 & _ & _).
  destruct (BuildRenderItems_spec _ _ _ _ HB) as (Hlen & Hkeys & _ & Hdirty).
  assert (Hnd : NoDup (map RenderItem.ObjCBIndex (mAllRitems app0)))
    by (rewrite Hkeys; apply NoDup_seqZ).
  assert (W0 : Warm 0 app0).
  { split; [|intros; lia]. eapply Forall_impl; [exact Hdirty|].
    intros e He. cbv beta in *. lia. }
  destruct (Run_warm inputs app0 0 app tr I0 ltac:(lia) Hnd ltac:(lia) W0 HR)
    as (HI & [Wd Wh] & T & D).
  rewrite Hlen in T. change (Z.to_nat (3 - 0)) with 3%nat in *.
  split; [exact T|]. split; [exact D|]. intros H3.
  rewrite Z.min_l in Wd, Wh by lia. change gNumFrameResources with 3 in *. split.
  - eapply Forall_impl; [exact Wd|]. intros e He. cbv beta in *. lia.
  - intros f fr e Hf He.
    assert (Hlt : (f < 3)%nat).
    { apply lookup_lt_Some in Hf. rewrite (inv_ring _ HI) in Hf. exact Hf. }
    pose proof (inv_index _ HI) as Hi. change gNumFrameResources with 3 in Hi.
    destruct (ring_all (mCurrFrameResourceIndex app) f Hi Hlt) as (k & Hk & ->).
    apply (Wh k fr e Hk Hf He).
Qed.

(** ** Draw calls *)





(** ** Index width *)

Lemma layout_bases l : forall vo io,
  0 <= vo ->
  Forall (fun sub => 0 <= SubmeshGeometry.BaseVertexLocation (snd sub)) (layout vo io l).
Proof.
  induction l as [|[[name m] c] l IH]; intros vo io Hvo; cbn [layout]; constructor.
  - exact Hvo.
  - apply IH. unfold nverts. lia.
Qed.

Lemma take_drop_lookup {A} (l part : list A) (n s j : nat) x :
  take n (drop s l) = part -> part !! j = Some x -> l !! (s + j)%nat = Some x.
Proof.
  intros <- H. apply lookup_take_Some in H as [H _]. rewrite lookup_drop in H. exact H.
Qed.

(** X11.  For a mesh of at most 65536 vertices the narrowing to 16-bit
    indices loses nothing: the index buffer holds, from the
    [StartIndexLocation] of its submesh on, the very indices of the mesh,
    and [BaseVertexLocation] plus such an index is the position, in the
    vertex buffer, of the vertex the mesh meant, painted with the colour of
    its shape.  (Offsets below 2^31; the other meshes can be of any size.) *)
Theorem short_meshes_keep_their_indices (dev : Device) (s : Shapes) (geo : MeshGeometry.t) :
  total_vertices s < 2 ^ 31 ->
  total_indices s < 2 ^ 31 ->
  Forall (fun p => mesh_wf (snd (fst p))) (shape_list s) ->
  BuildShapeGeometry dev s = Ok geo ->
  Forall2 (fun p sub =>
      let m := snd (fst p) in
      let sm := snd sub in
      nverts m <= 2 ^ 16 ->
      forall j i v,
        GeometryGenerator.Indices32 m !! j = Some i ->
        GeometryGenerator.Vertices m !! Z.to_nat i = Some v ->
        MeshGeometry.IndexBufferCPU geo
          !! (Z.to_nat (SubmeshGeometry.StartIndexLocation sm) + j)%nat = Some i /\
        MeshGeometry.VertexBufferCPU geo
          !! Z.to_nat (SubmeshGeometry.BaseVertexLocation sm + i) = Some (paint (snd p) v))
    (shape_list s) (BuildSubmeshes s).
Proof.
  intros Hv Hi Hwf Hok.
  destruct (BuildShapeGeometry_Ok _ _ _ Hok) as (Ev & Ei & _ & _).
  rewrite Ev, Ei, BuildVertices_packed, BuildIndices_packed by lia.
  rewrite (BuildSubmeshes_layout s Hv Hi).
  pose proof (layout_ok (shape_list s) [] [] Hwf) as Hok2. cbn [app length] in Hok2.
  change (Z.of_nat 0) with 0 in Hok2.
  pose proof (layout_bases (shape_list s) 0 0 ltac:(lia)) as Hbase.
  rewrite Forall_forall in Hwf.
  apply Forall2_same_length_lookup. split; [apply (Forall2_length _ _ _ Hok2)|].
  intros k p sub Hp Hsub.
  destruct (Forall2_lookup_lr _ _ _ _ _ _ Hok2 Hp Hsub) as (_ & Hidx & Hvert & _).
  rewrite Forall_lookup in Hbase. specialize (Hbase k sub Hsub). cbn beta in Hbase.
  pose proof (Hwf p (list_elem_of_lookup_2 _ _ _ Hp)) as Hm. unfold mesh_wf in Hm.
  rewrite Forall_lookup in Hm.
  intros m sm Hshort j i v Hj Hvi. specialize (Hm j i Hj). cbn beta in Hm.
  fold m in Hidx, Hvert, Hm. fold sm in Hidx, Hvert, Hbase.
  split.
  - apply (take_drop_lookup _ _ _ _ _ _ Hidx).
    unfold GeometryGenerator.GetIndices16.
    change (map ?f ?l) with (f <$> l). rewrite list_lookup_fmap, Hj. cbn.
    f_equal. unfold uint16_t. apply Z.mod_small. lia.
  - replace (Z.to_nat (SubmeshGeometry.BaseVertexLocation sm + i))
      with (Z.to_nat (SubmeshGeometry.BaseVertexLocation sm) + Z.to_nat i)%nat by lia.
    apply (take_drop_lookup _ _ _ _ _ _ Hvert).
    change (map ?f ?l) with (f <$> l). rewrite list_lookup_fmap, Hvi. reflexivity.
Qed.

(** ** Buffer sizes *)

Lemma PackVertices_length color src : forall k vertices,
  length (PackVertices color src k vertices).2 = length vertices.
Proof.
  induction src as [|v rest IH]; intros k vertices; [reflexivity|].
  cbn [PackVertices]. rewrite IH. apply length_insert.
Qed.

Lemma BuildVertices_length s : Z.of_nat (length (BuildVertices s)) = total_vertices s.
Proof.
  unfold BuildVertices.
  repeat match goal with
         | |- context [PackVertices ?c ?src ?k ?v] =>
             let H := fresh "H" in
             pose proof (PackVertices_length c src k v) as H;
             destruct (PackVertices c src k v) as [? ?]; cbn [snd] in H
         end.
  repeat match goal with H : length _ = length _ |- _ => rewrite H; clear H end.
  rewrite length_replicate. unfold total_vertices, nverts. lia.
Qed.

Lemma BuildIndices_length s : Z.of_nat (length (BuildIndices s)) = total_indices s.
Proof.
  unfold BuildIndices, GeometryGenerator.GetIndices16, total_indices, nidx.
  cbn zeta. rewrite !length_app, !length_map. cbn [length]. lia.
Qed.

(** X12.  The byte sizes [BuildShapeGeometry] records are computed in 32
    bits: [VertexBufferByteSize] is [sizeof(Vertex)] times the number of
    vertices packed, modulo 2^32, and [IndexBufferByteSize] twice the number
    of indices, modulo 2^32.  They are the true sizes of the packed arrays
    exactly when those are below 2^32 bytes. *)
Theorem buffer_byte_sizes (dev : Device) (s : Shapes) (geo : MeshGeometry.t) :
  BuildShapeGeometry dev s = Ok geo ->
  let vbytes := sizeof_Vertex * total_vertices s in
  let ibytes := sizeof_uint16_t * total_indices s in
  MeshGeometry.VertexByteStride geo = sizeof_Vertex /\
  MeshGeometry.VertexBufferByteSize geo = vbytes mod 2 ^ 32 /\
  MeshGeometry.IndexBufferByteSize geo = ibytes mod 2 ^ 32 /\
  (MeshGeometry.VertexBufferByteSize geo = vbytes <-> vbytes < 2 ^ 32) /\
  (MeshGeometry.IndexBufferByteSize geo = ibytes <-> ibytes < 2 ^ 32).
Proof.
  intros Hok vbytes ibytes.
  assert (Hsizes : MeshGeometry.VertexByteStride geo = sizeof_Vertex /\
                   MeshGeometry.VertexBufferByteSize geo = vbytes mod 2 ^ 32 /\
                   MeshGeometry.IndexBufferByteSize geo = ibytes mod 2 ^ 32).
  { unfold vbytes, ibytes. rewrite <- BuildVertices_length, <- BuildIndices_length.
    revert Hok. unfold BuildShapeGeometry, ThrowIfFailed.
    repeat match goal with |- context [FAILED ?hr] => destruct (FAILED hr) end;
      try discriminate.
    intros [= <-]. cbn [MeshGeometry.VertexByteStride MeshGeometry.VertexBufferByteSize
                        MeshGeometry.IndexBufferByteSize].
    unfold size_UINT, UINT. rewrite !Z.mul_mod_idemp_l by lia.
    rewrite (Z.mul_comm (Z.of_nat (length (BuildVertices s)))).
    rewrite (Z.mul_comm (Z.of_nat (length (BuildIndices s)))). repeat split. }
  destruct Hsizes as (Hs & Hvb & Hib).
  assert (0 <= vbytes).
  { unfold vbytes, sizeof_Vertex. rewrite <- BuildVertices_length. lia. }
  assert (0 <= ibytes).
  { unfold ibytes, sizeof_uint16_t. rewrite <- BuildIndices_length. lia. }
  split; [exact Hs|]. split; [exact Hvb|]. split; [exact Hib|].
  rewrite Hvb, Hib. split; split; intros HH.
  - pose proof (Z.mod_pos_bound vbytes (2 ^ 32) ltac:(lia)). lia.
  - apply Z.mod_small. lia.
  - pose proof (Z.mod_pos_bound ibytes (2 ^ 32) ltac:(lia)). lia.
  - apply Z.mod_small. lia.
Qed.

(** ** Start-up *)



(** ** Pointer moves *)

Lemma fle_flt_false x y : fle y x = true -> flt x y = false.
Proof.
  unfold flt, fle, SFltb, SFleb. rewrite (SFcompare_antisym y x).
  destruct (SFcompare y x) as [[| |]|]; cbn; congruence.
Qed.

Lemma Clamp_inside x low high :
  fle low x = true -> fle x high = true -> MathHelper_Clamp x low high = x.
Proof.
  intros Hl Hh. unfold MathHelper_Clamp.
  rewrite (fle_flt_false _ _ Hl), (fle_flt_false _ _ Hh). reflexivity.
Qed.

Lemma fadd_zero x : x <> S754_zero true -> fadd x (S754_zero false) = x.
Proof. destruct x as [[|]| | |]; intros H; try reflexivity; try congruence. Qed.

Lemma no_move_angle : XMConvertToRadians (fmul f0_25 (float_of_int (INT 0))) = S754_zero false.
Proof. vm_compute. reflexivity. Qed.

Lemma no_move_zoom :
  fsub (fmul f0_05 (float_of_int (INT 0))) (fmul f0_05 (float_of_int (INT 0)))
  = S754_zero false.
Proof. vm_compute. reflexivity. Qed.

(** X13.  What [OnMouseMove] changes.  It always records the pointer
    position.  With the left button down it leaves the radius alone, also
    when the right button is down too; without the left button it leaves
    both angles alone; with neither button it changes nothing else.  And a
    move that reports the position already recorded leaves elevation and
    radius of a camera within its limits exactly as they are (and the
    azimuth too, unless it is the negative zero). *)
Theorem pointer_move_effects (btnState x y : Z) (c : Camera.t) :
  let c' := OnMouseMove btnState x y c in
  let left := negb (Z.land btnState MK_LBUTTON =? 0) in
  let right := negb (Z.land btnState MK_RBUTTON =? 0) in
  Camera.mLastMousePos c' = (x, y) /\
  (left = true -> Camera.mRadius c' = Camera.mRadius c) /\
  (left = false ->
   Camera.mTheta c' = Camera.mTheta c /\ Camera.mPhi c' = Camera.mPhi c) /\
  (left = false -> right = false -> Camera.mRadius c' = Camera.mRadius c) /\
  (camera_in_bounds c = true -> Camera.mLastMousePos c = (x, y) ->
   Camera.mPhi c' = Camera.mPhi c /\ Camera.mRadius c' = Camera.mRadius c /\
   (Camera.mTheta c <> S754_zero true -> Camera.mTheta c' = Camera.mTheta c)).
Proof.
  intros c' left right. unfold c', OnMouseMove.
  destruct (Camera.mLastMousePos c) as [lastx lasty] eqn:Hlast.
  fold left. fold right.
  split; [destruct left, right; reflexivity|].
  split; [intros ->; reflexivity|].
  split; [intros ->; destruct right; split; reflexivity|].
  split; [intros -> ->; reflexivity|].
  intros Hb [= -> ->]. rewrite !Z.sub_diag.
  unfold camera_in_bounds in Hb. rewrite !andb_true_iff in Hb.
  destruct Hb as [[[Hp1 Hp2] Hr1] Hr2].
  destruct (between_finite _ _ _ _ _ Hp1 Hp2) as (mp & ep & Ep).
  destruct (between_finite _ _ _ _ _ Hr1 Hr2) as (mr & er & Er).
  destruct left.
  - cbn [Camera.mPhi Camera.mRadius Camera.mTheta]. rewrite no_move_angle.
    split; [|split; [reflexivity|apply fadd_zero]].
    rewrite fadd_zero by (rewrite Ep; discriminate).
    apply Clamp_inside; assumption.
  - destruct right; cbn [Camera.mPhi Camera.mRadius Camera.mTheta].
    + rewrite no_move_zoom. split; [reflexivity|]. split; [|reflexivity].
      rewrite fadd_zero by (rewrite Er; discriminate).
      apply Clamp_inside; assumption.
    + repeat split.
Qed.

(** ** Keyboard *)

Lemma land_bit15 k : Z.land k 0x8000 = if Z.testbit k 15 then 0x8000 else 0.
Proof.
  apply Z.bits_inj'. intros n Hn. rewrite Z.land_spec.
  change 0x8000 with (2 ^ 15). rewrite Z.pow2_bits_eqb by lia.
  destruct (Z.eqb_spec 15 n) as [<-|Hne].
  - rewrite andb_true_r. destruct (Z.testbit k 15); [|now rewrite Z.bits_0].
    now rewrite Z.pow2_bits_true.
  - rewrite andb_false_r. destruct (Z.testbit k 15); [|now rewrite Z.bits_0].
    symmetry. apply Z.pow2_bits_false. exact Hne.
Qed.

Lemma bit15_of_SHORT k : - 2 ^ 15 <= k < 2 ^ 15 -> Z.testbit k 15 = (k <? 0).
Proof.
  intros Hk. rewrite Z.testbit_odd, Z.shiftr_div_pow2 by lia.
  destruct (k <? 0) eqn:E.
  - apply Z.ltb_lt in E. replace (k / 2 ^ 15) with (-1); [reflexivity|].
    apply (Z.div_unique k (2 ^ 15) (-1) (k + 2 ^ 15)); lia.
  - apply Z.ltb_ge in E. rewrite Z.div_small by lia. reflexivity.
Qed.

(** X14.  [OnKeyboardInput] sets [mIsWireframe] exactly while the key ['1']
    is down: the flag is bit 15 of the key state, that is, it is set exactly
    when the [SHORT] that [GetAsyncKeyState] answers is negative; the other
    bits, among them the "pressed since the last call" bit, and the previous
    value of the flag play no part.  [Draw] then resets the command list
    with the wireframe pipeline state exactly when the key is down. *)
Theorem wireframe_while_key_is_down (keys : Z -> Z) :
  - 2 ^ 15 <= keys VK_1 < 2 ^ 15 ->
  (OnKeyboardInput keys = true <-> keys VK_1 < 0) /\
  OnKeyboardInput keys = Z.testbit (keys VK_1) 15 /\
  (forall keys', Z.testbit (keys' VK_1) 15 = Z.testbit (keys VK_1) 15 ->
                 OnKeyboardInput keys' = OnKeyboardInput keys) /\
  (Draw_pso (OnKeyboardInput keys) = "opaque_wireframe"%string <-> keys VK_1 < 0).
Proof.
  intros Hk.
  assert (Hbit : forall ks, OnKeyboardInput ks = Z.testbit (ks VK_1) 15).
  { intros ks. unfold OnKeyboardInput. rewrite land_bit15.
    destruct (Z.testbit (ks VK_1) 15); reflexivity. }
  rewrite !Hbit, bit15_of_SHORT by exact Hk.
  split; [apply Z.ltb_lt|]. split; [reflexivity|]. split.
  - intros keys' H. rewrite Hbit, H. reflexivity.
  - unfold Draw_pso. destruct (keys VK_1 <? 0) eqn:E.
    + apply Z.ltb_lt in E. tauto.
    + apply Z.ltb_ge in E. split; [discriminate|lia].
Qed.

(** ** Object constants, any render items *)



(** ** Stamps of the ring *)

Lemma Stamped_Frame n app L :
  Inv app -> mCurrentFence app + 1 < 2 ^ 64 -> 0 <= L -> Stamped L app ->
  exists app' log,
    Frame n app = Some (app', log) /\ Inv app' /\
    mCurrentFence app' = mCurrentFence app + 1 /\
    Stamped (L + 1) app'.
Proof.
  intros HI Hb HL HS. unfold Stamped in *.
  destruct (Frame_facts n app HI Hb) as (fr & g & log & Hfr & HF & HI' & _).
  exists (Frame_state app fr g), log. split; [exact HF|]. split; [exact HI'|].
  split; [reflexivity|].
  pose proof (inv_index _ HI) as Hi. change gNumFrameResources with 3 in Hi.
  intros k Hk. change gNumFrameResources with 3 in *.
  rewrite Frame_state_index by exact HI. rewrite Frame_state_ring.
  change gNumFrameResources with 3. unfold next_slot. change gNumFrameResources with 3.
  change (mCurrentFence (Frame_state app fr g)) with (mCurrentFence app + 1).
  destruct (decide (k = 0)) as [->|Hk0].
  - rewrite Z.sub_0_r, Z.mod_mod by lia.
    eexists. split.
    + apply list_lookup_insert_eq. apply lookup_lt_Some in Hfr. exact Hfr.
    + cbn [FrameResource.Fence]. destruct (0 <? L + 1) eqn:E; [lia|apply Z.ltb_ge in E; lia].
  - destruct (ring_back (mCurrFrameResourceIndex app) k Hi ltac:(lia)) as (E1 & E2 & _).
    rewrite E1. rewrite list_lookup_insert_ne by congruence.
    destruct (HS (k - 1) ltac:(lia)) as (fr' & Hl & Hf).
    exists fr'. split; [exact Hl|]. rewrite Hf.
    destruct (k - 1 <? L) eqn:Ea, (k <? L + 1) eqn:Eb;
      try apply Z.ltb_lt in Ea; try apply Z.ltb_ge in Ea;
      try apply Z.ltb_lt in Eb; try apply Z.ltb_ge in Eb; lia.
Qed.

Lemma Run_stamped inputs : forall app L app' tr,
  Inv app -> mCurrentFence app + Z.of_nat (length inputs) < 2 ^ 64 ->
  0 <= L -> Stamped L app ->
  Run inputs app = Some (app', tr) ->
  Stamped (L + Z.of_nat (length inputs)) app'.
Proof.
  induction inputs as [|n rest IH]; intros app L app' tr HI Hb HL HS HR.
  - cbn in HR. injection HR as <- <-. cbn [length]. rewrite Z.add_0_r. exact HS.
  - cbn [length] in Hb |- *. rewrite Nat2Z.inj_succ in Hb |- *.
    destruct (Stamped_Frame n app L HI ltac:(lia) HL HS) as (a1 & l1 & HF & I1 & F1 & S1).
    cbn [Run] in HR. rewrite HF in HR. cbn [mbind option_bind] in HR.
    destruct (Run rest a1) as [[a2 t2]|] eqn:HR2; [|discriminate].
    cbn in HR. injection HR as <- <-.
    replace (L + Z.succ (Z.of_nat (length rest))) with (L + 1 + Z.of_nat (length rest)) by lia.
    apply (IH a1 (L + 1) a2 t2 I1 ltac:(lia) ltac:(lia) S1 HR2).
Qed.

(** X8.  After any number of frames, the frame resource used [k] frames
    ago ([k] = 0 for the current one) carries the fence value of that frame,
    [mCurrentFence - k], which is the [k]-th last value signalled; a frame
    resource that has not been used yet still carries 0. *)
Theorem ring_carries_last_fences (dev : Device) (shapes : Shapes)
    (worlds : string -> XMFLOAT4X4) (fence0 : Z) (app0 app : ShapesApp.t)
    (inputs : list nat) (tr : list (Z * list Event)) (k : Z) :
  0 <= fence0 ->
  fence0 + 1 + Z.of_nat (length inputs) < 2 ^ 64 ->
  Initialize dev shapes worlds fence0 = Initialized app0 ->
  Run inputs app0 = Some (app, tr) ->
  0 <= k < gNumFrameResources ->
  exists fr,
    mFrameResources app
      !! Z.to_nat ((mCurrFrameResourceIndex app - k) mod gNumFrameResources) = Some fr /\
    FrameResource.Fence fr
    = (if k <? Z.of_nat (length inputs) then mCurrentFence app - k else 0) /\
    (k < Z.of_nat (length inputs) ->
     reverse (stamps tr) !! Z.to_nat k = Some (FrameResource.Fence fr)).
Proof.
  intros H0 Hb Hinit HR Hk.
  pose proof (Inv_Initialize _ _ _ _ _ H0 ltac:(lia) Hinit) as I0.
  destruct (Initialize_inv _ _ _ _ _ H0 ltac:(lia) Hinit)
    as (_ & _ & _ & Hring & _ & Hidx & HF0 & _ & _).
  assert (S0 : Stamped 0 app0).
  { intros j Hj. change gNumFrameResources with 3 in *. rewrite Hring, Hidx.
    exists FrameResource.fresh. split.
    - assert (j = 0 \/ j = 1 \/ j = 2) as [-> | [-> | ->]] by lia; reflexivity.
    - destruct (j <? 0) eqn:E; [apply Z.ltb_lt in E; lia|reflexivity]. }
  pose proof (Run_stamped inputs app0 0 app tr I0 ltac:(lia) ltac:(lia) S0 HR) as HS.
  rewrite Z.add_0_l in HS. destruct (HS k Hk) as (fr & Hl & Hf).
  exists fr. split; [exact Hl|]. split; [exact Hf|]. intros Hlt.
  destruct (Run_spec inputs app0 I0 ltac:(lia)) as (app' & tr' & HR' & _ & HF & _ & Hst).
  rewrite HR in HR'. injection HR' as <- <-.
  rewrite Hf. destruct (k <? Z.of_nat (length inputs)) eqn:E; [|apply Z.ltb_ge in E; lia].
  rewrite Hst, HF. rewrite reverse_lookup by (rewrite length_seqZ; lia).
  rewrite length_seqZ. apply lookup_seqZ. split; lia.
Qed.

Lemma Draw_binds_current_frame_views_witness :
  map (fun i => DescriptorHeap.views (mCbvHeap (fst sample_update)) !! i)
      (pass_tables (snd sample_draw)) = [Some (PassCBV 1)] /\
  length (object_tables (snd sample_draw)) = 22%nat.
Proof.
  pose proof (Draw_binds_current_frame_views sample_device sample_shapes sample_worlds 0
                sample_app (fst sample_run) (fst sample_update) (fst sample_draw)
                [0; 0; 0]%nat (snd sample_run) 0 (snd sample_update) (snd sample_draw)) as H.
  cbv zeta in H. destruct H as (_ & H1 & H2 & _).
  - lia.
  - vm_compute. reflexivity.
  - vm_compute. reflexivity.
  - vm_compute. reflexivity.
  - vm_compute. reflexivity.
  - vm_compute. reflexivity.
  - split; [exact H1|].
    apply (f_equal (@length _)) in H2. rewrite !length_map in H2. rewrite H2.
    vm_compute. reflexivity.
Defined.

Lemma at_most_three_frames_in_flight_witness :
  frames_in_flight (fst sample_run) = 3 /\
  0 <= frames_in_flight (fst sample_update) <= 2 /\
  0 <= frames_in_flight (fst sample_draw) <= 3.
Proof.
  split; [vm_compute; reflexivity|].
  destruct (at_most_three_frames_in_flight sample_device sample_shapes sample_worlds 0
              sample_app (fst sample_run) (fst sample_update) (fst sample_draw)
              [0; 0; 0]%nat (snd sample_run) 0 (snd sample_update) (snd sample_draw))
    as (_ & H1 & H2 & _).
  - lia.
  - vm_compute. reflexivity.
  - vm_compute. reflexivity.
  - vm_compute. reflexivity.
  - vm_compute. reflexivity.
  - vm_compute. reflexivity.
  - split; [exact H1|exact H2].
Defined.

Lemma scene_settles_in_three_frames_witness :
  Forall (fun p => length (object_writes (snd p)) = 22%nat) (snd sample_run) /\
  Forall (fun e => RenderItem.NumFramesDirty e = 0) (mAllRitems (fst sample_run)).
Proof.
  destruct (scene_settles_in_three_frames sample_device sample_shapes sample_worlds 0
              sample_app (fst sample_run) [0; 0; 0]%nat (snd sample_run))
    as (H1 & _ & H2).
  - lia.
  - vm_compute. reflexivity.
  - vm_compute. reflexivity.
  - vm_compute. reflexivity.
  - assert (E : take 3 (snd sample_run) = snd sample_run) by (vm_compute; reflexivity).
    rewrite E in H1. split; [exact H1|]. apply H2. cbn [length]. lia.
Defined.


Lemma short_meshes_keep_their_indices_witness :
  MeshGeometry.IndexBufferCPU sample_geo !! 5%nat = Some 2 /\
  MeshGeometry.VertexBufferCPU sample_geo !! 5%nat
  = Some (paint Gray (GeometryGenerator.mkVertex (mkXMFLOAT3 f0 f0 f0))).
Proof.
  pose proof (short_meshes_keep_their_indices sample_device sample_shapes sample_geo
                ltac:(vm_compute; reflexivity) ltac:(vm_compute; reflexivity)
                ltac:(repeat constructor; vm_compute; discriminate)
                ltac:(vm_compute; reflexivity)) as H.
  assert (E1 : shape_list sample_shapes !! 1%nat = Some ("grid"%string, sample_mesh, Gray))
    by reflexivity.
  assert (E2 : BuildSubmeshes sample_shapes !! 1%nat
               = Some ("grid"%string, SubmeshGeometry.mk 3 3 3))
    by (vm_compute; reflexivity).
  pose proof (Forall2_lookup_lr _ _ _ _ _ _ H E1 E2) as H'.
  cbv zeta in H'. cbn [fst snd] in H'.
  apply (H' ltac:(vm_compute; discriminate) 2%nat 2
           (GeometryGenerator.mkVertex (mkXMFLOAT3 f0 f0 f0))); reflexivity.
Defined.

Lemma buffer_byte_sizes_witness :
  MeshGeometry.VertexBufferByteSize sample_geo = 840 /\
  MeshGeometry.IndexBufferByteSize sample_geo = 60.
Proof.
  pose proof (buffer_byte_sizes sample_device sample_shapes sample_geo) as H.
  cbv zeta in H. destruct H as (_ & _ & _ & H1 & H2).
  - vm_compute. reflexivity.
  - split; [apply H1|apply H2]; vm_compute; reflexivity.
Defined.

Lemma wireframe_while_key_is_down_witness :
  OnKeyboardInput keys_down = true /\
  Draw_pso (OnKeyboardInput keys_down) = "opaque_wireframe"%string.
Proof.
  destruct (wireframe_while_key_is_down keys_down) as (H1 & _ & _ & H2).
  - unfold keys_down. lia.
  - split; [apply H1|apply H2]; unfold keys_down; lia.
Defined.


Lemma ring_carries_last_fences_witness :
  exists fr,
    mFrameResources (fst sample_run) !! 2%nat = Some fr /\ FrameResource.Fence fr = 3.
Proof.
  destruct (ring_carries_last_fences sample_device sample_shapes sample_worlds 0
              sample_app (fst sample_run) [0; 0; 0]%nat (snd sample_run) 1)
    as (fr & H1 & H2 & _).
  - lia.
  - vm_compute. reflexivity.
  - vm_compute. reflexivity.
  - vm_compute. reflexivity.
  - vm_compute. split; [discriminate|reflexivity].
  - exists fr. split.
    + rewrite <- H1. vm_compute. reflexivity.
    + rewrite H2. vm_compute. reflexivity.
Defined.
